(** * StrepHit: annotation parsing, classifier training, POS tagging

    A shallow embedding of three Python modules of the StrepHit pipeline:

    - [strephit/annotation/parse_results.py]  (module [ParseResults]),
    - [strephit/commons/pos_tag.py]           (module [PosTag]),
    - [strephit/classification/train.py]      (module [Train]).

    Python dictionaries are finite maps ([gmap]), Python exceptions are the
    left summand of a sum type, the iteration order of a Python 2 dictionary
    and the draws of [random] are oracles threaded through the code, the
    largest C [long] of the machine is a field of a type class, and calls
    into third-party libraries are parameters of a [Section]. *)

From Stdlib Require Import ZArith NArith Ascii String DecimalString DecimalN.
From stdpp Require Import gmap strings list fin_maps sorting.

Local Open Scope string_scope.
Local Open Scope list_scope.

(** ** Python preliminaries *)

Module Py.

(** The exceptions the embedded code can raise. *)
Inductive exn :=
| AssertionError
| KeyError (k : string)
| ValueError
| IndexError
| TypeError
| AttributeError
| ZeroDivisionError
| OverflowError
| UnicodeDecodeError.

#[global] Instance exn_eq_dec : EqDecision exn.
Proof. solve_decision. Defined.

(** A computation either raises or returns. *)
Definition result (A : Type) : Type := exn + A.

Definition raise {A} (e : exn) : result A := inl e.
Definition ret {A} (a : A) : result A := inr a.
Definition bind {A B} (c : result A) (k : A -> result B) : result B :=
  match c with
  | inl e => inl e
  | inr a => k a
  end.

Declare Scope py_scope.
Delimit Scope py_scope with py.
Notation "'do' x <- c ; k" := (bind c (fun x => k))
  (at level 10, x pattern, c at level 100, k at level 200) : py_scope.
Local Open Scope py_scope.

(** [assert b] *)
Definition py_assert (b : bool) : result unit :=
  if b then ret tt else raise AssertionError.

(** [d[k]] on a dictionary. *)
Definition getitem {D V} `{Lookup string V D} (d : D) (k : string) : result V :=
  match d !! k with
  | Some v => ret v
  | None => raise (KeyError k)
  end.

(** [[f(x) for x in xs]] where [f] may raise: the first failure wins. *)
Fixpoint mapM {A B} (f : A -> result B) (xs : list A) : result (list B) :=
  match xs with
  | [] => ret []
  | x :: xs' => do y <- f x; do ys <- mapM f xs'; ret (y :: ys)
  end.

(** A [for] loop that threads an accumulator and may raise. *)
Fixpoint foldM {A S} (f : S -> A -> result S) (s : S) (xs : list A) : result S :=
  match xs with
  | [] => ret s
  | x :: xs' => do s' <- f s x; foldM f s' xs'
  end.

(** [max(xs)]: raises [ValueError] on an empty sequence. *)
Definition py_max (xs : list nat) : result nat :=
  match xs with
  | [] => raise ValueError
  | x :: xs' => ret (foldr Nat.max x xs')
  end.

(** [max(xs)] on integers that need not be small. *)
Definition py_max_N (xs : list N) : result N :=
  match xs with
  | [] => raise ValueError
  | x :: xs' => ret (foldr N.max x xs')
  end.

(** The machine the interpreter runs on: [sys.maxint], the largest value of
    a C [long] (2^63 - 1 on a 64-bit Unix, 2^31 - 1 on Windows). *)
Class Machine := { maxint : N }.

(** [xrange(n)] for [n] not negative: Python 2 converts [n] to a C [long] and
    raises [OverflowError] when it does not fit. *)
Definition xrange `{Machine} (n : N) : result (list nat) :=
  if (maxint <? n)%N then raise OverflowError else ret (seq 0 (N.to_nat n)).

(** Truth value of a [str] or [None] (CSV cells are one or the other). *)
Definition truthy (v : option string) : bool :=
  match v with
  | Some (String _ _) => true
  | _ => false
  end.

(** *** Strings *)

Definition is_digit (c : ascii) : bool :=
  let n := nat_of_ascii c in (48 <=? n)%nat && (n <=? 57)%nat.

(** [str.isspace] on one byte: space, [\t], [\n], [\v], [\f], [\r]. *)
Definition is_space (c : ascii) : bool :=
  let n := nat_of_ascii c in (n =? 32)%nat || ((9 <=? n)%nat && (n <=? 13)%nat).

(** [s.split(sep)] for a one-character separator. *)
Fixpoint split_on (sep : ascii) (s : string) : list string :=
  match s with
  | EmptyString => [EmptyString]
  | String c s' =>
      if Ascii.eqb c sep then EmptyString :: split_on sep s'
      else match split_on sep s' with
           | h :: t => String c h :: t
           | [] => [String c EmptyString]
           end
  end.

(** [xs[i]] on a list. *)
Definition index {A} (xs : list A) (i : nat) : result A :=
  match xs !! i with
  | Some x => ret x
  | None => raise IndexError
  end.

(** [s] with [prefix] removed, when [s] starts with it. *)
Fixpoint strip_prefix (prefix s : string) : option string :=
  match prefix, s with
  | EmptyString, _ => Some s
  | String a p', String b s' => if Ascii.eqb a b then strip_prefix p' s' else None
  | String _ _, EmptyString => None
  end.

(** [re.match(prefix + r'\d+', k)] is not [None]: [re.match] anchors at the
    start only, and [\d] on a byte string is [0-9]. *)
Definition re_match_digits (prefix k : string) : bool :=
  match strip_prefix prefix k with
  | Some (String c _) => is_digit c
  | _ => false
  end.

Fixpoint lstrip (s : string) : string :=
  match s with
  | String c s' => if is_space c then lstrip s' else s
  | EmptyString => EmptyString
  end.

(** Trailing white space removed. *)
Fixpoint rstrip (s : string) : string :=
  match s with
  | EmptyString => EmptyString
  | String c s' =>
      match rstrip s' with
      | EmptyString => if is_space c then EmptyString else String c EmptyString
      | r => String c r
      end
  end.

Fixpoint all_digits (s : string) : bool :=
  match s with
  | EmptyString => true
  | String c s' => is_digit c && all_digits s'
  end.

(** [int(s)] for a string whose value is not negative: surrounding white
    space is dropped, an optional [+] is accepted, and what remains must be a
    non-empty run of decimal digits.  (The strings the code converts start
    with a digit, so a [-] sign never reaches this function with a digit
    before it; a leading [-] is a [ValueError] here as any other junk.) *)
Definition py_int (s : string) : result N :=
  let body := rstrip (lstrip s) in
  let digits := match body with
                | String "+"%char d => d
                | _ => body
                end in
  match digits with
  | EmptyString => raise ValueError
  | _ =>
      if all_digits digits then
        match NilEmpty.uint_of_string digits with
        | Some d => ret (N.of_uint d)
        | None => raise ValueError
        end
      else raise ValueError
  end.

(** ['%02d' % i]: decimal, padded with a zero to two characters. *)
Definition fmt02 (i : nat) : string :=
  let s := NilEmpty.string_of_uint (N.to_uint (N.of_nat i)) in
  match s with
  | String _ EmptyString => String "0"%char s
  | _ => s
  end.

(** *** Oracles: dictionary order and random draws *)

(** A Python 2 dictionary iterates in hash order, which the program does not
    control.  [permute code l] reorders [l] by repeatedly extracting the
    element at position [c mod length]; every code gives a permutation and
    every permutation is given by some code. *)
Fixpoint permute {A} (code : list nat) (l : list A) : list A :=
  match code with
  | [] => l
  | c :: code' =>
      let i := (c mod length l)%nat in
      match l !! i with
      | Some x => x :: permute code' (delete i l)
      | None => l
      end
  end.

(** The oracle: one permutation code per dictionary iteration, one number per
    call of [random.choice]. *)
Record oracle := Oracle { orders : list (list nat); draws : list nat }.

(** Computations that consult the oracle and may raise. *)
Definition M (A : Type) : Type := oracle -> result (A * oracle).

Definition mret {A} (a : A) : M A := fun o => ret (a, o).
Definition mbind {A B} (c : M A) (k : A -> M B) : M B :=
  fun o => match c o with
           | inl e => inl e
           | inr (a, o') => k a o'
           end.
Definition lift {A} (c : result A) : M A :=
  fun o => do a <- c; ret (a, o).

Declare Scope pym_scope.
Delimit Scope pym_scope with pym.
Notation "'do' x <- c ; k" := (mbind c (fun x => k))
  (at level 10, x pattern, c at level 100, k at level 200) : pym_scope.

(** The entries of a dictionary in the order in which it iterates: the order
    chosen by the oracle. *)
Definition dict_order {A} (entries : list A) : M (list A) :=
  fun o =>
    match orders o with
    | [] => ret (entries, o)
    | code :: rest => ret (permute code entries, Oracle rest (draws o))
    end.

(** [d.iteritems()] *)
Definition iteritems {K V} `{Countable K} (d : gmap K V) : M (list (K * V)) :=
  dict_order (map_to_list d).

(** [random.choice(seq)]: [seq[int(random() * len(seq))]]; [IndexError] on an
    empty sequence. *)
Definition random_choice {A} (seq : list A) : M A :=
  fun o =>
    let '(r, rest) := match draws o with
                      | [] => (0%nat, [])
                      | r :: rest => (r, rest)
                      end in
    do x <- index seq (r mod length seq)%nat; ret (x, Oracle (orders o) rest).

End Py.

(** ** [strephit/annotation/parse_results.py] *)

Module ParseResults.
Import Py.
Local Open Scope py_scope.

(** A row of [csv.DictReader]: the cells under the column names, a cell being
    a [str] or [None] (the reader's fill value for a line shorter than the
    header); and, for a line longer than the header, the list of its surplus
    cells, which the reader stores under the key [None]. *)
Record row := Row {
  cells : gmap string (option string);
  surplus : option (list string)
}.

#[global] Instance row_eq_dec : EqDecision row.
Proof. solve_decision. Defined.

(** [each[name]] reads a cell; the surplus cells are under no name. *)
#[global] Instance row_lookup : Lookup string (option string) row :=
  fun name r => cells r !! name.

#[global] Instance row_insert : Insert string (option string) row :=
  fun name v r => Row (<[name := v]> (cells r)) (surplus r).

#[global] Instance row_delete : Delete string row :=
  fun name r => Row (delete name (cells r)) (surplus r).

(** The keys of a row: the column names, and [None] when the row has surplus
    cells. *)
Definition row_keys (r : row) : list (option string) :=
  map Some (map fst (map_to_list (cells r))) ++
  match surplus r with
  | Some _ => [None]
  | None => []
  end.

(** [each.keys()]: the keys in the order in which the dictionary iterates. *)
Definition keys (r : row) : M (list (option string)) := dict_order (row_keys r).

(** The value under a key of the returned unit: a cell or the [fes] dict. *)
Inductive field :=
| FStr (v : option string)
| FFes (fes : gmap string (option string)).

#[global] Instance field_eq_dec : EqDecision field.
Proof. solve_decision. Defined.

(** [all(s['_unit_id'] == unit_id for s in sentences)] *)
Fixpoint all_unit_id (unit_id : option string) (sentences : list row) : result bool :=
  match sentences with
  | [] => ret true
  | s :: rest =>
      do v <- getitem s "_unit_id";
      if decide (v = unit_id) then all_unit_id unit_id rest else ret false
  end.

(** [len(set(s[name] for s in sentences)) == 1] *)
Definition single_valued (name : string) (sentences : list row) : result bool :=
  do vals <- mapM (fun s : row => getitem s name) sentences;
  ret (bool_decide (size (list_to_set vals : gset (option string)) = 1%nat)).

(** [int(k.split('_')[1])] *)
Definition column_number (k : string) : result N :=
  do seg <- index (split_on "_" k) 1;
  py_int seg.

(** One step of the generator
    [int(k.split('_')[1]) for k in keys if re.match(prefix + r'\d+', k)]:
    [re.match] raises [TypeError] on the key [None], a key that does not
    match is skipped, and the number of one that matches is produced. *)
Definition column_step (prefix : string) (k : option string) : result (option N) :=
  match k with
  | None => raise TypeError
  | Some k' =>
      if re_match_digits prefix k'
      then do v <- column_number k'; ret (Some v)
      else ret None
  end.

(** [1 + max(int(k.split('_')[1]) for k in keys if re.match(prefix + r'\d+', k))]:
    the generator is consumed in the order of [keys], so that the first key
    that raises decides the exception. *)
Definition column_count_of (prefix : string) (keys : list (option string)) : result N :=
  do numbers <- mapM (column_step prefix) keys;
  do m <- py_max_N (omap id numbers);
  ret (1 + m)%N.

(** The body of the inner loop that collects the judgments:
[[
fe = each['answer_chunk_%02d' % i]
chunk = each['chunk_%02d' % i]
if fe and chunk and fe != 'None':
    chunks[chunk].append(fe)
]] *)
Definition add_judgment (each : row) (chunks : gmap string (list string)) (i : nat)
  : result (gmap string (list string)) :=
  do fe <- getitem each ("answer_chunk_" ++ fmt02 i);
  do chunk <- getitem each ("chunk_" ++ fmt02 i);
  match fe, chunk with
  | Some fe', Some chunk' =>
      if truthy fe && truthy chunk && negb (String.eqb fe' "None")
      then ret (<[chunk' := default [] (chunks !! chunk') ++ [fe']]> chunks)
      else ret chunks
  | _, _ => ret chunks
  end.

(** [counts[each] += 1] for each judgment, from an empty [defaultdict]. *)
Definition count_judgments (judgments : list string) : gmap string nat :=
  fold_left (fun counts each => <[each := S (default 0%nat (counts !! each))]> counts)
            judgments ∅.

(** The frame elements with [most] votes, in the order of [counts.iteritems()]. *)
Definition winners (most : nat) (items : list (string * nat)) : list string :=
  map fst (List.filter (fun cj => Nat.eqb (snd cj) most) items).

(** One round of the vote:
[[
most = max(counts.values())
fe = random.choice([c for c, j in counts.iteritems() if j == most])
]] *)
Definition elect (judgments : list string) : M string :=
  (let counts := count_judgments judgments in
   do most <- lift (py_max (map snd (map_to_list counts)));
   do items <- iteritems counts;
   random_choice (winners most items))%pym.

(** The loop over [chunks.iteritems()] with [fes[fe] = chunk]. *)
Fixpoint vote (items : list (string * list string)) (fes : gmap string (option string))
  : M (gmap string (option string)) :=
  match items with
  | [] => mret fes
  | (chunk, judgments) :: rest =>
      (do fe <- elect judgments;
       vote rest (<[fe := Some chunk]> fes))%pym
  end.

(** The body of the loop that fills in missing FEs:
[[
fe = sentences[0]['fe_%02d' % i]
if fe and fe not in fes:
    fes[fe] = None
]] *)
Definition fill_missing (first : row) (fes : gmap string (option string)) (i : nat)
  : result (gmap string (option string)) :=
  do fe <- getitem first ("fe_" ++ fmt02 i);
  match fe with
  | Some fe' =>
      if truthy fe && negb (bool_decide (is_Some (fes !! fe')))
      then ret (<[fe' := None]> fes)
      else ret fes
  | None => ret fes
  end.

(** The four assertions at the head of [process_unit]. *)
Definition check_unit (unit_id : option string) (sentences : list row) : result unit :=
  do b <- all_unit_id unit_id sentences;
  do _ <- py_assert b;
  do b <- single_valued "id" sentences;
  do _ <- py_assert b;
  do b <- single_valued "sentence" sentences;
  do _ <- py_assert b;
  do b <- single_valued "frame" sentences;
  py_assert b.

(** A line of the output is modelled by what [main] gives to
    [outfile.write] before the newline: the string [json.dumps] returns. *)
Definition output : Type := list string * option exn.

Section Platform.

(** The machine gives [sys.maxint]; [json.dumps] is the encoder of the
    standard library, which raises [UnicodeDecodeError] on a [str] that is
    not UTF-8 (the order in which it renders the keys of a dictionary is
    part of the parameter). *)
Context `{Machine}.
Variable json_dumps : gmap string field -> result string.

(** The mapping chunk --> all assigned FEs:
[[
for each in sentences:
    for i in xrange(chunk_count):
]] *)
Definition build_chunks (chunk_count : N) (sentences : list row)
  : result (gmap string (list string)) :=
  foldM (fun chunks each =>
           do idxs <- xrange chunk_count;
           foldM (add_judgment each) chunks idxs)
        ∅ sentences.

(** [for i in xrange(fe_count)] with the body [fill_missing]. *)
Definition fill_fes (fe_count : N) (first : row) (fes : gmap string (option string))
  : result (gmap string (option string)) :=
  do idxs <- xrange fe_count;
  foldM (fill_missing first) fes idxs.

(** [sentences[0].keys()] is called twice on a dictionary that does not
    change in between, so both calls give the same order. *)
Definition process_unit (unit_id : option string) (sentences : list row)
  : M (gmap string field) :=
  (do _ <- lift (check_unit unit_id sentences);
   do first <- lift (index sentences 0);
   do ks <- keys first;
   do chunk_count <- lift (column_count_of "chunk_" ks);
   do fe_count <- lift (column_count_of "fe_" ks);
   do chunks <- lift (build_chunks chunk_count sentences);
   do items <- iteritems chunks;
   do fes <- vote items ∅;
   do fes <- lift (fill_fes fe_count first fes);
   do id <- lift (getitem first "id");
   do sentence <- lift (getitem first "sentence");
   do frame <- lift (getitem first "frame");
   mret ({[ "id" := FStr id; "sentence" := FStr sentence;
            "frame" := FStr frame; "fes" := FFes fes ]} : gmap string field))%pym.

(** [sentences[each['_unit_id']].append(each)] for each row of the reader. *)
Definition group_rows (rows : list row) : result (gmap (option string) (list row)) :=
  foldM (fun (sentences : gmap (option string) (list row)) (each : row) =>
           do k <- getitem each "_unit_id";
           ret (<[k := default [] (sentences !! k) ++ [each]]> sentences))
        ∅ rows.

(** The output loop of [main]: the lines written so far, and the exception
    that ended the loop if there was one.
[[
processed = process_unit(k, v)
outfile.write(json.dumps(processed))
outfile.write('\n')
]] *)
Fixpoint write_units (items : list (option string * list row)) (o : oracle) : output :=
  match items with
  | [] => ([], None)
  | (k, v) :: rest =>
      match process_unit k v o with
      | inl e => ([], Some e)
      | inr (processed, o') =>
          match json_dumps processed with
          | inl e => ([], Some e)
          | inr line =>
              let '(out, status) := write_units rest o' in
              (line :: out, status)
          end
      end
  end.

Definition main (results : list row) (o : oracle) : output :=
  match group_rows results with
  | inl e => ([], Some e)
  | inr sentences =>
      match iteritems sentences o with
      | inl e => ([], Some e)
      | inr (items, o') => write_units items o'
      end
  end.

End Platform.

(** *** Notions used to state the properties of [process_unit] *)

(** The number of a column and the count of the columns as natural numbers,
    for the keys of a row in their standard order (when the count can be
    computed it is the same in every order). *)
Definition column_index (k : string) : result nat :=
  do v <- column_number k;
  ret (N.to_nat v).

Definition column_count (prefix : string) (r : row) : result nat :=
  do n <- column_count_of prefix (row_keys r);
  ret (N.to_nat n).

(** The two loops that collect the judgments, for a count that [xrange]
    accepts. *)
Definition collect_judgments (chunk_count : nat) (sentences : list row)
  : result (gmap string (list string)) :=
  foldM (fun chunks each => foldM (add_judgment each) chunks (seq 0 chunk_count))
        ∅ sentences.

(** The number of votes a frame element got among the judgments of a chunk. *)
Definition votes (fe : string) (judgments : list string) : nat :=
  count_occ String.string_dec judgments fe.

(** The value of the variable [chunks] of [process_unit] after its first
    loop, as a function of the rows. *)
Definition judgments_of `{Machine} (sentences : list row)
  : result (gmap string (list string)) :=
  do first <- index sentences 0;
  do chunk_count <- column_count_of "chunk_" (row_keys first);
  build_chunks chunk_count sentences.

(** The pairs (chunk, elected frame element) of the voting loop, in the order
    of its iterations: [vote] without the store into [fes]. *)
Fixpoint elections (items : list (string * list string)) : M (list (string * string)) :=
  match items with
  | [] => mret []
  | (chunk, judgments) :: rest =>
      (do fe <- elect judgments;
       do els <- elections rest;
       mret ((chunk, fe) :: els))%pym
  end.

(** The stores [fes[fe] = chunk] of a sequence of elections. *)
Definition record_elections (els : list (string * string))
    (fes : gmap string (option string)) : gmap string (option string) :=
  fold_left (fun fes el => <[el.2 := Some el.1]> fes) els fes.

(** The elections of a run of [process_unit] on [sentences] with oracle [o]:
    the run takes the order of the keys of the first row from the oracle,
    then the order of [chunks]. *)
Definition elections_of `{Machine} (sentences : list row) (o : oracle)
  : result (list (string * string)) :=
  do first <- index sentences 0;
  do chunks <- judgments_of sentences;
  match (do _ <- keys first;
         do items <- iteritems chunks;
         elections items)%pym o with
  | inl e => inl e
  | inr (els, _) => ret els
  end.

(** A chunk is retained in [fes] when some frame element is mapped to it. *)
Definition retained (fes : gmap string (option string)) (chunk : string) : Prop :=
  exists fe, fes !! fe = Some (Some chunk).

(** The rows of the results that carry a unit id. *)
Definition unit_rows (k : option string) (results : list row) : list row :=
  List.filter (fun r : row => bool_decide (r !! "_unit_id" = Some k)) results.

(** No chunk is entered in [chunks] without a judgment. *)
Definition judged (chunks : gmap string (list string)) : Prop :=
  forall chunk judgments, chunks !! chunk = Some judgments -> judgments <> [].

(** A row has the cells the first loop reads (the loop raises only a
    [KeyError], for a column a row lacks). *)
Definition has_cells (n : nat) (each : row) : Prop :=
  forall i, (i < n)%nat ->
    is_Some (each !! ("answer_chunk_" ++ fmt02 i)%string) /\
    is_Some (each !! ("chunk_" ++ fmt02 i)%string).

(** The frame elements listed in the columns [fe_XX] of a row, for the given
    indices. *)
Definition listed (first : row) (idxs : list nat) (fe : string) : Prop :=
  fe <> "" /\ exists i, i ∈ idxs /\ first !! ("fe_" ++ fmt02 i)%string = Some (Some fe).

(** The judgment a cell gives to a chunk: the answer of the cell, when the
    cell holds that chunk and the answer counts. *)
Definition cell_judgment (chunk : string) (each : row) (i : nat) : list string :=
  match each !! ("answer_chunk_" ++ fmt02 i)%string,
        each !! ("chunk_" ++ fmt02 i)%string with
  | Some (Some fe), Some (Some c) =>
      if truthy (Some fe) && truthy (Some c) && negb (String.eqb fe "None")
         && String.eqb c chunk
      then [fe] else []
  | _, _ => []
  end.

(** The judgments of a chunk, row by row and cell by cell. *)
Definition judgments_for (chunk : string) (n : nat) (sentences : list row)
  : list string :=
  flat_map (fun each => flat_map (cell_judgment chunk each) (seq 0 n)) sentences.

(** The last election that chose a frame element, if there is one. *)
Definition last_election (els : list (string * string)) (fe : string)
  : option (string * string) :=
  last (List.filter (fun el => String.eqb el.2 fe) els).

(** The rows agree on a column: they all have it, with one value. *)
Definition agree_on (name : string) (v : option string) (sentences : list row) : Prop :=
  forall s, s ∈ sentences -> s !! name = Some v.

(** The four columns the assertions of [process_unit] read. *)
Definition checked_columns : list string := ["_unit_id"; "id"; "sentence"; "frame"].

Definition has_checked_columns (s : row) : Prop :=
  forall name, name ∈ checked_columns -> is_Some (s !! name).

(** The columns the loops of [process_unit] read: the first row has no
    surplus cells and numbers its [chunk_] and [fe_] columns so that both
    counts can be computed, neither count exceeds [sys.maxint], every row
    has the cells [chunk_XX] and [answer_chunk_XX] below the first count, and
    the first row has the cells [fe_XX] below the second. *)
Definition columns_ok `{Machine} (sentences : list row) : Prop :=
  exists first n m,
    sentences !! 0%nat = Some first /\
    surplus first = None /\
    column_count "chunk_" first = inr n /\
    column_count "fe_" first = inr m /\
    (N.of_nat n <= maxint)%N /\
    (N.of_nat m <= maxint)%N /\
    (forall s i, s ∈ sentences -> (i < n)%nat ->
       is_Some (s !! ("answer_chunk_" ++ fmt02 i)%string) /\
       is_Some (s !! ("chunk_" ++ fmt02 i)%string)) /\
    (forall i, (i < m)%nat -> is_Some (first !! ("fe_" ++ fmt02 i)%string)).

(** The steps of a run of [process_unit] that returns. *)
Inductive unit_run `{Machine} (unit_id : option string) (sentences : list row)
    (o : oracle) : gmap string field -> oracle -> Prop :=
| UnitRun first n m chunks items o1 fes0 o2 fes id sentence frame ks o0 :
    check_unit unit_id sentences = inr tt ->
    sentences !! 0%nat = Some first ->
    column_count "chunk_" first = inr n ->
    column_count "fe_" first = inr m ->
    collect_judgments n sentences = inr chunks ->
    iteritems chunks o0 = inr (items, o1) ->
    vote items ∅ o1 = inr (fes0, o2) ->
    foldM (fill_missing first) fes0 (seq 0 m) = inr fes ->
    first !! "id" = Some id ->
    first !! "sentence" = Some sentence ->
    first !! "frame" = Some frame ->
    keys first o = inr (ks, o0) ->
    (N.of_nat n <= maxint)%N ->
    (N.of_nat m <= maxint)%N ->
    unit_run unit_id sentences o
      {[ "id" := FStr id; "sentence" := FStr sentence;
         "frame" := FStr frame; "fes" := FFes fes ]} o2.

(** *** Notions used to state the properties of [main] *)

(** The distinct values of the column [_unit_id]. *)
Definition unit_ids (results : list row) : gset (option string) :=
  list_to_set (omap (fun r : row => r !! "_unit_id") results).

(** Results on which [process_unit] rejects no unit: every row has a unit
    id, the rows of a unit agree on [id], [sentence] and [frame], and their
    columns are in order. *)
Definition crowd_results `{Machine} (results : list row) : Prop :=
  Forall (fun r : row => is_Some (r !! "_unit_id")) results /\
  forall k, k ∈ unit_ids results ->
    (exists v, agree_on "id" v (unit_rows k results)) /\
    (exists v, agree_on "sentence" v (unit_rows k results)) /\
    (exists v, agree_on "frame" v (unit_rows k results)) /\
    columns_ok (unit_rows k results).

(** The unit of a group of the results: a dictionary with the four keys,
    returned by [process_unit] on the rows of the unit, whose [id],
    [sentence] and [frame] are those of the rows. *)
Definition unit_of `{Machine} (results : list row) (k : option string)
    (unit : gmap string field) : Prop :=
  dom unit = ({["id"; "sentence"; "frame"; "fes"]} : gset string) /\
  (exists o o', process_unit k (unit_rows k results) o = inr (unit, o')) /\
  forall name, name ∈ ["id"; "sentence"; "frame"] ->
    exists v, unit !! name = Some (FStr v) /\ agree_on name v (unit_rows k results).

Section Lines.

Context `{Machine}.
Variable json_dumps : gmap string field -> result string.

(** The lines [main] writes for a list of units, and the exception of
    [json.dumps] that ends its loop if there is one. *)
Fixpoint dump_units (units : list (gmap string field)) : output :=
  match units with
  | [] => ([], None)
  | unit :: rest =>
      match json_dumps unit with
      | inl e => ([], Some e)
      | inr line =>
          let '(out, status) := dump_units rest in
          (line :: out, status)
      end
  end.

(** A line of the output is the line of a unit: what [json.dumps] returns
    for the unit of a group. *)
Definition line_of (results : list row) (k : option string) (line : string) : Prop :=
  exists unit, unit_of results k unit /\ json_dumps unit = inr line.

End Lines.

(** *** Notions used to state when the vote has one outcome *)

(** No frame element has more votes among the judgments. *)
Definition top_voted (fe : string) (judgments : list string) : Prop :=
  fe ∈ judgments /\ forall fe', (votes fe' judgments <= votes fe judgments)%nat.

(** No chunk has two top-voted frame elements (no tie), and no frame element
    is top-voted for two chunks (no collision). *)
Definition unambiguous (chunks : gmap string (list string)) : Prop :=
  (forall chunk judgments fe1 fe2,
     chunks !! chunk = Some judgments ->
     top_voted fe1 judgments -> top_voted fe2 judgments -> fe1 = fe2) /\
  (forall c1 c2 j1 j2 fe,
     chunks !! c1 = Some j1 -> chunks !! c2 = Some j2 ->
     top_voted fe j1 -> top_voted fe j2 -> c1 = c2).

(** What a returning run leaves in [fes], in terms of its elections: a frame
    element is bound to the chunk of the last election that chose it, and a
    frame element that no chunk elected is a key, bound to [None], exactly
    when it is listed in the first row. *)
Definition fes_of_elections (first : row) (m : nat) (chunks : gmap string (list string))
    (els : list (string * string)) (fes : gmap string (option string)) : Prop :=
  NoDup els.*1 /\
  (forall chunk, chunk ∈ els.*1 <-> is_Some (chunks !! chunk)) /\
  (forall chunk fe, (chunk, fe) ∈ els ->
     exists judgments, chunks !! chunk = Some judgments /\ top_voted fe judgments) /\
  (forall fe el, last_election els fe = Some el -> fes !! fe = Some (Some el.1)) /\
  (forall fe, last_election els fe = None -> listed first (seq 0 m) fe ->
     fes !! fe = Some None) /\
  (forall fe, is_Some (fes !! fe) -> last_election els fe = None ->
     listed first (seq 0 m) fe /\ fes !! fe = Some None).

End ParseResults.

(** ** [strephit/commons/pos_tag.py] *)

Module PosTag.
Import Py.
Local Open Scope py_scope.

(** What [treetaggerwrapper.make_tags] returns for a line of tagger output. *)
Inductive tag :=
| Tag (word pos lemma : string)
| NotTag (what : string).

#[global] Instance tag_eq_dec : EqDecision tag.
Proof. solve_decision. Defined.

(** The value of a field of a scraped item: [None], a text, or a list of tags.
    Each item of the input is a dictionary object of its own, as
    [load_scraped_items] produces them, so an item is modelled by its value. *)
Inductive value :=
| VNone
| VStr (s : string)
| VTags (ts : list tag).

#[global] Instance value_eq_dec : EqDecision value.
Proof. solve_decision. Defined.

Abbreviation item := (gmap string value).

(** Truth value of [item.get(key)]. *)
Definition truthy_value (v : option value) : bool :=
  match v with
  | Some (VStr (String _ _)) => true
  | Some (VTags (_ :: _)) => true
  | _ => false
  end.

(** [_postprocess_tags]: the test is
    [skip_unknown and isinstance(tag, NotTag) or tag.lemma == u'<unknown>'],
    and a [NotTag] has no attribute [lemma]. *)
Definition skipped (skip_unknown : bool) (t : tag) : result bool :=
  match t with
  | NotTag _ => if skip_unknown then ret true else raise AttributeError
  | Tag _ _ lemma => ret (String.eqb lemma "<unknown>")
  end.

Fixpoint postprocess_tags (tags : list tag) (skip_unknown : bool) : result (list tag) :=
  match tags with
  | [] => ret []
  | t :: rest =>
      do skip <- skipped skip_unknown t;
      do clean <- postprocess_tags rest skip_unknown;
      ret (if skip then clean else t :: clean)
  end.

(** A job of the process pool: its number and the text it was given. *)
Record job := Job { job_id : nat; job_text : value }.

(** What a run of [tag_many] does, in order. *)
Inductive event :=
| StartPoll                               (* TaggerProcessPoll(...) *)
| Submit (id : nat) (text : value)        (* tt_pool.tag_text_async(text) *)
| Wait (id : nat)                         (* job.wait_finished() *)
| Yield (it : item)                       (* yield item *)
| StopPoll.                               (* tt_pool.stop_poll() *)

#[global] Instance event_eq_dec : EqDecision event.
Proof. solve_decision. Defined.

(** A generator run to its end: its events, and the exception that ended it
    if one did. *)
Definition gen : Type := list event * option exn.

Definition emit (e : event) : gen := ([e], None).
Definition gen_raise (e : exn) : gen := ([], Some e).
Definition gen_then (a b : gen) : gen :=
  match a with
  | (ea, Some e) => (ea, Some e)
  | (ea, None) => (ea ++ fst b, snd b)
  end.

(** The items a run yields, in order. *)
Definition yields (evs : list event) : list item :=
  omap (fun e => match e with Yield it => Some it | _ => None end) evs.

(** A positional argument of a call. *)
Inductive pyarg :=
| ACorpus (items : list item)
| AStr (s : string)
| AInt (z : Z)
| ANone.

(** The parameters of a method after [self]: their names, and the default
    values of the last ones. *)
Record signature := Signature { positional : list string; defaults : list pyarg }.

(** Binding of the positional arguments of a call: too many or too few is a
    [TypeError], raised by the call itself. *)
Definition bind_positional (sg : signature) (args : list pyarg)
  : result (list (string * pyarg)) :=
  let n := length (positional sg) in
  let required := (n - length (defaults sg))%nat in
  if decide (n < length args)%nat then raise TypeError
  else if decide (length args < required)%nat then raise TypeError
  else ret (zip (positional sg)
                (args ++ drop (length args - required) (defaults sg))).

(** [def tag_many(self, documents, tagset=None, **kwargs)] *)
Definition nltk_tag_many_sig : signature :=
  Signature ["documents"; "tagset"] [ANone].

(** [def tag_many(self, items, document_key, pos_tag_key, batch_size=10000, **kwargs)] *)
Definition tt_tag_many_sig : signature :=
  Signature ["items"; "document_key"; "pos_tag_key"; "batch_size"] [AInt 10000].

(** The two tagger classes; [main] picks one from the [--tagger] option. *)
Inductive tagger_option := tagger_tt | tagger_nltk.

Inductive pos_tagger :=
| TTPosTagger (language : string) (tt_home : option string)
| NLTKPosTagger (language : string).

(** What [main] writes on a line of the output. *)
Inductive line :=
| LItem (it : item)
| LSentence (tagged : list (string * string)).

(** The tags that [_postprocess_tags] drops when [skip_unknown] is true. *)
Definition unknown (t : tag) : bool :=
  match t with
  | NotTag _ => true
  | Tag _ _ lemma => String.eqb lemma "<unknown>"
  end.

(** An item is tagged when [item.get(document_key)] is true. *)
Definition eligible (document_key : string) (it : item) : bool :=
  truthy_value (it !! document_key).

(** A line of tagger output that is not a tag. *)
Definition is_not_tag (t : tag) : bool :=
  match t with
  | NotTag _ => true
  | Tag _ _ _ => false
  end.

(** The numbers of the jobs submitted, and of the jobs awaited, in order. *)
Definition submits (evs : list event) : list nat :=
  omap (fun e => match e with Submit id _ => Some id | _ => None end) evs.

Definition waits (evs : list event) : list nat :=
  omap (fun e => match e with Wait id => Some id | _ => None end) evs.

(** The positions, counted from [i], of the eligible items. *)
Fixpoint eligible_indices (document_key : string) (i : nat) (items : list item)
  : list nat :=
  match items with
  | [] => []
  | it :: rest =>
      if eligible document_key it
      then i :: eligible_indices document_key (S i) rest
      else eligible_indices document_key (S i) rest
  end.

Section Taggers.

(** TreeTagger behind the process pool: the tags [make_tags(job.result)] of
    the job that was given a text. *)
Variable tree_tagger : value -> list tag.

(** NLTK: [word_tokenize] applied to an element of [documents], and
    [pos_tag_sents]. *)
Variable word_tokenize : item -> result (list string).
Variable pos_tag_sents :
  list (list string) -> pyarg -> result (list (list (string * string))).

(** The item as it is yielded: the cleaned tags of its text stored under
    [pos_tag_key]. *)
Definition tagged (document_key pos_tag_key : string) (it : item) : item :=
  <[pos_tag_key :=
      VTags (List.filter (fun t => negb (unknown t))
               (tree_tagger (default VNone (it !! document_key))))]> it.

(** What a job leaves in its item. *)
Definition finished (pos_tag_key : string) (j : item * job) : item :=
  <[pos_tag_key :=
      VTags (List.filter (fun t => negb (unknown t)) (tree_tagger (job_text j.2)))]> j.1.

(** [_finalize_batch] *)
Fixpoint finalize_batch (jobs : list (item * job)) (pos_tag_key : string) : gen :=
  match jobs with
  | [] => ([], None)
  | (it, j) :: rest =>
      gen_then (emit (Wait (job_id j)))
        match postprocess_tags (tree_tagger (job_text j)) true with
        | inl e => gen_raise e
        | inr tags =>
            gen_then (emit (Yield (<[pos_tag_key := VTags tags]> it)))
                     (finalize_batch rest pos_tag_key)
        end
  end.

(** The [for i, item in enumerate(items)] loop of [TTPosTagger.tag_many],
    followed by the last [_finalize_batch]. *)
Fixpoint tag_loop (document_key pos_tag_key : string) (batch_size : Z)
    (i : nat) (items : list item) (jobs : list (item * job)) : gen :=
  match items with
  | [] => finalize_batch jobs pos_tag_key
  | it :: rest =>
      if negb (truthy_value (it !! document_key))
      then tag_loop document_key pos_tag_key batch_size (S i) rest jobs
      else
        match it !! document_key with
        | None => gen_raise (KeyError document_key)
        | Some text =>
            let jobs' := jobs ++ [(it, Job i text)] in
            gen_then (emit (Submit i text))
              (if (batch_size =? 0)%Z then gen_raise ZeroDivisionError
               else if (Z.of_nat i mod batch_size =? 0)%Z
               then gen_then (finalize_batch jobs' pos_tag_key)
                      (tag_loop document_key pos_tag_key batch_size (S i) rest [])
               else tag_loop document_key pos_tag_key batch_size (S i) rest jobs')
        end
  end.

(** [TTPosTagger.tag_many]: the pool is created, the loop runs inside
    [try], and [finally] stops the pool whether or not the loop raised. *)
Definition tt_tag_many (items : list item) (document_key pos_tag_key : string)
    (batch_size : Z) : gen :=
  let '(evs, status) :=
    gen_then (emit StartPoll) (tag_loop document_key pos_tag_key batch_size 0 items []) in
  (evs ++ [StopPoll], status).

(** A run in which every job is awaited as soon as it is submitted. *)
Fixpoint sequential (document_key pos_tag_key : string) (i : nat) (items : list item)
  : list event :=
  match items with
  | [] => []
  | it :: rest =>
      if eligible document_key it
      then [Submit i (default VNone (it !! document_key)); Wait i;
            Yield (tagged document_key pos_tag_key it)]
           ++ sequential document_key pos_tag_key (S i) rest
      else sequential document_key pos_tag_key (S i) rest
  end.

(** The tokenizer of the tagger: [Tokenizer(language).tokenize]. *)
Variable tokenize : string -> list string.

(** [_tokenizer_wrapper]:
[[
tokens = []
for text in text_list:
    for token in self.tokenizer.tokenize(text):
        tokens.append(token)
return tokens
]] *)
Definition tokenizer_wrapper (text_list : list string) : list string :=
  fold_left (fun tokens text =>
               fold_left (fun tokens token => tokens ++ [token]) (tokenize text) tokens)
            text_list [].

(** [NLTKPosTagger.tag_many]:
    [pos_tag_sents((word_tokenize(d) for d in documents), tagset)] *)
Definition nltk_tag_many (documents : list item) (tagset : pyarg)
  : result (list (list (string * string))) :=
  do sents <- mapM word_tokenize documents;
  pos_tag_sents sents tagset.

(** The argument bound to a parameter. *)
Definition bound (name : string) (env : list (string * pyarg)) : result pyarg :=
  match List.find (fun p => String.eqb p.1 name) env with
  | Some p => ret p.2
  | None => raise TypeError
  end.

(** a call of [pos_tagger.tag_many] with positional arguments: the lines the returned iterable gives when
    it is consumed to its end, and the exception that ended it if one did. *)
Definition call_tag_many (t : pos_tagger) (args : list pyarg) : list line * option exn :=
  match t with
  | TTPosTagger _ _ =>
      match bind_positional tt_tag_many_sig args with
      | inl e => ([], Some e)
      | inr env =>
          match bound "items" env, bound "document_key" env,
                bound "pos_tag_key" env, bound "batch_size" env with
          | inr (ACorpus items), inr (AStr dk), inr (AStr ptk), inr (AInt bs) =>
              let '(evs, status) := tt_tag_many items dk ptk bs in
              (map LItem (yields evs), status)
          | _, _, _, _ => ([], Some TypeError)
          end
      end
  | NLTKPosTagger _ =>
      match bind_positional nltk_tag_many_sig args with
      | inl e => ([], Some e)
      | inr env =>
          match bound "documents" env, bound "tagset" env with
          | inr (ACorpus documents), inr tagset =>
              match nltk_tag_many documents tagset with
              | inl e => ([], Some e)
              | inr sents => (map LSentence sents, None)
              end
          | _, _ => ([], Some TypeError)
          end
      end
  end.

(** [main]: the lines written to [outfile], then the exception raised or the
    value returned.  [corpus] is what [load_scraped_items] gives. *)
Definition main (corpus : list item) (document_key pos_tag_key language_code : string)
    (tagger : tagger_option) (tt_home : option string) (batch_size : Z)
  : list line * result Z :=
  let pos_tagger := match tagger with
                    | tagger_tt => TTPosTagger language_code tt_home
                    | tagger_nltk => NLTKPosTagger language_code
                    end in
  let '(written, status) :=
    call_tag_many pos_tagger
      [ACorpus corpus; AStr document_key; AStr pos_tag_key; AInt batch_size] in
  match status with
  | Some e => (written, raise e)
  | None => (written, ret 0%Z)
  end.

End Taggers.

End PosTag.

(** ** [strephit/classification/train.py] *)

Module Train.
Import Py.
Local Open Scope py_scope.

(** What [json.loads] returns. *)
Inductive json :=
| JNull
| JBool (b : bool)
| JNum (n : Z)
| JStr (s : string)
| JArr (elems : list json)
| JObj (members : list (string * json)).

(** [data[key]]: a [KeyError] when a dictionary lacks the key, a [TypeError]
    when [data] is not a dictionary. *)
Fixpoint assoc (key : string) (members : list (string * json)) : option json :=
  match members with
  | [] => None
  | (k, v) :: rest => if String.eqb k key then Some v else assoc key rest
  end.

Definition json_getitem (data : json) (key : string) : result json :=
  match data with
  | JObj members =>
      match assoc key members with
      | Some v => ret v
      | None => raise (KeyError key)
      end
  | _ => raise TypeError
  end.

Section Training.

(** Numbers given on the command line ([-c], [--tol]) are passed on as they
    are; their type is left open. *)
Variable float : Type.

(** The value of a command-line option. *)
Inductive optval :=
| OFloat (x : float)
| OInt (n : Z)
| OStr (s : string)
| OBool (b : bool)
| ONone.

(** Third-party and sibling code that [main] calls: the JSON parser, the
    gazetteer inversion, the feature extractor, the classifier and [joblib].
    The extractor is code of the repository that is not among the three
    modules: its constructor and [process_sentence] are taken as functions
    on the state of the extractor.  [get_features] stands for
    [x, y = extractor.get_features()] with the read of [x.shape] that
    follows it.  The calls made once the training set is read can raise:
    scikit-learn rejects some combinations of [loss], [penalty] and [dual]
    with a [ValueError] in [fit]. *)
Variable json_loads : string -> result json.
Variables gazetteer extractor features classifier : Type.
Variable reverse_gazetteer : json -> gazetteer.
Variable empty_gazetteer : gazetteer.
Variable FactExtractorFeatureExtractor : string -> extractor.
Variable process_sentence : extractor -> json -> json -> bool -> gazetteer -> extractor.
Variable get_features : extractor -> result features.
Variable LinearSVC : gmap string optval -> result classifier.
Variable fit : classifier -> features -> result classifier.
Variable joblib_dump : classifier * extractor -> string -> result unit.

(** The calls [main] makes on the extractor, the classifier and [joblib]. *)
Inductive event :=
| ProcessSentence (sentence fes : json) (add_unknown : bool)
| GetFeatures
| NewLinearSVC (kwargs : gmap string optval)
| Fit
| Dump (outfile : string).

(** The options [click] passes in [**kwargs]: every declared option that is
    not a named parameter of [main], under its name. *)
Record options := Options {
  opt_c : float;
  opt_loss : string;
  opt_penalty : string;
  opt_dual : bool;
  opt_tol : float;
  opt_multi_class : string;
  opt_verbose : bool;
  opt_random_state : option Z;
  opt_max_iter : Z
}.

Definition kwargs_of (o : options) : gmap string optval :=
  {[ "c" := OFloat (opt_c o);
     "loss" := OStr (opt_loss o);
     "penalty" := OStr (opt_penalty o);
     "dual" := OBool (opt_dual o);
     "tol" := OFloat (opt_tol o);
     "multi_class" := OStr (opt_multi_class o);
     "verbose" := OBool (opt_verbose o);
     "random_state" := match opt_random_state o with
                       | Some n => OInt n
                       | None => ONone
                       end;
     "max_iter" := OInt (opt_max_iter o) ]}.

(** [kwargs.pop(key)] *)
Definition pop (key : string) (kwargs : gmap string optval)
  : result (optval * gmap string optval) :=
  match kwargs !! key with
  | Some v => ret (v, delete key kwargs)
  | None => raise (KeyError key)
  end.

(** The state of a run: the extractor and the calls made so far. *)
Record state := State { the_extractor : extractor; log : list event }.

(** The body of the loop over the lines of the training set. *)
Definition train_row (gaz : gazetteer) (st : state) (row : string) : result state :=
  do data <- json_loads row;
  do sentence <- json_getitem data "sentence";
  do fes <- json_getitem data "fes";
  ret (State (process_sentence (the_extractor st) sentence fes true gaz)
             (log st ++ [ProcessSentence sentence fes true])).

(** The loop, keeping the state reached when a line raises. *)
Fixpoint train_rows (gaz : gazetteer) (st : state) (rows : list string)
  : state * option exn :=
  match rows with
  | [] => (st, None)
  | row :: rest =>
      match train_row gaz st row with
      | inl e => (st, Some e)
      | inr st' => train_rows gaz st' rest
      end
  end.

(** [reverse_gazetteer(json.load(gazetteer)) if gazetteer else {}] *)
Definition load_gazetteer (gazetteer_file : option string) : result gazetteer :=
  match gazetteer_file with
  | Some text => do j <- json_loads text; ret (reverse_gazetteer j)
  | None => ret empty_gazetteer
  end.

(** What follows the construction of the classifier:
[[
svc.fit(x, y)
joblib.dump((svc, extractor), outfile)
]]
    The result is the pair that was dumped. *)
Definition fit_and_dump (svc : classifier) (xy : features) (ext : extractor)
    (outfile : string) : list event * result (classifier * extractor) :=
  match fit svc xy with
  | inl e => ([Fit], raise e)
  | inr svc' =>
      match joblib_dump (svc', ext) outfile with
      | inl e => ([Fit; Dump outfile], raise e)
      | inr _ => ([Fit; Dump outfile], ret (svc', ext))
      end
  end.

(** [main], called by [click] with the options in [kwargs]: the calls it
    made, then the exception raised or the pair it dumped.  A call is
    recorded when it is made, whether or not it returns. *)
Definition main_with (training_set : list string) (language outfile : string)
    (gazetteer_file : option string) (kwargs : gmap string optval)
  : list event * result (classifier * extractor) :=
  match load_gazetteer gazetteer_file with
  | inl e => ([], raise e)
  | inr gaz =>
      let st0 := State (FactExtractorFeatureExtractor language) [] in
      match train_rows gaz st0 training_set with
      | (st, Some e) => (log st, raise e)
      | (st, None) =>
          let log1 := log st ++ [GetFeatures] in
          match get_features (the_extractor st) with
          | inl e => (log1, raise e)
          | inr xy =>
              match pop "c" kwargs with
              | inl e => (log1, raise e)
              | inr (c, kwargs') =>
                  let kwargs'' := <["C" := c]> kwargs' in
                  let log2 := log1 ++ [NewLinearSVC kwargs''] in
                  match LinearSVC kwargs'' with
                  | inl e => (log2, raise e)
                  | inr svc =>
                      let '(evs, res) :=
                        fit_and_dump svc xy (the_extractor st) outfile in
                      (log2 ++ evs, res)
                  end
              end
          end
      end
  end.

Definition main (training_set : list string) (language outfile : string)
    (gazetteer_file : option string) (o : options)
  : list event * result (classifier * extractor) :=
  main_with training_set language outfile gazetteer_file (kwargs_of o).

(** *** Notions used to state the properties of [main] *)

(** A line of the training set parses to an object with a [sentence] and
    its [fes]. *)
Definition parsed (row : string) (sf : json * json) : Prop :=
  exists members,
    json_loads row = inr (JObj members) /\
    assoc "sentence" members = Some sf.1 /\
    assoc "fes" members = Some sf.2.

(** The extractor after it was fed sentences, in order. *)
Definition feed (gaz : gazetteer) (ext : extractor) (data : list (json * json))
  : extractor :=
  fold_left (fun e sf => process_sentence e sf.1 sf.2 true gaz) data ext.

(** The event of feeding a sentence. *)
Definition fed_event (sf : json * json) : event :=
  ProcessSentence sf.1 sf.2 true.

(** The keyword arguments [main] gives to [LinearSVC]. *)
Definition classifier_kwargs (o : options) : gmap string optval :=
  <["C" := OFloat (opt_c o)]> (delete "c" (kwargs_of o)).

End Training.

End Train.

(** ** Sample inputs *)

Module Samples.
Import Py ParseResults.

(** A 64-bit Unix: a C [long] has 64 bits. *)
Definition linux64 : Machine := {| maxint := 9223372036854775807 |}.

(** A judgment of unit 7 on the sentence with the chunks [A] and [b]. *)
Definition judgment_1 : row :=
  Row {[ "_unit_id" := Some "7"; "id" := Some "s1";
         "sentence" := Some "A b c"; "frame" := Some "F";
         "chunk_00" := Some "A"; "chunk_01" := Some "b";
         "answer_chunk_00" := Some "Agent"; "answer_chunk_01" := Some "Theme";
         "fe_00" := Some "Agent"; "fe_01" := Some "Theme"; "fe_02" := Some "Place" ]}
      None.

(** Another worker answers [Agent] for the second chunk too. *)
Definition judgment_2 : row := <["answer_chunk_01" := Some "Agent"]> judgment_1.

(** Three judgments of unit 7: [Agent] wins for both chunks. *)
Definition unit_7 : list row := [judgment_1; judgment_2; judgment_2].

(** A judgment of another unit. *)
Definition judgment_8 : row := <["_unit_id" := Some "8"]> judgment_1.

(** A row with the four checked columns and nothing else. *)
Definition bare_row : row :=
  Row {[ "_unit_id" := Some "7"; "id" := Some "s1";
         "sentence" := Some "A b c"; "frame" := Some "F" ]}
      None.

(** The line of [judgment_1] with one cell more than the header has
    columns. *)
Definition overlong : row := Row (cells judgment_1) (Some ["x"]).

(** The same line with a column [chunk_1x], whose number does not parse. *)
Definition overlong_unparsed : row :=
  Row (<["chunk_1x" := Some "z"]> (cells judgment_1)) (Some ["x"]).

(** A judgment with a column whose number is [sys.maxint] on a 64-bit Unix. *)
Definition far_column : row :=
  <["chunk_9223372036854775807" := Some "z"]> judgment_1.


(** A judgment on three chunks, all answered [Agent]. *)
Definition judgment_4 : row :=
  <["chunk_02" := Some "c"]> (<["answer_chunk_02" := Some "Agent"]> judgment_2).

(** A judgment whose sentence holds the byte 233, the Latin-1 code of an
    accented letter: alone it is not UTF-8. *)
Definition latin_1 : row :=
  <["sentence" := Some (String "233"%char "")]> judgment_1.

(** A stand-in for [json.dumps]: it renders ASCII text between quotes, with
    a backslash before a quote or a backslash, [None] as [null] and a
    dictionary between braces, and raises [UnicodeDecodeError] on a string
    with any other byte.  (The samples hold no control character, which
    [json.dumps] would escape.) *)
Definition is_ascii (s : string) : bool :=
  forallb (fun c => (nat_of_ascii c <? 128)%nat) (list_ascii_of_string s).

Fixpoint escape (s : string) : string :=
  match s with
  | EmptyString => EmptyString
  | String c s' =>
      if Ascii.eqb c "034"%char || Ascii.eqb c "092"%char
      then String "092"%char (String c (escape s'))
      else String c (escape s')
  end.

Definition dump_str (s : string) : result string :=
  if is_ascii s
  then ret (String "034"%char (escape s) ++ String "034"%char "")%string
  else raise UnicodeDecodeError.

Definition dump_cell (v : option string) : result string :=
  match v with
  | Some s => dump_str s
  | None => ret "null"
  end.

Definition dump_members {V} (dump_value : V -> result string)
    (members : list (string * V)) : result string :=
  match mapM (fun kv : string * V =>
                match dump_str kv.1, dump_value kv.2 with
                | inr k, inr v => ret (k ++ ": " ++ v)%string
                | inl e, _ | _, inl e => raise e
                end) members with
  | inl e => raise e
  | inr parts => ret ("{" ++ String.concat ", " parts ++ "}")%string
  end.

Definition sample_dumps (unit : gmap string field) : result string :=
  dump_members (fun f => match f with
                         | FStr v => dump_cell v
                         | FFes fes => dump_members dump_cell (map_to_list fes)
                         end)
               (map_to_list unit).

(** A results file with two units, the judgments interleaved. *)
Definition two_units : list row := [judgment_1; judgment_8; judgment_2; judgment_2].

(** A results file in which two rows of unit 7 give different sentences. *)
Definition disagreeing : list row :=
  [judgment_1; <["sentence" := Some "A b d"]> judgment_1].

(** A judgment whose columns are numbered 00 and 02: there is no [chunk_01]
    and no [answer_chunk_01]. *)
Definition gapped : row :=
  <["chunk_02" := Some "c"]>
    (<["answer_chunk_02" := Some "Theme"]>
       (delete "answer_chunk_01" (delete "chunk_01" judgment_1))).

(** A judgment of unit 7 by a worker who answers [Theme] for the first chunk
    and nothing for the second: with [judgment_1] the first chunk is tied. *)
Definition judgment_3 : row :=
  <["answer_chunk_00" := Some "Theme"]>
    (<["answer_chunk_01" := Some ""]> judgment_1).

(** An oracle that reorders the dictionaries and draws other numbers. *)
Definition shuffled : oracle := Oracle [[1; 0]; [3]; [2; 5]] [3; 7; 1].

(** The oracle that changes no order and always draws 0. *)
Definition plain : oracle := Oracle [] [].


(** A tagger that gives every text one good tag, one line that is not a tag
    and one unknown lemma. *)
Definition sample_tagger (v : PosTag.value) : list PosTag.tag :=
  match v with
  | PosTag.VStr s =>
      [PosTag.Tag s "NN" s; PosTag.NotTag "<s>"; PosTag.Tag "x" "NN" "<unknown>"]
  | _ => []
  end.

(** A scraped item with a text and a URL. *)
Definition scraped (text : string) : PosTag.item :=
  {[ "text" := PosTag.VStr text; "url" := PosTag.VStr "http://example.org" ]}.

(** The same item once tagged by [sample_tagger] under the key [tagged]. *)
Definition scraped_tagged (text : string) : PosTag.item :=
  <["tagged" := PosTag.VTags [PosTag.Tag text "NN" text]]> (scraped text).


(** Two lines of a training set, as a parser sees them; any other line is
    not JSON. *)
Definition sample_loads (line : string) : result Train.json :=
  if String.eqb line "line 1" then
    ret (Train.JObj [("id", Train.JStr "s1");
                     ("sentence", Train.JStr "A b c");
                     ("fes", Train.JObj [("Agent", Train.JStr "b")])])
  else if String.eqb line "line 2" then
    ret (Train.JObj [("sentence", Train.JStr "D e");
                     ("fes", Train.JObj [("Theme", Train.JNull)])])
  else raise ValueError.

(** Command-line options, with numbers in thousandths: [-c 0.5] and the
    defaults of the others. *)
Definition sample_options : Train.options Z :=
  Train.Options Z 500%Z "squared_hinge" "l2" false 0%Z "ovr" false None 1000%Z.

(** The same with [--loss hinge]. *)
Definition hinge_options : Train.options Z :=
  Train.Options Z 500%Z "hinge" "l2" false 0%Z "ovr" false None 1000%Z.

(** A stand-in for [fit] on a classifier that keeps its keyword arguments:
    the combination of the loss [hinge] and the penalty [l2] is not
    supported when [dual] is false. *)
Definition sample_fit (svc : gmap string (Train.optval Z) * option nat) (xy : nat)
  : result (gmap string (Train.optval Z) * option nat) :=
  match svc.1 !! "loss", svc.1 !! "penalty", svc.1 !! "dual" with
  | Some (Train.OStr _ "hinge"), Some (Train.OStr _ "l2"), Some (Train.OBool _ false) =>
      raise ValueError
  | _, _, _ => ret (svc.1, Some xy)
  end.

End Samples.

(** * Properties *)

(** ** Exceptions, loops and oracles *)

Section PyFacts.
Import Py.
Local Open Scope py_scope.

Lemma bind_inr {A B} (c : result A) (k : A -> result B) (b : B) :
  bind c k = inr b <-> exists a, c = inr a /\ k a = inr b.
Proof.
  destruct c as [e|a]; simpl; split.
  - discriminate.
  - intros (a & Ha & _). discriminate.
  - eauto.
  - intros (a' & Ha & Hk). by inversion Ha.
Qed.

Lemma mbind_inr {A B} (c : M A) (k : A -> M B) (o o' : oracle) (b : B) :
  mbind c k o = inr (b, o') <-> exists a o1, c o = inr (a, o1) /\ k a o1 = inr (b, o').
Proof.
  unfold mbind. destruct (c o) as [e|[a o1]]; split.
  - discriminate.
  - intros (a & o1 & Ha & _). discriminate.
  - eauto.
  - intros (a' & o1' & Ha & Hk). by inversion Ha.
Qed.

Lemma lift_inr {A} (c : result A) (o o' : oracle) (a : A) :
  lift c o = inr (a, o') <-> c = inr a /\ o' = o.
Proof.
  unfold lift. destruct c as [e|a']; simpl; split.
  - discriminate.
  - intros [? _]. discriminate.
  - intros H. by inversion H.
  - intros [H ->]. by inversion H.
Qed.

Lemma py_assert_inr (b : bool) (u : unit) : py_assert b = inr u <-> b = true.
Proof. destruct b, u; simpl; split; (done || discriminate). Qed.

Lemma getitem_inr {D V} `{HL : Lookup string V D} (d : D) (k : string) (v : V) :
  getitem d k = inr v <-> d !! k = Some v.
Proof.
  unfold getitem. destruct (d !! k); simpl; unfold ret, raise; split; intros H;
    by inversion H.
Qed.

Lemma index_inr {A} (xs : list A) (i : nat) (x : A) :
  index xs i = inr x <-> xs !! i = Some x.
Proof.
  unfold index. destruct (xs !! i); simpl; unfold ret, raise; split; intros H;
    by inversion H.
Qed.

Lemma mapM_inr {A B} (f : A -> result B) (xs : list A) (ys : list B) :
  mapM f xs = inr ys <-> Forall2 (fun x y => f x = inr y) xs ys.
Proof.
  revert ys. induction xs as [|x xs IH]; intros ys; simpl.
  - split.
    + intros H. inversion H. constructor.
    + intros H. by inversion H.
  - rewrite bind_inr. split.
    + intros (y & Hy & H). apply bind_inr in H as (ys' & Hys & H).
      inversion H; subst. constructor; [done | by apply IH].
    + intros H. inversion H as [|? y ? ys' Hy Hys]; subst.
      exists y. split; [done|]. apply bind_inr. exists ys'.
      split; [by apply IH | done].
Qed.

(** A loop whose body never raises on the elements it meets does not raise,
    and an invariant of the body is an invariant of the loop. *)
Lemma foldM_inv {A S} (f : S -> A -> result S) (I : S -> Prop) (xs : list A) (s : S) :
  I s ->
  (forall s x, x ∈ xs -> I s -> exists s', f s x = inr s' /\ I s') ->
  exists s', foldM f s xs = inr s' /\ I s'.
Proof.
  revert s. induction xs as [|x xs IH]; intros s Hs Hf; simpl.
  - eauto.
  - destruct (Hf s x) as (s1 & Hs1 & HI1); [left | done |].
    rewrite Hs1. simpl. apply IH; [done|].
    intros s2 y Hy. apply Hf. by right.
Qed.

Lemma foldM_inr_inv {A S} (f : S -> A -> result S) (I : S -> Prop) (xs : list A) (s s' : S) :
  foldM f s xs = inr s' ->
  I s ->
  (forall s x s', x ∈ xs -> I s -> f s x = inr s' -> I s') ->
  I s'.
Proof.
  revert s. induction xs as [|x xs IH]; intros s Hfold Hs Hf; simpl in Hfold.
  - inversion Hfold. by subst.
  - apply bind_inr in Hfold as (s1 & Hs1 & Hfold).
    apply (IH s1); [done | |].
    + eapply Hf; [left | done | done].
    + intros s2 y s3 Hy. apply Hf. by right.
Qed.

Lemma py_max_inr (xs : list nat) (m : nat) :
  py_max xs = inr m -> m ∈ xs /\ forall x, x ∈ xs -> (x <= m)%nat.
Proof.
  destruct xs as [|x xs]; simpl; [discriminate|].
  intros H. inversion H as [Hm]. clear H Hm.
  induction xs as [|y xs [IH1 IH2]]; simpl.
  - split; [left|]. intros z Hz. apply list_elem_of_singleton in Hz. lia.
  - split.
    + destruct (Nat.max_spec y (foldr Nat.max x xs)) as [[_ ->]|[_ ->]].
      * apply elem_of_cons in IH1 as [->|IH1]; [left | right; by right].
      * right. left.
    + intros z Hz.
      assert (z = y \/ z ∈ x :: xs) as [->|Hz'].
      { apply elem_of_cons in Hz as [->|Hz]; [right; left|].
        apply elem_of_cons in Hz as [->|Hz]; [by left | right; by right]. }
      * lia.
      * specialize (IH2 z Hz'). lia.
Qed.

Lemma py_max_ok (xs : list nat) : xs <> [] -> exists m, py_max xs = inr m.
Proof. destruct xs; [done | simpl; eauto]. Qed.

(** Every code permutes, and every permutation has a code: the oracle
    neither adds an iteration order nor leaves one out. *)
Lemma permute_Permutation {A} (code : list nat) (l : list A) : permute code l ≡ₚ l.
Proof.
  revert l. induction code as [|c code IH]; intros l; simpl; [done|].
  destruct (l !! (c mod length l)%nat) as [x|] eqn:Hx; [|done].
  rewrite IH. symmetry. by apply delete_Permutation.
Qed.

Lemma permute_complete {A} (l l' : list A) :
  l ≡ₚ l' -> exists code, permute code l = l'.
Proof.
  revert l. induction l' as [|x l' IH]; intros l Hp.
  - apply Permutation_nil_r in Hp as ->. by exists [].
  - assert (x ∈ l) as Hx by (rewrite Hp; left).
    apply list_elem_of_lookup in Hx as [i Hi].
    destruct (IH (delete i l)) as [code Hcode].
    { apply (Permutation_cons_inv (a := x)).
      rewrite <- Hp. symmetry. by apply delete_Permutation. }
    exists (i :: code). simpl.
    rewrite Nat.mod_small by (by apply lookup_lt_Some in Hi).
    by rewrite Hi, Hcode.
Qed.

Lemma iteritems_inr {K V} `{Countable K} (d : gmap K V) (o o' : oracle)
    (items : list (K * V)) :
  iteritems d o = inr (items, o') -> items ≡ₚ map_to_list d.
Proof.
  unfold iteritems, dict_order.
  destruct (orders o) as [|code rest]; intros Heq; inversion Heq.
  - done.
  - apply permute_Permutation.
Qed.

Lemma iteritems_ok {K V} `{Countable K} (d : gmap K V) (o : oracle) :
  exists items o', iteritems d o = inr (items, o').
Proof. unfold iteritems, dict_order. destruct (orders o); eauto. Qed.

Lemma dict_order_inr {A} (entries l : list A) (o o' : oracle) :
  dict_order entries o = inr (l, o') -> l ≡ₚ entries.
Proof.
  unfold dict_order. destruct (orders o) as [|code rest]; intros Heq; inversion Heq.
  - done.
  - apply permute_Permutation.
Qed.

Lemma dict_order_ok {A} (entries : list A) (o : oracle) :
  exists l o', dict_order entries o = inr (l, o').
Proof. unfold dict_order. destruct (orders o); eauto. Qed.

(** The oracle a dictionary leaves does not depend on the dictionary. *)
Lemma dict_order_oracle {A B} (l1 l1' : list A) (l2 l2' : list B) (o o1 o2 : oracle) :
  dict_order l1 o = inr (l1', o1) -> dict_order l2 o = inr (l2', o2) -> o1 = o2.
Proof.
  unfold dict_order. destruct (orders o) as [|code rest]; intros H1 H2;
    inversion H1; inversion H2; congruence.
Qed.

Lemma py_max_N_inr (xs : list N) (m : N) :
  py_max_N xs = inr m -> m ∈ xs /\ forall x, x ∈ xs -> (x <= m)%N.
Proof.
  destruct xs as [|x xs]; simpl; [discriminate|].
  intros H. inversion H as [Hm]. clear H Hm.
  induction xs as [|y xs [IH1 IH2]]; simpl.
  - split; [left|]. intros z Hz. apply list_elem_of_singleton in Hz. lia.
  - split.
    + destruct (N.max_spec y (foldr N.max x xs)) as [[_ ->]|[_ ->]].
      * apply elem_of_cons in IH1 as [->|IH1]; [left | right; by right].
      * right. left.
    + intros z Hz.
      assert (z = y \/ z ∈ x :: xs) as [->|Hz'].
      { apply elem_of_cons in Hz as [->|Hz]; [right; left|].
        apply elem_of_cons in Hz as [->|Hz]; [by left | right; by right]. }
      * lia.
      * specialize (IH2 z Hz'). lia.
Qed.

Lemma py_max_N_ok (xs : list N) : xs <> [] -> exists m, py_max_N xs = inr m.
Proof. destruct xs; [done | simpl; eauto]. Qed.

(** [max] does not depend on the order of its arguments. *)
Lemma py_max_N_Permutation (xs ys : list N) (m : N) :
  xs ≡ₚ ys -> py_max_N xs = inr m -> py_max_N ys = inr m.
Proof.
  intros Hp Hm. destruct (py_max_N_inr _ _ Hm) as [Hin Hle].
  destruct (py_max_N_ok ys) as [m' Hm'].
  { intros ->. apply Permutation_nil_r in Hp. subst. by inversion Hin. }
  destruct (py_max_N_inr _ _ Hm') as [Hin' Hle'].
  rewrite Hm'. f_equal.
  rewrite <- Hp in Hin'. rewrite Hp in Hin.
  specialize (Hle _ Hin'). specialize (Hle' _ Hin). lia.
Qed.

Section Ranges.
Context `{mach : Machine}.

Lemma xrange_inr (n : N) (idxs : list nat) :
  xrange n = inr idxs <-> (n <= maxint)%N /\ idxs = seq 0 (N.to_nat n).
Proof.
  unfold xrange. destruct (N.ltb_spec maxint n); split.
  - discriminate.
  - intros [? _]. lia.
  - intros Heq. inversion Heq. split; [lia | done].
  - intros [_ ->]. done.
Qed.

Lemma xrange_inl (n : N) (e : exn) :
  xrange n = inl e <-> (maxint < n)%N /\ e = OverflowError.
Proof.
  unfold xrange. destruct (N.ltb_spec maxint n); split.
  - intros Heq. inversion Heq. done.
  - intros [_ ->]. done.
  - discriminate.
  - intros [? _]. lia.
Qed.

Lemma xrange_of_nat (n : nat) :
  (N.of_nat n <= maxint)%N -> xrange (N.of_nat n) = inr (seq 0 n).
Proof. intros Hle. apply xrange_inr. by rewrite Nat2N.id. Qed.

End Ranges.

Lemma random_choice_inr {A} (seq : list A) (o o' : oracle) (x : A) :
  random_choice seq o = inr (x, o') -> x ∈ seq.
Proof.
  unfold random_choice. destruct (draws o) as [|r rest]; intros Heq;
    apply bind_inr in Heq as (y & Hy & Heq); inversion Heq; subst;
    apply index_inr in Hy; by eapply list_elem_of_lookup_2.
Qed.

Lemma random_choice_ok {A} (seq : list A) (o : oracle) :
  seq <> [] -> exists x o', random_choice seq o = inr (x, o').
Proof.
  intros Hne. unfold random_choice.
  assert (forall r, exists x, index seq (r mod length seq)%nat = inr x) as Hidx.
  { intros r. destruct (lookup_lt_is_Some_2 seq (r mod length seq)%nat) as [x Hx].
    - apply Nat.mod_upper_bound. by destruct seq.
    - exists x. by apply index_inr. }
  destruct (draws o) as [|r rest].
  - destruct (Hidx 0%nat) as [x Hx]. rewrite Hx. simpl. eauto.
  - destruct (Hidx r) as [x Hx]. rewrite Hx. simpl. eauto.
Qed.

End PyFacts.

(** ** The vote of [process_unit] *)

Section Vote.
Import Py ParseResults.
Local Open Scope py_scope.

Lemma count_fold_lookup (judgments : list string) (acc : gmap string nat) (x : string) :
  fold_left (fun counts each => <[each := S (default 0%nat (counts !! each))]> counts)
            judgments acc !! x
  = match votes x judgments with
    | O => acc !! x
    | S n => Some (default 0%nat (acc !! x) + S n)%nat
    end.
Proof.
  revert acc. unfold votes.
  induction judgments as [|y js IH]; intros acc; simpl; [done|].
  rewrite IH. destruct (String.string_dec y x) as [->|Hne].
  - rewrite lookup_insert_eq. simpl.
    destruct (count_occ String.string_dec js x); f_equal; lia.
  - by rewrite lookup_insert_ne.
Qed.

Lemma count_judgments_lookup (judgments : list string) (x : string) :
  count_judgments judgments !! x
  = match votes x judgments with
    | O => None
    | S n => Some (S n)
    end.
Proof.
  unfold count_judgments. rewrite count_fold_lookup, lookup_empty.
  by destruct (votes x judgments).
Qed.

Lemma votes_pos (fe : string) (judgments : list string) :
  (0 < votes fe judgments)%nat <-> fe ∈ judgments.
Proof.
  unfold votes. rewrite list_elem_of_In. symmetry. apply count_occ_In.
Qed.

Lemma elem_of_winners (most : nat) (items : list (string * nat)) (fe : string) :
  fe ∈ winners most items <-> (fe, most) ∈ items.
Proof.
  unfold winners. rewrite list_elem_of_fmap. split.
  - intros ([c j] & -> & Hin). apply list_elem_of_In, filter_In in Hin as [Hin Hj].
    simpl in *. apply Nat.eqb_eq in Hj as ->. by apply list_elem_of_In.
  - intros Hin. exists (fe, most). split; [done|].
    apply list_elem_of_In, filter_In. split; [by apply list_elem_of_In|].
    simpl. apply Nat.eqb_refl.
Qed.

(** The elected frame element has the most votes among the judgments. *)
Lemma elect_inr (judgments : list string) (o o' : oracle) (fe : string) :
  elect judgments o = inr (fe, o') ->
  fe ∈ judgments /\ forall fe', (votes fe' judgments <= votes fe judgments)%nat.
Proof.
  unfold elect. intros H.
  apply mbind_inr in H as (most & o1 & Hmost & H).
  apply lift_inr in Hmost as [Hmost ->].
  apply mbind_inr in H as (items & o2 & Hitems & H).
  apply iteritems_inr in Hitems. apply random_choice_inr in H.
  apply py_max_inr in Hmost as [_ Hmax].
  apply elem_of_winners in H. rewrite Hitems in H.
  apply elem_of_map_to_list in H. rewrite count_judgments_lookup in H.
  destruct (votes fe judgments) as [|n] eqn:Hfe; [done|].
  inversion H; subst most. split.
  - apply votes_pos. lia.
  - intros fe'. destruct (votes fe' judgments) as [|n'] eqn:Hfe'; [lia|].
    apply Hmax. apply list_elem_of_fmap. exists (fe', S n'). split; [done|].
    apply elem_of_map_to_list. by rewrite count_judgments_lookup, Hfe'.
Qed.

(** A chunk with a judgment always gets a frame element. *)
Lemma elect_ok (judgments : list string) (o : oracle) :
  judgments <> [] -> exists fe o', elect judgments o = inr (fe, o').
Proof.
  intros Hne. unfold elect.
  destruct judgments as [|y js]; [done|].
  set (counts := count_judgments (y :: js)).
  assert (exists n, counts !! y = Some n) as [n Hy].
  { unfold counts. rewrite count_judgments_lookup.
    destruct (votes y (y :: js)) eqn:Hv; [|eauto].
    assert (0 < votes y (y :: js))%nat by (apply votes_pos; left). lia. }
  destruct (py_max_ok (map snd (map_to_list counts))) as [most Hmost].
  { apply elem_of_map_to_list in Hy. intros Hnil.
    destruct (map_to_list counts); [by apply elem_of_nil in Hy | done]. }
  unfold mbind at 1. unfold lift. rewrite Hmost. simpl.
  destruct (iteritems_ok counts o) as (items & o1 & Hitems).
  unfold mbind. rewrite Hitems.
  apply random_choice_ok.
  apply py_max_inr in Hmost as [Hin _].
  apply list_elem_of_fmap in Hin as ([c j] & -> & Hin). simpl.
  apply iteritems_inr in Hitems. rewrite <- Hitems in Hin.
  apply elem_of_winners in Hin. intros Hnil. rewrite Hnil in Hin.
  by apply elem_of_nil in Hin.
Qed.

(** [vote] is [elections] followed by the stores. *)
Lemma vote_elections (items : list (string * list string))
    (fes fes' : gmap string (option string)) (o o' : oracle) :
  vote items fes o = inr (fes', o') <->
  exists els, elections items o = inr (els, o') /\ fes' = record_elections els fes.
Proof.
  revert fes o. induction items as [|[chunk js] items IH]; intros fes o; simpl.
  - unfold mret, ret. split.
    + intros H. inversion H; subst. by exists [].
    + intros (els & H & ->). by inversion H.
  - rewrite mbind_inr. split.
    + intros (fe & o1 & Hfe & H). apply IH in H as (els & Hels & ->).
      exists ((chunk, fe) :: els). split; [|done].
      apply mbind_inr. exists fe, o1. split; [done|].
      apply mbind_inr. by exists els, o'.
    + intros (els & H & ->). apply mbind_inr in H as (fe & o1 & Hfe & H).
      apply mbind_inr in H as (els' & o2 & Hels & H).
      inversion H; subst. exists fe, o1. split; [done|].
      apply IH. by exists els'.
Qed.

Lemma elections_inr (items : list (string * list string)) (o o' : oracle)
    (els : list (string * string)) :
  elections items o = inr (els, o') ->
  map fst els = map fst items /\
  forall chunk fe, (chunk, fe) ∈ els ->
    exists judgments, (chunk, judgments) ∈ items /\ fe ∈ judgments /\
      forall fe', (votes fe' judgments <= votes fe judgments)%nat.
Proof.
  revert o els. induction items as [|[chunk js] items IH]; intros o els; simpl.
  - intros H. inversion H; subst. split; [done|].
    intros ? ? Hin. by apply elem_of_nil in Hin.
  - intros H. apply mbind_inr in H as (fe & o1 & Hfe & H).
    apply mbind_inr in H as (els' & o2 & Hels & H). inversion H; subst.
    apply IH in Hels as [Hfst Hels]. apply elect_inr in Hfe as [Hin Hmax].
    split; [simpl; by f_equal|].
    intros c f Hcf. apply elem_of_cons in Hcf as [Heq|Hcf].
    + inversion Heq; subst. exists js. split; [left | done].
    + destruct (Hels c f Hcf) as (js' & ? & ? & ?).
      exists js'. split; [by right | done].
Qed.

Lemma elections_ok (items : list (string * list string)) (o : oracle) :
  (forall chunk judgments, (chunk, judgments) ∈ items -> judgments <> []) ->
  exists els o', elections items o = inr (els, o').
Proof.
  revert o. induction items as [|[chunk js] items IH]; intros o Hne; simpl.
  - unfold mret, ret. eauto.
  - destruct (elect_ok js o) as (fe & o1 & Hfe).
    { apply (Hne chunk). left. }
    destruct (IH o1) as (els & o2 & Hels).
    { intros c j Hin. apply (Hne c). by right. }
    unfold mbind. rewrite Hfe, Hels. unfold mret, ret. eauto.
Qed.

(** What the stores leave in [fes]: a frame element is bound to the chunk of
    the last election that chose it. *)
Lemma record_elections_lookup (els : list (string * string))
    (fes : gmap string (option string)) (fe : string) :
  record_elections els fes !! fe
  = match last (List.filter (fun el => String.eqb el.2 fe) els) with
    | Some el => Some (Some el.1)
    | None => fes !! fe
    end.
Proof.
  revert fes. unfold record_elections.
  induction els as [|[c f] els IH]; intros fes; simpl; [done|].
  rewrite IH. destruct (String.eqb_spec f fe) as [->|Hne]; simpl.
  - rewrite last_cons. destruct (last _); simpl; [done|].
    by rewrite lookup_insert_eq.
  - destruct (last _); [done|]. by rewrite lookup_insert_ne.
Qed.

End Vote.

(** ** The loops of [process_unit] *)

Section Loops.
Import Py ParseResults.
Local Open Scope py_scope.

Context `{mach : Machine}.

Lemma add_judgment_judged (each : row) (chunks chunks' : gmap string (list string)) (i : nat) :
  add_judgment each chunks i = inr chunks' -> judged chunks -> judged chunks'.
Proof.
  unfold add_judgment. intros H Hj.
  apply bind_inr in H as (fe & _ & H). apply bind_inr in H as (chunk & _ & H).
  destruct fe as [fe|], chunk as [chunk|]; try (inversion H; by subst).
  destruct (truthy (Some fe) && truthy (Some chunk) && negb (fe =? "None")%string);
    inversion H; subst; [|done].
  intros c js. destruct (decide (chunk = c)) as [->|Hne].
  - rewrite lookup_insert_eq. intros Heq. inversion Heq.
    by destruct (default [] (chunks !! c)).
  - rewrite lookup_insert_ne by done. apply Hj.
Qed.

Lemma collect_judgments_judged (n : nat) (sentences : list row) (chunks : gmap string (list string)) :
  collect_judgments n sentences = inr chunks -> judged chunks.
Proof.
  unfold collect_judgments. intros H.
  apply (foldM_inr_inv _ judged _ _ _ H).
  - intros c js. by rewrite lookup_empty.
  - intros s each s' _ Hs Hin.
    apply (foldM_inr_inv _ judged _ _ _ Hin Hs).
    intros s1 i s2 _ Hs1 Hadd. by eapply add_judgment_judged.
Qed.

Lemma add_judgment_ok (each : row) (chunks : gmap string (list string)) (i : nat) :
  is_Some (each !! ("answer_chunk_" ++ fmt02 i)%string) ->
  is_Some (each !! ("chunk_" ++ fmt02 i)%string) ->
  exists chunks', add_judgment each chunks i = inr chunks'.
Proof.
  intros [fe Hfe] [chunk Hchunk]. unfold add_judgment, getitem.
  rewrite Hfe, Hchunk. simpl.
  destruct fe as [fe|], chunk as [chunk|]; try (unfold ret; eauto).
  destruct (truthy (Some fe) && truthy (Some chunk) && negb (fe =? "None")%string);
    unfold ret; eauto.
Qed.

Lemma collect_judgments_ok (n : nat) (sentences : list row) :
  Forall (has_cells n) sentences ->
  exists chunks, collect_judgments n sentences = inr chunks.
Proof.
  intros Hall. unfold collect_judgments.
  destruct (foldM_inv (fun chunks each => foldM (add_judgment each) chunks (seq 0 n))
              (fun _ => True) sentences ∅) as (chunks & H & _); [done | | eauto].
  intros s each Hin _. rewrite Forall_forall in Hall. specialize (Hall each Hin).
  destruct (foldM_inv (add_judgment each) (fun _ => True) (seq 0 n) s)
    as (s' & Hs' & _); [done | | eauto].
  intros s1 i Hi _. apply list_elem_of_In, in_seq in Hi.
  destruct (Hall i) as [Ha Hc]; [lia|].
  destruct (add_judgment_ok each s1 i Ha Hc) as [s2 Hs2]. eauto.
Qed.

Lemma fill_missing_lookup (first : row) (fes fes' : gmap string (option string))
    (i : nat) (fe : string) :
  fill_missing first fes i = inr fes' ->
  fes' !! fe =
    match fes !! fe with
    | Some v => Some v
    | None => if bool_decide (fe <> "" /\ first !! ("fe_" ++ fmt02 i)%string = Some (Some fe))
              then Some None else None
    end.
Proof.
  unfold fill_missing. intros H. apply bind_inr in H as (cell & Hcell & H).
  apply getitem_inr in Hcell. rewrite Hcell.
  destruct cell as [f|].
  - destruct (truthy (Some f)) eqn:Ht; simpl in H.
    + destruct (bool_decide (is_Some (fes !! f))) eqn:Hd; simpl in H;
        inversion H; subst.
      * apply bool_decide_eq_true in Hd as [v Hv].
        destruct (fes' !! fe) eqn:Hfe; [done|].
        rewrite bool_decide_eq_false_2; [done|]. intros [_ Heq].
        inversion Heq; subst. congruence.
      * apply bool_decide_eq_false in Hd.
        destruct (decide (f = fe)) as [->|Hne].
        -- rewrite lookup_insert_eq.
           destruct (fes !! fe) eqn:Hfe; [by destruct Hd|].
           rewrite bool_decide_eq_true_2; [done|]. split; [|done].
           intros ->. by simpl in Ht.
        -- rewrite lookup_insert_ne by done.
           destruct (fes !! fe); [done|].
           rewrite bool_decide_eq_false_2; [done|]. intros [_ Heq]. congruence.
    + inversion H; subst. destruct (fes' !! fe); [done|].
      rewrite bool_decide_eq_false_2; [done|]. intros [Hne Heq].
      inversion Heq; subst. by destruct fe.
  - inversion H; subst. destruct (fes' !! fe); [done|].
    by rewrite bool_decide_eq_false_2 by (intros [_ ?]; congruence).
Qed.

Lemma fill_loop_lookup (first : row) (idxs : list nat)
    (fes fes' : gmap string (option string)) (fe : string) :
  foldM (fill_missing first) fes idxs = inr fes' ->
  (forall v, fes !! fe = Some v -> fes' !! fe = Some v) /\
  (fes !! fe = None -> listed first idxs fe -> fes' !! fe = Some None) /\
  (fes !! fe = None -> ~ listed first idxs fe -> fes' !! fe = None) /\
  (fes !! fe = None -> fes' !! fe = Some None \/ fes' !! fe = None).
Proof.
  revert fes. induction idxs as [|i idxs IH]; intros fes H; simpl in H.
  - inversion H; subst. repeat split; try done; [|by right].
    intros _ (_ & i & Hi & _). by apply elem_of_nil in Hi.
  - apply bind_inr in H as (fes1 & H1 & H).
    apply (fill_missing_lookup _ _ _ _ fe) in H1.
    destruct (IH _ H) as (IHa & IHb & IHc & IHd). repeat split.
    + intros v Hv. rewrite Hv in H1. by apply IHa.
    + intros Hnone (Hne & j & Hj & Hcell). rewrite Hnone in H1.
      case_bool_decide as Hd.
      * by apply IHa.
      * apply IHb; [done|]. split; [done|]. exists j. split; [|done].
        apply elem_of_cons in Hj as [->|Hj]; [|done]. by destruct Hd.
    + intros Hnone Hnl. rewrite Hnone in H1. case_bool_decide as Hd.
      * destruct Hnl. destruct Hd as [Hne Hcell]. split; [done|].
        exists i. split; [left | done].
      * apply IHc; [done|]. intros (Hne & j & Hj & Hcell). apply Hnl.
        split; [done|]. exists j. split; [by right | done].
    + intros Hnone. rewrite Hnone in H1. case_bool_decide as Hd.
      * left. by apply IHa.
      * by apply IHd.
Qed.

Lemma fill_loop_ok (first : row) (idxs : list nat) (fes : gmap string (option string)) :
  (forall i, i ∈ idxs -> is_Some (first !! ("fe_" ++ fmt02 i)%string)) ->
  exists fes', foldM (fill_missing first) fes idxs = inr fes'.
Proof.
  intros Hcols.
  destruct (foldM_inv (fill_missing first) (fun _ => True) idxs fes)
    as (fes' & H & _); [done | | eauto].
  intros s i Hi _. destruct (Hcols i Hi) as [cell Hcell].
  unfold fill_missing, getitem. rewrite Hcell. simpl.
  destruct cell as [f|]; [|unfold ret; eauto].
  destruct (truthy (Some f) && negb (bool_decide (is_Some (s !! f))));
    unfold ret; eauto.
Qed.

(** What the first loop collects under a chunk: the answers of the cells
    that hold the chunk, row by row and cell by cell. *)
Lemma add_judgment_lookup (each : row) (chunks chunks' : gmap string (list string))
    (i : nat) (chunk : string) :
  add_judgment each chunks i = inr chunks' ->
  default [] (chunks' !! chunk)
  = default [] (chunks !! chunk) ++ cell_judgment chunk each i.
Proof.
  unfold add_judgment, cell_judgment. intros H.
  apply bind_inr in H as (fe & Hfe & H). apply bind_inr in H as (c & Hc & H).
  apply getitem_inr in Hfe, Hc. rewrite Hfe, Hc.
  destruct fe as [fe|], c as [c|];
    try (inversion H; subst; by rewrite app_nil_r).
  destruct (truthy (Some fe) && truthy (Some c) && negb (fe =? "None")%string);
    inversion H; subst; simpl; [|by rewrite app_nil_r].
  destruct (String.eqb_spec c chunk) as [->|Hne].
  - by rewrite lookup_insert_eq.
  - rewrite lookup_insert_ne by done. by rewrite app_nil_r.
Qed.

Lemma collect_judgments_lookup (n : nat) (sentences : list row)
    (chunks : gmap string (list string)) (chunk : string) :
  collect_judgments n sentences = inr chunks ->
  default [] (chunks !! chunk) = judgments_for chunk n sentences.
Proof.
  unfold collect_judgments, judgments_for.
  assert (forall each idxs acc acc',
            foldM (add_judgment each) acc idxs = inr acc' ->
            default [] (acc' !! chunk)
            = default [] (acc !! chunk) ++ flat_map (cell_judgment chunk each) idxs)
    as Hinner.
  { intros each idxs. induction idxs as [|i idxs IH]; intros acc acc' H; simpl in H.
    - inversion H; subst. simpl. by rewrite app_nil_r.
    - apply bind_inr in H as (acc1 & H1 & H).
      rewrite (IH _ _ H), (add_judgment_lookup _ _ _ _ chunk H1). simpl.
      by rewrite <- app_assoc. }
  assert (forall rows acc acc',
            foldM (fun chunks each => foldM (add_judgment each) chunks (seq 0 n))
                  acc rows = inr acc' ->
            default [] (acc' !! chunk)
            = default [] (acc !! chunk)
              ++ flat_map (fun each => flat_map (cell_judgment chunk each) (seq 0 n)) rows)
    as Houter.
  { induction rows as [|each rows IH]; intros acc acc' H; simpl in H.
    - inversion H; subst. simpl. by rewrite app_nil_r.
    - apply bind_inr in H as (acc1 & H1 & H).
      rewrite (IH _ _ H), (Hinner _ _ _ _ H1). simpl. by rewrite <- app_assoc. }
  intros H. rewrite (Houter _ _ _ H). by rewrite lookup_empty.
Qed.

Lemma foldM_ext {A S} (f g : S -> A -> result S) (s : S) (xs : list A) :
  (forall s x, f s x = g s x) -> foldM f s xs = foldM g s xs.
Proof.
  intros Hfg. revert s. induction xs as [|x xs IH]; intros s; simpl; [done|].
  rewrite Hfg. destruct (g s x); simpl; [done | apply IH].
Qed.

(** [xrange] accepts the count or raises in the first iteration. *)
Lemma build_chunks_collect (chunk_count : N) (sentences : list row) :
  (chunk_count <= maxint)%N ->
  build_chunks chunk_count sentences
  = collect_judgments (N.to_nat chunk_count) sentences.
Proof.
  intros Hle. unfold build_chunks, collect_judgments. apply foldM_ext.
  intros s x. by rewrite (proj2 (xrange_inr chunk_count _) (conj Hle eq_refl)).
Qed.

Lemma build_chunks_overflow (chunk_count : N) (sentences : list row) :
  sentences <> [] -> (maxint < chunk_count)%N ->
  build_chunks chunk_count sentences = inl OverflowError.
Proof.
  intros Hne Hlt. destruct sentences as [|each rest]; [done|].
  unfold build_chunks. simpl.
  by rewrite (proj2 (xrange_inl chunk_count _) (conj Hlt eq_refl)).
Qed.

Lemma build_chunks_inr (chunk_count : N) (sentences : list row)
    (chunks : gmap string (list string)) :
  sentences <> [] ->
  build_chunks chunk_count sentences = inr chunks <->
  (chunk_count <= maxint)%N /\
  collect_judgments (N.to_nat chunk_count) sentences = inr chunks.
Proof.
  intros Hne. destruct (N.le_gt_cases chunk_count maxint) as [Hle|Hlt].
  - rewrite (build_chunks_collect _ _ Hle). tauto.
  - rewrite (build_chunks_overflow _ _ Hne Hlt). split; [discriminate|].
    intros [? _]. lia.
Qed.

Lemma fill_fes_inr (fe_count : N) (first : row) (fes fes' : gmap string (option string)) :
  fill_fes fe_count first fes = inr fes' <->
  (fe_count <= maxint)%N /\
  foldM (fill_missing first) fes (seq 0 (N.to_nat fe_count)) = inr fes'.
Proof.
  unfold fill_fes. rewrite bind_inr. split.
  - intros (idxs & Hidxs & H). apply xrange_inr in Hidxs as [Hle ->]. done.
  - intros [Hle H]. exists (seq 0 (N.to_nat fe_count)).
    split; [by apply xrange_inr | done].
Qed.

End Loops.

(** ** Column names: ['%02d' % i] read back by [int] *)

Section Columns.
Import Py ParseResults.
Local Open Scope py_scope.

Lemma is_digit_not_space (c : ascii) : is_digit c = true -> is_space c = false.
Proof.
  unfold is_digit, is_space. intros H.
  apply andb_true_iff in H as [H1 H2].
  apply Nat.leb_le in H1, H2.
  apply orb_false_iff. split.
  - apply Nat.eqb_neq. lia.
  - apply andb_false_iff. right. apply Nat.leb_gt. lia.
Qed.

Lemma all_digits_string_of_uint (d : Decimal.uint) :
  all_digits (NilEmpty.string_of_uint d) = true.
Proof. induction d; simpl; auto. Qed.

Lemma lstrip_digits (s : string) : all_digits s = true -> lstrip s = s.
Proof.
  destruct s as [|c s]; simpl; [done|]. intros H.
  apply andb_true_iff in H as [H _]. by rewrite (is_digit_not_space c H).
Qed.

Lemma rstrip_digits (s : string) : all_digits s = true -> rstrip s = s.
Proof.
  induction s as [|c s IH]; simpl; [done|]. intros H.
  apply andb_true_iff in H as [Hc Hs]. rewrite (IH Hs).
  destruct s; [|done]. by rewrite (is_digit_not_space c Hc).
Qed.

Lemma split_on_digits (s : string) :
  all_digits s = true -> split_on "_" s = [s].
Proof.
  induction s as [|c s IH]; simpl; [done|]. intros H.
  apply andb_true_iff in H as [Hc Hs]. rewrite (IH Hs).
  destruct (Ascii.eqb_spec c "_") as [->|_]; [discriminate | done].
Qed.

Lemma py_int_digits (s : string) (d : Decimal.uint) :
  all_digits s = true -> s <> "" -> NilEmpty.uint_of_string s = Some d ->
  py_int s = inr (N.of_uint d).
Proof.
  intros Hd Hne Hs. unfold py_int.
  rewrite (lstrip_digits s Hd), (rstrip_digits s Hd).
  destruct s as [|c s]; [done|].
  assert (c <> "+"%char) as Hplus.
  { intros ->. simpl in Hd. discriminate. }
  assert (match String c s with
          | String "+"%char d0 => d0
          | _ => String c s
          end = String c s) as ->.
  { destruct c as [[] [] [] [] [] [] [] []]; try done. }
  by rewrite Hd, Hs.
Qed.

Lemma to_uint_not_Nil (n : N) : N.to_uint n <> Decimal.Nil.
Proof.
  intros H. pose proof (Unsigned.of_to n) as Hn. rewrite H in Hn.
  simpl in Hn. subst n. discriminate.
Qed.

Lemma fmt02_digits (i : nat) :
  all_digits (fmt02 i) = true /\ exists c s, fmt02 i = String c s /\ is_digit c = true.
Proof.
  unfold fmt02.
  pose proof (all_digits_string_of_uint (N.to_uint (N.of_nat i))) as Hd.
  pose proof (to_uint_not_Nil (N.of_nat i)) as Hnil.
  destruct (NilEmpty.string_of_uint (N.to_uint (N.of_nat i))) as [|c [|c' s]] eqn:Hs.
  - destruct (N.to_uint (N.of_nat i)); done.
  - split; [done|]. by exists "0"%char, (String c "").
  - split; [done|]. exists c, (String c' s). split; [done|].
    simpl in Hd. by apply andb_true_iff in Hd as [? _].
Qed.

(** [int('%02d' % i) == i] *)
Lemma py_int_fmt02 (i : nat) : py_int (fmt02 i) = inr (N.of_nat i).
Proof.
  destruct (fmt02_digits i) as (Hd & c & s & Hcs & _).
  pose proof (NilEmpty.usu (N.to_uint (N.of_nat i))) as Husu.
  pose proof (Unsigned.of_to (N.of_nat i)) as Hof.
  unfold fmt02 in *.
  destruct (NilEmpty.string_of_uint (N.to_uint (N.of_nat i))) as [|c1 [|c2 s']] eqn:Hs.
  - discriminate.
  - rewrite (py_int_digits _ (Decimal.D0 (N.to_uint (N.of_nat i)))); [| done | done |].
    + f_equal. exact Hof.
    + cbn [NilEmpty.uint_of_string] in *. by rewrite Husu.
  - rewrite (py_int_digits _ (N.to_uint (N.of_nat i))); [| done | done | done].
    f_equal. exact Hof.
Qed.

Lemma column_number_fmt02 (p : string) (i : nat) :
  split_on "_" p = [p] ->
  column_number (p ++ String "_" (fmt02 i)) = inr (N.of_nat i).
Proof.
  intros Hp. unfold column_number.
  destruct (fmt02_digits i) as (Hd & _).
  assert (split_on "_" (p ++ String "_" (fmt02 i)) = [p; fmt02 i]) as ->.
  { clear Hd. pose proof (split_on_digits (fmt02 i)) as Hs.
    destruct (fmt02_digits i) as (Hd & _). specialize (Hs Hd). clear Hd.
    revert Hp. induction p as [|c p IH]; simpl.
    - intros _. by rewrite Hs.
    - destruct (Ascii.eqb c "_"); [discriminate|].
      destruct (split_on "_" p) as [|h [|h' t]] eqn:Hsp; try discriminate.
      + intros Heq. inversion Heq; subst. by rewrite IH.
      + intros Heq. inversion Heq; subst. by rewrite IH. }
  simpl. apply py_int_fmt02.
Qed.

Lemma column_index_inr (k : string) (i : nat) :
  column_index k = inr i <-> exists v, column_number k = inr v /\ i = N.to_nat v.
Proof.
  unfold column_index. rewrite bind_inr. split.
  - intros (v & Hv & H). inversion H. eauto.
  - intros (v & Hv & ->). eauto.
Qed.

Lemma column_index_fmt02 (p : string) (i : nat) :
  split_on "_" p = [p] ->
  column_index (p ++ String "_" (fmt02 i)) = inr i.
Proof.
  intros Hp. apply column_index_inr. exists (N.of_nat i).
  split; [by apply column_number_fmt02 | by rewrite Nat2N.id].
Qed.

(** The numbers the generator produces, for keys that do not raise. *)
Lemma column_step_inr (prefix : string) (k : option string) (v : option N) :
  column_step prefix k = inr v <->
  exists k', k = Some k' /\
    if re_match_digits prefix k' then exists j, column_number k' = inr j /\ v = Some j
    else v = None.
Proof.
  unfold column_step. destruct k as [k'|]; split.
  - intros H. exists k'. split; [done|].
    destruct (re_match_digits prefix k').
    + apply bind_inr in H as (j & Hj & H). inversion H. eauto.
    + by inversion H.
  - intros (k'' & Heq & H). inversion Heq; subst k''.
    destruct (re_match_digits prefix k').
    + destruct H as (j & Hj & ->). by rewrite Hj.
    + by subst.
  - discriminate.
  - intros (k' & Heq & _). discriminate.
Qed.

(** A key that raises: the key [None], or a matching key whose number does
    not parse. *)
Lemma column_step_inl (prefix : string) (k : option string) (e : exn) :
  column_step prefix k = inl e ->
  (k = None /\ e = TypeError) \/
  (exists k', k = Some k' /\ re_match_digits prefix k' = true /\
     column_number k' = inl e).
Proof.
  unfold column_step. destruct k as [k'|].
  - destruct (re_match_digits prefix k') eqn:Hm; [|discriminate].
    destruct (column_number k') as [e'|j] eqn:Hj; simpl; [|discriminate].
    intros H. inversion H; subst. right. eauto.
  - intros H. inversion H. by left.
Qed.

Lemma mapM_Permutation {A B} (f : A -> result B) (xs xs' : list A) (ys : list B) :
  xs ≡ₚ xs' -> mapM f xs = inr ys ->
  exists ys', mapM f xs' = inr ys' /\ ys ≡ₚ ys'.
Proof.
  intros Hp. revert ys. induction Hp as [|x xs xs' _ IH|x y xs|xs xs' xs'' _ IH1 _ IH2];
    intros ys H.
  - exists ys. done.
  - simpl in H. apply bind_inr in H as (y & Hy & H).
    apply bind_inr in H as (ys0 & Hys0 & H). inversion H; subst.
    destruct (IH _ Hys0) as (ys' & Hys' & Hperm).
    exists (y :: ys'). simpl. rewrite Hy, Hys'. simpl. split; [done|].
    by constructor.
  - simpl in H. apply bind_inr in H as (y' & Hy' & H).
    apply bind_inr in H as (ys0 & H0 & H). inversion H; subst. clear H.
    apply bind_inr in H0 as (x' & Hx' & H).
    apply bind_inr in H as (ys1 & Hys1 & H). inversion H; subst. clear H.
    exists (x' :: y' :: ys1). simpl. rewrite Hx', Hy', Hys1. simpl.
    split; [done | apply perm_swap].
  - destruct (IH1 _ H) as (ys' & Hys' & Hp1).
    destruct (IH2 _ Hys') as (ys'' & Hys'' & Hp2).
    exists ys''. split; [done | by etrans].
Qed.

(** When the count can be computed, it is the same in every order of the
    keys. *)
Lemma column_count_of_Permutation (prefix : string) (ks ks' : list (option string)) (n : N) :
  ks ≡ₚ ks' -> column_count_of prefix ks = inr n -> column_count_of prefix ks' = inr n.
Proof.
  intros Hp H. unfold column_count_of in *.
  apply bind_inr in H as (numbers & Hnumbers & H).
  apply bind_inr in H as (m & Hm & H).
  destruct (mapM_Permutation _ _ _ _ Hp Hnumbers) as (numbers' & -> & Hperm).
  simpl. rewrite (py_max_N_Permutation (omap id numbers) (omap id numbers') m); [done | | done].
  by apply omap_Permutation.
Qed.

(** The count cannot be computed on a row with surplus cells. *)
Lemma column_count_of_no_None (prefix : string) (ks : list (option string)) (n : N) :
  column_count_of prefix ks = inr n -> None ∉ ks.
Proof.
  intros H. unfold column_count_of in H.
  apply bind_inr in H as (numbers & Hnumbers & _).
  apply mapM_inr in Hnumbers. intros Hin.
  apply list_elem_of_lookup in Hin as [j Hj].
  destruct (Forall2_lookup_l _ _ _ _ _ Hnumbers Hj) as (y & _ & Hstep).
  discriminate.
Qed.

Lemma row_keys_no_None (r : row) : None ∉ row_keys r <-> surplus r = None.
Proof.
  unfold row_keys. split.
  - intros Hnot. destruct (surplus r); [|done].
    exfalso. apply Hnot. apply elem_of_app. right. left.
  - intros ->. rewrite app_nil_r. intros Hin.
    apply list_elem_of_fmap in Hin as (? & ? & _). discriminate.
Qed.

Lemma elem_of_row_keys (r : row) (k : string) :
  Some k ∈ row_keys r <-> is_Some (r !! k).
Proof.
  unfold row_keys. rewrite elem_of_app. split.
  - intros [Hin|Hin].
    + apply list_elem_of_fmap in Hin as (k' & Heq & Hin). inversion Heq; subst k'.
      apply list_elem_of_fmap in Hin as ([k' v] & -> & Hin).
      apply elem_of_map_to_list in Hin. by exists v.
    + destruct (surplus r); [|by apply elem_of_nil in Hin].
      apply list_elem_of_singleton in Hin. discriminate.
  - intros [v Hv]. left. apply list_elem_of_fmap. exists k. split; [done|].
    apply list_elem_of_fmap. exists (k, v). split; [done|].
    by apply elem_of_map_to_list.
Qed.

Lemma column_count_inr (prefix : string) (r : row) (n : nat) :
  column_count prefix r = inr n <->
  exists v, column_count_of prefix (row_keys r) = inr v /\ n = N.to_nat v.
Proof.
  unfold column_count. rewrite bind_inr. split.
  - intros (v & Hv & H). inversion H. eauto.
  - intros (v & Hv & ->). eauto.
Qed.

Lemma column_count_surplus (prefix : string) (r : row) (n : nat) :
  column_count prefix r = inr n -> surplus r = None.
Proof.
  intros H. apply column_count_inr in H as (v & Hv & _).
  apply row_keys_no_None. by eapply column_count_of_no_None.
Qed.

(** The column [prefix%02d] of index [i] is counted. *)
Lemma column_count_of_gt (prefix : string) (ks : list (option string)) (i : nat) (m : N) :
  re_match_digits prefix (prefix ++ fmt02 i) = true ->
  column_number (prefix ++ fmt02 i) = inr (N.of_nat i) ->
  Some (prefix ++ fmt02 i)%string ∈ ks ->
  column_count_of prefix ks = inr m ->
  (N.of_nat i < m)%N.
Proof.
  intros Hmatch Hidx Hin H. unfold column_count_of in H.
  apply bind_inr in H as (numbers & Hnumbers & H).
  apply bind_inr in H as (mx & Hmx & H). inversion H; subst.
  apply py_max_N_inr in Hmx as [_ Hmx].
  apply mapM_inr in Hnumbers.
  apply list_elem_of_lookup in Hin as [j Hj].
  destruct (Forall2_lookup_l _ _ _ _ _ Hnumbers Hj) as (y & Hy & Hstep).
  simpl in Hstep. rewrite Hmatch, Hidx in Hstep. inversion Hstep; subst.
  assert (N.of_nat i ∈ omap id numbers) as Hel.
  { apply list_elem_of_omap. exists (Some (N.of_nat i)).
    split; [by eapply list_elem_of_lookup_2 | done]. }
  specialize (Hmx _ Hel). lia.
Qed.

Lemma chunk_column_lt (first : row) (i n : nat) :
  is_Some (first !! ("chunk_" ++ fmt02 i)%string) ->
  column_count "chunk_" first = inr n -> (i < n)%nat.
Proof.
  intros Hv H. apply column_count_inr in H as (v & H & ->).
  enough (N.of_nat i < v)%N by lia.
  revert H. apply column_count_of_gt.
  - destruct (fmt02_digits i) as (_ & c & s & -> & Hc). simpl.
    unfold re_match_digits. by simpl.
  - by apply (column_number_fmt02 "chunk").
  - by apply elem_of_row_keys.
Qed.

Lemma fe_column_lt (first : row) (i m : nat) :
  is_Some (first !! ("fe_" ++ fmt02 i)%string) ->
  column_count "fe_" first = inr m -> (i < m)%nat.
Proof.
  intros Hv H. apply column_count_inr in H as (v & H & ->).
  enough (N.of_nat i < v)%N by lia.
  revert H. apply column_count_of_gt.
  - destruct (fmt02_digits i) as (_ & c & s & -> & Hc). simpl.
    unfold re_match_digits. by simpl.
  - by apply (column_number_fmt02 "fe").
  - by apply elem_of_row_keys.
Qed.

(** The order of [keys] is a permutation of the keys, and leaves an oracle
    that does not depend on the row. *)
Lemma keys_inr (r : row) (o o' : oracle) (ks : list (option string)) :
  keys r o = inr (ks, o') -> ks ≡ₚ row_keys r.
Proof. apply dict_order_inr. Qed.

Lemma keys_ok (r : row) (o : oracle) : exists ks o', keys r o = inr (ks, o').
Proof. apply dict_order_ok. Qed.

End Columns.

(** ** The assertions and the runs of [process_unit] *)

Section Unit.
Import Py ParseResults.
Local Open Scope py_scope.

Context `{mach : Machine}.

(** Membership of a literal name in [checked_columns]. *)
Local Ltac checked_column := apply list_elem_of_In; simpl; tauto.

Lemma all_unit_id_inr (unit_id : option string) (sentences : list row) (b : bool) :
  all_unit_id unit_id sentences = inr b ->
  b = true <-> agree_on "_unit_id" unit_id sentences.
Proof.
  induction sentences as [|s ss IH]; simpl.
  - intros H. inversion H. split; [|done]. intros _ s Hs. by apply elem_of_nil in Hs.
  - intros H. apply bind_inr in H as (v & Hv & H). apply getitem_inr in Hv.
    destruct (decide (v = unit_id)) as [->|Hne].
    + rewrite (IH H). split.
      * intros Hag s' Hs'. apply elem_of_cons in Hs' as [->|Hs']; [done | by apply Hag].
      * intros Hag s' Hs'. apply Hag. by right.
    + inversion H. split; [done|]. intros Hag.
      specialize (Hag s (list_elem_of_here _ _)). congruence.
Qed.

Lemma all_unit_id_ok (unit_id : option string) (sentences : list row) :
  Forall has_checked_columns sentences ->
  exists b, all_unit_id unit_id sentences = inr b.
Proof.
  induction 1 as [|s ss Hs _ [b IH]]; simpl; [by exists true|].
  destruct (Hs "_unit_id") as [v Hv]; [checked_column|].
  unfold getitem. rewrite Hv. simpl.
  destruct (decide (v = unit_id)); [eauto | by exists false].
Qed.

Lemma mapM_getitem_inr (name : string) (sentences : list row) (vals : list (option string)) :
  mapM (fun s : row => getitem s name) sentences = inr vals <->
  (Some <$> vals) = (fun s : row => s !! name) <$> sentences.
Proof.
  revert vals. induction sentences as [|s ss IH]; intros vals; simpl.
  - unfold ret. split.
    + intros H. by inversion H.
    + intros H. by destruct vals.
  - rewrite bind_inr. split.
    + intros (v & Hv & H). apply getitem_inr in Hv.
      apply bind_inr in H as (vs & Hvs & H). inversion H; subst.
      apply IH in Hvs. rewrite !fmap_cons, Hv. by f_equal.
    + intros H. destruct vals as [|v vs]; [done|]. rewrite !fmap_cons in H.
      inversion H as [[Hv Hvs]]. exists v. split; [by apply getitem_inr|].
      apply bind_inr. exists vs. split; [by apply IH | done].
Qed.

Lemma size_list_to_set_1 (vals : list (option string)) :
  size (list_to_set vals : gset (option string)) = 1%nat <->
  exists v, vals <> [] /\ forall x, x ∈ vals -> x = v.
Proof.
  split.
  - intros H. apply size_1_elem_of in H as [v Hv]. exists v. split.
    + intros ->. simpl in Hv. set_solver.
    + intros x Hx. assert (x ∈ (list_to_set vals : gset (option string))) as Hin
        by by apply elem_of_list_to_set.
      rewrite Hv in Hin. by apply elem_of_singleton in Hin.
  - intros (v & Hne & Hall).
    assert ((list_to_set vals : gset (option string)) = {[v]}) as ->.
    { apply set_eq. intros x. rewrite elem_of_list_to_set, elem_of_singleton. split.
      - apply Hall.
      - intros ->. destruct vals as [|y ys]; [done|].
        rewrite <- (Hall y); left. }
    apply size_singleton.
Qed.

Lemma single_valued_inr (name : string) (sentences : list row) (b : bool) :
  single_valued name sentences = inr b ->
  b = true <-> sentences <> [] /\ exists v, agree_on name v sentences.
Proof.
  unfold single_valued. intros H. apply bind_inr in H as (vals & Hvals & H).
  inversion H as [Hb]. clear H Hb. apply mapM_getitem_inr in Hvals.
  rewrite bool_decide_eq_true, size_list_to_set_1. split.
  - intros (v & Hne & Hall). split.
    + intros ->. by destruct vals.
    + exists v. intros s Hs.
      apply list_elem_of_lookup in Hs as [i Hi].
      assert (((fun s : row => s !! name) <$> sentences) !! i = Some (s !! name)) as Hl
        by by rewrite list_lookup_fmap, Hi.
      rewrite <- Hvals, list_lookup_fmap in Hl.
      destruct (vals !! i) as [x|] eqn:Hx; [|done]. simpl in Hl.
      inversion Hl as [Hsx]. f_equal. apply Hall. by eapply list_elem_of_lookup_2.
  - intros (Hne & v & Hag). exists v. split.
    + intros ->. by destruct sentences.
    + intros x Hx. apply list_elem_of_lookup in Hx as [i Hi].
      assert ((Some <$> vals) !! i = Some (Some x)) as Hl
        by by rewrite list_lookup_fmap, Hi.
      rewrite Hvals, list_lookup_fmap in Hl.
      destruct (sentences !! i) as [s|] eqn:Hs; [|done]. simpl in Hl.
      rewrite (Hag s) in Hl by by eapply list_elem_of_lookup_2. by inversion Hl.
Qed.

Lemma single_valued_ok (name : string) (sentences : list row) :
  name ∈ checked_columns ->
  Forall has_checked_columns sentences ->
  exists b, single_valued name sentences = inr b.
Proof.
  intros Hname Hall. unfold single_valued.
  assert (exists vals, mapM (fun s : row => getitem s name) sentences = inr vals)
    as [vals ->]; [|simpl; eauto].
  induction Hall as [|s ss Hs _ [vals IH]]; simpl; [by exists []|].
  destruct (Hs name Hname) as [v Hv]. unfold getitem at 1. rewrite Hv. simpl.
  rewrite IH. simpl. eauto.
Qed.

(** The assertions pass exactly on a non-empty list of rows that all carry
    the unit id given as argument and agree on [id], [sentence] and [frame]. *)
Lemma check_unit_inr (unit_id : option string) (sentences : list row) :
  check_unit unit_id sentences = inr tt <->
  sentences <> [] /\ agree_on "_unit_id" unit_id sentences /\
  (exists v, agree_on "id" v sentences) /\
  (exists v, agree_on "sentence" v sentences) /\
  (exists v, agree_on "frame" v sentences).
Proof.
  unfold check_unit. split.
  - intros H.
    apply bind_inr in H as (b1 & H1 & H). apply bind_inr in H as ([] & A1 & H).
    apply bind_inr in H as (b2 & H2 & H). apply bind_inr in H as ([] & A2 & H).
    apply bind_inr in H as (b3 & H3 & H). apply bind_inr in H as ([] & A3 & H).
    apply bind_inr in H as (b4 & H4 & A4).
    apply py_assert_inr in A1, A2, A3, A4. subst.
    apply all_unit_id_inr in H1. apply single_valued_inr in H2, H3, H4.
    destruct H1 as [H1 _], H2 as [H2 _], H3 as [H3 _], H4 as [H4 _].
    specialize (H1 eq_refl). destruct (H2 eq_refl) as [Hne ?].
    destruct (H3 eq_refl) as [_ ?]. destruct (H4 eq_refl) as [_ ?]. done.
  - intros (Hne & Hu & Hi & Hs & Hf).
    assert (Forall has_checked_columns sentences) as Hcols.
    { apply Forall_forall. intros s Hin name Hname.
      destruct Hi as [vi Hi], Hs as [vs Hs], Hf as [vf Hf].
      unfold checked_columns in Hname.
      repeat (apply elem_of_cons in Hname as [->|Hname]);
        [rewrite (Hu s Hin) | rewrite (Hi s Hin)
         | rewrite (Hs s Hin) | rewrite (Hf s Hin) | by apply elem_of_nil in Hname];
        eauto. }
    destruct (all_unit_id_ok unit_id sentences Hcols) as [b1 H1].
    destruct (single_valued_ok "id" sentences) as [b2 H2];
      [checked_column | done |].
    destruct (single_valued_ok "sentence" sentences) as [b3 H3];
      [checked_column | done |].
    destruct (single_valued_ok "frame" sentences) as [b4 H4];
      [checked_column | done |].
    rewrite H1, H2, H3, H4. simpl.
    apply all_unit_id_inr in H1. apply single_valued_inr in H2, H3, H4.
    destruct H1 as [_ ->]; [|done]. destruct H2 as [_ ->]; [|done].
    destruct H3 as [_ ->]; [|done]. destruct H4 as [_ ->]; done.
Qed.


Lemma process_unit_run (unit_id : option string) (sentences : list row)
    (o o' : oracle) (u : gmap string field) :
  process_unit unit_id sentences o = inr (u, o') <->
  unit_run unit_id sentences o u o'.
Proof.
  unfold process_unit. split.
  - intros H.
    apply mbind_inr in H as ([] & ? & Hc & H). apply lift_inr in Hc as [Hc ->].
    apply mbind_inr in H as (first & ? & Hf & H). apply lift_inr in Hf as [Hf ->].
    apply index_inr in Hf.
    apply mbind_inr in H as (ks & o0 & Hks & H).
    apply mbind_inr in H as (n & ? & Hn & H). apply lift_inr in Hn as [Hn ->].
    apply mbind_inr in H as (m & ? & Hm & H). apply lift_inr in Hm as [Hm ->].
    apply mbind_inr in H as (chunks & ? & Hch & H). apply lift_inr in Hch as [Hch ->].
    apply mbind_inr in H as (items & o1 & Hit & H).
    apply mbind_inr in H as (fes0 & o2 & Hv & H).
    apply mbind_inr in H as (fes & ? & Hfill & H). apply lift_inr in Hfill as [Hfill ->].
    apply mbind_inr in H as (id & ? & Hid & H). apply lift_inr in Hid as [Hid ->].
    apply mbind_inr in H as (sn & ? & Hsn & H). apply lift_inr in Hsn as [Hsn ->].
    apply mbind_inr in H as (fr & ? & Hfr & H). apply lift_inr in Hfr as [Hfr ->].
    apply getitem_inr in Hid, Hsn, Hfr.
    pose proof (keys_inr _ _ _ _ Hks) as Hperm.
    apply build_chunks_inr in Hch as [Hnle Hch];
      [|intros ->; by rewrite lookup_nil in Hf].
    apply fill_fes_inr in Hfill as [Hmle Hfill].
    inversion H; subst.
    apply UnitRun with (first := first) (n := N.to_nat n) (m := N.to_nat m)
                       (chunks := chunks) (items := items) (o1 := o1) (fes0 := fes0)
                       (ks := ks) (o0 := o0); try done.
    + apply column_count_inr. exists n. split; [|done].
      by apply (column_count_of_Permutation _ ks).
    + apply column_count_inr. exists m. split; [|done].
      by apply (column_count_of_Permutation _ ks).
    + by rewrite N2Nat.id.
    + by rewrite N2Nat.id.
  - intros [first n m chunks items o1 fes0 o2 fes id sn fr ks o0
              Hc Hf Hn Hm Hch Hit Hv Hfill Hid Hsn Hfr Hks Hnle Hmle].
    pose proof (keys_inr _ _ _ _ Hks) as Hperm.
    apply column_count_inr in Hn as (cn & Hn & ->).
    apply column_count_inr in Hm as (cm & Hm & ->).
    rewrite N2Nat.id in Hnle, Hmle.
    apply (column_count_of_Permutation _ _ ks) in Hn, Hm; try done.
    assert (build_chunks cn sentences = inr chunks) as Hch'.
    { apply build_chunks_inr; [|done]. intros ->. by rewrite lookup_nil in Hf. }
    assert (fill_fes cm first fes0 = inr fes) as Hfill' by by apply fill_fes_inr.
    apply index_inr in Hf. apply getitem_inr in Hid, Hsn, Hfr.
    unfold mbind, lift. rewrite Hc, Hf. simpl. rewrite Hks, Hn, Hm. simpl.
    rewrite Hch'. simpl. rewrite Hit, Hv, Hfill'. simpl.
    by rewrite Hid, Hsn, Hfr.
Qed.

(** The judgments of a unit: those the two loops collect for the count of
    the first row, when [xrange] accepts it. *)
Lemma judgments_of_inr (sentences : list row) (chunks : gmap string (list string)) :
  judgments_of sentences = inr chunks <->
  exists first n,
    sentences !! 0%nat = Some first /\
    column_count "chunk_" first = inr n /\
    (N.of_nat n <= maxint)%N /\
    collect_judgments n sentences = inr chunks.
Proof.
  unfold judgments_of. rewrite bind_inr. split.
  - intros (first & Hf & H). apply index_inr in Hf.
    apply bind_inr in H as (cn & Hn & H).
    apply build_chunks_inr in H as [Hle H];
      [|intros ->; by rewrite lookup_nil in Hf].
    exists first, (N.to_nat cn). rewrite N2Nat.id. split_and!; try done.
    apply column_count_inr. eauto.
  - intros (first & n & Hf & Hn & Hle & H).
    apply column_count_inr in Hn as (cn & Hn & ->). rewrite N2Nat.id in Hle.
    exists first. split; [by apply index_inr|]. rewrite Hn. simpl.
    apply build_chunks_inr; [|done]. intros ->. by rewrite lookup_nil in Hf.
Qed.

End Unit.

(** ** What a returning run of [process_unit] leaves in [fes] *)

Section Runs.
Import Py ParseResults.
Local Open Scope py_scope.

Context `{mach : Machine}.

Lemma last_election_Some (els : list (string * string)) (fe : string) (el : string * string) :
  last_election els fe = Some el -> el ∈ els /\ el.2 = fe.
Proof.
  unfold last_election. intros H. apply last_Some_elem_of in H.
  apply list_elem_of_In, filter_In in H as [Hin Heq].
  split; [by apply list_elem_of_In | by apply String.eqb_eq].
Qed.

Lemma last_election_None (els : list (string * string)) (fe : string) :
  last_election els fe = None <-> forall chunk, (chunk, fe) ∉ els.
Proof.
  unfold last_election. rewrite last_None. split.
  - intros Hnil chunk Hin.
    assert (In (chunk, fe) (List.filter (fun el => String.eqb el.2 fe) els)) as Hf.
    { apply filter_In. split; [by apply list_elem_of_In | apply String.eqb_refl]. }
    by rewrite Hnil in Hf.
  - intros Hno. destruct (List.filter _ els) as [|[c f] rest] eqn:Hf; [done|].
    assert (In (c, f) (List.filter (fun el => String.eqb el.2 fe) els)) as Hin
      by (rewrite Hf; by left).
    apply filter_In in Hin as [Hin Heq]. apply String.eqb_eq in Heq. simpl in Heq.
    subst. by destruct (Hno c); apply list_elem_of_In.
Qed.

(** The facts about a returning run that the statements below draw on. *)
Lemma unit_run_facts (unit_id : option string) (sentences : list row)
    (o o' : oracle) (u : gmap string field) :
  unit_run unit_id sentences o u o' ->
  exists first m chunks els fes,
    sentences !! 0%nat = Some first /\
    column_count "fe_" first = inr m /\
    judgments_of sentences = inr chunks /\
    elections_of sentences o = inr els /\
    u !! "fes" = Some (FFes fes) /\
    NoDup els.*1 /\
    (forall chunk, chunk ∈ els.*1 <-> is_Some (chunks !! chunk)) /\
    (forall chunk fe, (chunk, fe) ∈ els ->
       exists judgments, chunks !! chunk = Some judgments /\ fe ∈ judgments /\
         forall fe', (votes fe' judgments <= votes fe judgments)%nat) /\
    (forall fe el, last_election els fe = Some el -> fes !! fe = Some (Some el.1)) /\
    (forall fe, last_election els fe = None -> listed first (seq 0 m) fe ->
       fes !! fe = Some None) /\
    (forall fe, last_election els fe = None -> ~ listed first (seq 0 m) fe ->
       fes !! fe = None) /\
    (forall fe chunk, fes !! fe = Some (Some chunk) ->
       last_election els fe = Some (chunk, fe)).
Proof.
  intros [first n m chunks items o1 fes0 o2 fes id sn fr ks o0
            Hc Hf Hn Hm Hch Hit Hv Hfill Hid Hsn Hfr Hks Hnle Hmle].
  apply vote_elections in Hv as (els & Hels & ->).
  exists first, m, chunks, els, fes.
  assert (judgments_of sentences = inr chunks) as Hj.
  { apply judgments_of_inr. by exists first, n. }
  pose proof (iteritems_inr _ _ _ _ Hit) as Hperm.
  pose proof (elections_inr _ _ _ _ Hels) as [Hfst Hmax].
  assert (forall fe, record_elections els ∅ !! fe
                     = match last_election els fe with
                       | Some el => Some (Some el.1)
                       | None => None
                       end) as Hrec.
  { intros fe. rewrite record_elections_lookup, lookup_empty. done. }
  repeat split; try done.
  - unfold elections_of. apply index_inr in Hf. rewrite Hf, Hj. simpl.
    unfold mbind. by rewrite Hks, Hit, Hels.
  - change (els.*1) with (map fst els). rewrite Hfst.
    change (map fst items) with (items.*1). rewrite Hperm.
    apply NoDup_fst_map_to_list.
  - change (els.*1) with (map fst els). rewrite Hfst.
    change (map fst items) with (items.*1). rewrite Hperm.
    intros Hin. apply list_elem_of_fmap in Hin as ([c js] & -> & Hin).
    apply elem_of_map_to_list in Hin. by exists js.
  - change (els.*1) with (map fst els). rewrite Hfst.
    change (map fst items) with (items.*1). rewrite Hperm.
    intros [js Hjs]. apply list_elem_of_fmap. exists (chunk, js).
    split; [done | by apply elem_of_map_to_list].
  - intros chunk fe Hin. destruct (Hmax chunk fe Hin) as (js & Hjs & ? & ?).
    exists js. split; [|done]. rewrite Hperm in Hjs. by apply elem_of_map_to_list.
  - intros fe el Hlast.
    destruct (fill_loop_lookup _ _ _ _ fe Hfill) as (Ha & _ & _ & _).
    apply Ha. by rewrite Hrec, Hlast.
  - intros fe Hlast Hl.
    destruct (fill_loop_lookup _ _ _ _ fe Hfill) as (_ & Hb & _ & _).
    apply Hb; [|done]. by rewrite Hrec, Hlast.
  - intros fe Hlast Hl.
    destruct (fill_loop_lookup _ _ _ _ fe Hfill) as (_ & _ & Hc' & _).
    apply Hc'; [|done]. by rewrite Hrec, Hlast.
  - intros fe chunk Hfe.
    destruct (fill_loop_lookup _ _ _ _ fe Hfill) as (Ha & _ & _ & Hd).
    specialize (Hrec fe). destruct (last_election els fe) as [[c f]|] eqn:Hlast.
    + apply last_election_Some in Hlast as [_ Hf2]. simpl in *. subst f.
      rewrite (Ha _ Hrec) in Hfe. by inversion Hfe.
    + destruct (Hd Hrec) as [Hx|Hx]; rewrite Hx in Hfe; discriminate.
Qed.

(** A frame element with no fewer votes than any other has the maximum of
    the vote counts. *)
Lemma votes_maximum (fe : string) (judgments : list string) :
  fe ∈ judgments ->
  (forall fe', (votes fe' judgments <= votes fe judgments)%nat) ->
  votes fe judgments = max_list ((fun fe' => votes fe' judgments) <$> judgments).
Proof.
  intros Hin Hmax. apply Nat.le_antisymm.
  - apply max_list_elem_of_le. apply list_elem_of_fmap. by exists fe.
  - destruct (decide (votes fe judgments
                      < max_list ((fun fe' => votes fe' judgments) <$> judgments))%nat)
      as [Hlt|]; [|lia].
    assert (max_list ((fun fe' => votes fe' judgments) <$> judgments)
              ∈ (fun fe' => votes fe' judgments) <$> judgments) as Hm.
    { apply max_list_elem_of. by destruct judgments; [apply elem_of_nil in Hin|]. }
    apply list_elem_of_fmap in Hm as (fe' & Heq & _). specialize (Hmax fe'). lia.
Qed.

End Runs.

(** ** Majority voting *)

Section Majority.
Import Py ParseResults.
Local Open Scope py_scope.

Context `{mach : Machine}.

Lemma NoDup_fst_functional {A B} (l : list (A * B)) (a : A) (x y : B) :
  NoDup l.*1 -> (a, x) ∈ l -> (a, y) ∈ l -> x = y.
Proof.
  induction l as [|[a' b'] l IH]; simpl.
  - intros _ Hx. by apply elem_of_nil in Hx.
  - intros Hnd Hx Hy. apply NoDup_cons in Hnd as [Hnotin Hnd].
    apply elem_of_cons in Hx as [Hx|Hx], Hy as [Hy|Hy].
    + congruence.
    + inversion Hx; subst. destruct Hnotin. apply list_elem_of_fmap. by exists (a', y).
    + inversion Hy; subst. destruct Hnotin. apply list_elem_of_fmap. by exists (a', x).
    + by apply IH.
Qed.

(** C1. In the unit [process_unit] returns, a frame element that [fes] binds
    to a chunk was proposed for that chunk, and its number of votes among the
    judgments of the chunk is the maximum of the vote counts of the frame
    elements proposed for it; and every chunk that received a judgment
    elected such a frame element, which [fes] binds to a chunk that elected
    it. *)
Theorem process_unit_majority_vote (unit_id : option string) (sentences : list row)
    (o o' : oracle) (u : gmap string field) :
  process_unit unit_id sentences o = inr (u, o') ->
  exists chunks els fes,
    judgments_of sentences = inr chunks /\
    elections_of sentences o = inr els /\
    u !! "fes" = Some (FFes fes) /\
    (forall fe chunk, fes !! fe = Some (Some chunk) ->
       exists judgments,
         chunks !! chunk = Some judgments /\ judgments <> [] /\ fe ∈ judgments /\
         votes fe judgments
         = max_list ((fun fe' => votes fe' judgments) <$> judgments)) /\
    (forall chunk judgments, chunks !! chunk = Some judgments ->
       exists fe chunk',
         (chunk, fe) ∈ els /\ (chunk', fe) ∈ els /\
         fe ∈ judgments /\
         votes fe judgments
         = max_list ((fun fe' => votes fe' judgments) <$> judgments) /\
         fes !! fe = Some (Some chunk')).
Proof.
  intros Hrun. apply process_unit_run, unit_run_facts in Hrun
    as (first & m & chunks & els & fes & Hfirst & Hm & Hj & Hels & Hu & Hnd
        & Hdom & Hmax & Hlast & _ & _ & Hinv).
  exists chunks, els, fes. repeat split; try done.
  - intros fe chunk Hfe. apply Hinv, last_election_Some in Hfe as [Hin _].
    destruct (Hmax _ _ Hin) as (js & Hjs & Hfe & Hle).
    exists js. repeat split; try done.
    + intros ->. by apply elem_of_nil in Hfe.
    + by apply votes_maximum.
  - intros chunk js Hjs.
    assert (chunk ∈ els.*1) as Hin by (apply Hdom; eauto).
    apply list_elem_of_fmap in Hin as ([c fe] & -> & Hin). simpl in *.
    destruct (Hmax _ _ Hin) as (js' & Hjs' & Hfe & Hle).
    assert (js' = js) as -> by congruence.
    destruct (last_election els fe) as [[c' f]|] eqn:Hl.
    + pose proof (Hlast _ _ Hl) as Hfes.
      apply last_election_Some in Hl as [Hin' Hf]. simpl in *. subst f.
      exists fe, c'. repeat split; try done. by apply votes_maximum.
    + pose proof (proj1 (last_election_None _ _) Hl) as Hno. by destruct (Hno c).
Qed.


End Majority.

Section MajorityExamples.
Import Py ParseResults.
Local Open Scope py_scope.

#[local] Existing Instance Samples.linux64.

Lemma process_unit_majority_vote_witness :
  exists chunks els fes,
    judgments_of Samples.unit_7 = inr chunks /\
    elections_of Samples.unit_7 Samples.plain = inr els /\
    ({[ "id" := FStr (Some "s1"); "sentence" := FStr (Some "A b c");
        "frame" := FStr (Some "F");
        "fes" := FFes {[ "Agent" := Some "b"; "Theme" := None; "Place" := None ]} ]}
       : gmap string field) !! "fes" = Some (FFes fes) /\
    (forall fe chunk, fes !! fe = Some (Some chunk) ->
       exists judgments,
         chunks !! chunk = Some judgments /\ judgments <> [] /\ fe ∈ judgments /\
         votes fe judgments
         = max_list ((fun fe' => votes fe' judgments) <$> judgments)) /\
    (forall chunk judgments, chunks !! chunk = Some judgments ->
       exists fe chunk',
         (chunk, fe) ∈ els /\ (chunk', fe) ∈ els /\
         fe ∈ judgments /\
         votes fe judgments
         = max_list ((fun fe' => votes fe' judgments) <$> judgments) /\
         fes !! fe = Some (Some chunk')).
Proof.
  apply (process_unit_majority_vote (Some "7") Samples.unit_7 Samples.plain Samples.plain).
  vm_compute. reflexivity.
Defined.

End MajorityExamples.

(** ** The keys of [fes] *)

Section FesKeys.
Import Py ParseResults.
Local Open Scope py_scope.

Context `{mach : Machine}.

(** C7, as the code has it.  In the unit [process_unit] returns, [fes]
    binds a frame element to at most one chunk; every non-empty frame element of a column [fe_XX] of
    the first row is a key of [fes], bound to [None] exactly when no chunk
    elected it; and when two distinct chunks elected the same frame element,
    that frame element is bound to one chunk that elected it, the two chunks
    are not both retained, and one of them is retained when no third chunk
    elected the frame element. *)
Theorem process_unit_fes_keys (unit_id : option string) (sentences : list row)
    (o o' : oracle) (u : gmap string field) :
  process_unit unit_id sentences o = inr (u, o') ->
  exists first els fes,
    sentences !! 0%nat = Some first /\
    elections_of sentences o = inr els /\
    u !! "fes" = Some (FFes fes) /\
    (forall fe c1 c2,
       fes !! fe = Some (Some c1) -> fes !! fe = Some (Some c2) -> c1 = c2) /\
    (forall i fe,
       first !! ("fe_" ++ fmt02 i)%string = Some (Some fe) -> fe <> "" ->
       is_Some (fes !! fe) /\
       (fes !! fe = Some None <-> forall chunk, (chunk, fe) ∉ els)) /\
    (forall c1 c2 fe,
       c1 <> c2 -> (c1, fe) ∈ els -> (c2, fe) ∈ els ->
       (exists c, (c, fe) ∈ els /\ fes !! fe = Some (Some c)) /\
       ~ (retained fes c1 /\ retained fes c2) /\
       ((forall c, (c, fe) ∈ els -> c = c1 \/ c = c2) ->
        retained fes c1 \/ retained fes c2)).
Proof.
  intros Hrun. apply process_unit_run, unit_run_facts in Hrun
    as (first & m & chunks & els & fes & Hfirst & Hm & Hj & Hels & Hu & Hnd
        & Hdom & Hmax & Hlast & Hnone & _ & Hinv).
  exists first, els, fes. repeat split; try done.
  - intros fe c1 c2 H1 H2. congruence.
  - destruct (last_election els fe) as [el|] eqn:Hl.
    + rewrite (Hlast _ _ Hl). eauto.
    + rewrite Hnone; [eauto | done |]. split; [done|].
      exists i. split; [|done]. apply list_elem_of_In, in_seq.
      assert (i < m)%nat by (eapply fe_column_lt; eauto). lia.
  - intros Hfe chunk Hin.
    destruct (last_election els fe) as [el|] eqn:Hl.
    + rewrite (Hlast _ _ Hl) in Hfe. discriminate.
    + by destruct (proj1 (last_election_None _ _) Hl chunk).
  - intros Hno. apply Hnone.
    + by apply last_election_None.
    + split; [done|]. exists i. split; [|done]. apply list_elem_of_In, in_seq.
      assert (i < m)%nat by (eapply fe_column_lt; eauto). lia.
  - destruct (last_election els fe) as [[c f]|] eqn:Hl.
    + pose proof (Hlast _ _ Hl) as Hfes.
      apply last_election_Some in Hl as [Hin Hf]. simpl in *. subst f. eauto.
    + by destruct (proj1 (last_election_None _ _) Hl c1).
  - intros [[f1 Hf1] [f2 Hf2]].
    apply Hinv in Hf1, Hf2.
    pose proof (last_election_Some _ _ _ Hf1) as [Hin1 _].
    pose proof (last_election_Some _ _ _ Hf2) as [Hin2 _].
    assert (f1 = fe) as -> by (eapply NoDup_fst_functional; eauto).
    assert (f2 = fe) as -> by (eapply NoDup_fst_functional; eauto).
    congruence.
  - intros Honly. destruct (last_election els fe) as [[c f]|] eqn:Hl.
    + pose proof (Hlast _ _ Hl) as Hfes.
      apply last_election_Some in Hl as [Hin Hf]. simpl in *. subst f.
      destruct (Honly c Hin) as [->| ->]; [left | right]; by exists fe.
    + by destruct (proj1 (last_election_None _ _) Hl c1).
Qed.


End FesKeys.

Section FesKeysExamples.
Import Py ParseResults.
Local Open Scope py_scope.

#[local] Existing Instance Samples.linux64.

Lemma process_unit_fes_keys_witness :
  exists first els fes,
    Samples.unit_7 !! 0%nat = Some first /\
    elections_of Samples.unit_7 Samples.plain = inr els /\
    ({[ "id" := FStr (Some "s1"); "sentence" := FStr (Some "A b c");
        "frame" := FStr (Some "F");
        "fes" := FFes {[ "Agent" := Some "b"; "Theme" := None; "Place" := None ]} ]}
       : gmap string field) !! "fes" = Some (FFes fes) /\
    (forall fe c1 c2,
       fes !! fe = Some (Some c1) -> fes !! fe = Some (Some c2) -> c1 = c2) /\
    (forall i fe,
       first !! ("fe_" ++ fmt02 i)%string = Some (Some fe) -> fe <> "" ->
       is_Some (fes !! fe) /\
       (fes !! fe = Some None <-> forall chunk, (chunk, fe) ∉ els)) /\
    (forall c1 c2 fe,
       c1 <> c2 -> (c1, fe) ∈ els -> (c2, fe) ∈ els ->
       (exists c, (c, fe) ∈ els /\ fes !! fe = Some (Some c)) /\
       ~ (retained fes c1 /\ retained fes c2) /\
       ((forall c, (c, fe) ∈ els -> c = c1 \/ c = c2) ->
        retained fes c1 \/ retained fes c2)).
Proof.
  apply (process_unit_fes_keys (Some "7") Samples.unit_7 Samples.plain Samples.plain).
  vm_compute. reflexivity.
Defined.

(** On the sample unit both chunks elect [Agent]; [A] is dropped. *)
Example unit_7_elections :
  elections_of Samples.unit_7 Samples.plain = inr [("A", "Agent"); ("b", "Agent")].
Proof. vm_compute. reflexivity. Qed.

(** Three chunks that elect [Agent]: the frame element is bound to the
    chunk of the last election, and of the two chunks [c] and [A], which
    elected the same frame element, neither is retained. *)
Lemma process_unit_two_chunks_dropped :
  elections_of [Samples.judgment_4] Samples.plain
  = inr [("c", "Agent"); ("A", "Agent"); ("b", "Agent")] /\
  process_unit (Some "7") [Samples.judgment_4] Samples.plain
  = inr ({[ "id" := FStr (Some "s1"); "sentence" := FStr (Some "A b c");
            "frame" := FStr (Some "F");
            "fes" := FFes {[ "Agent" := Some "b"; "Theme" := None;
                             "Place" := None ]} ]},
         Samples.plain) /\
  ~ retained {[ "Agent" := Some "b"; "Theme" := None; "Place" := None ]} "c" /\
  ~ retained {[ "Agent" := Some "b"; "Theme" := None; "Place" := None ]} "A".
Proof.
  split_and!; try (vm_compute; reflexivity).
  - intros [fe Hfe].
    destruct (decide (fe = "Agent")) as [->|H1]; [vm_compute in Hfe; discriminate|].
    destruct (decide (fe = "Theme")) as [->|H2]; [vm_compute in Hfe; discriminate|].
    destruct (decide (fe = "Place")) as [->|H3]; [vm_compute in Hfe; discriminate|].
    rewrite !lookup_insert_ne in Hfe by done.
    rewrite lookup_singleton_ne in Hfe by done. discriminate.
  - intros [fe Hfe].
    destruct (decide (fe = "Agent")) as [->|H1]; [vm_compute in Hfe; discriminate|].
    destruct (decide (fe = "Theme")) as [->|H2]; [vm_compute in Hfe; discriminate|].
    destruct (decide (fe = "Place")) as [->|H3]; [vm_compute in Hfe; discriminate|].
    rewrite !lookup_insert_ne in Hfe by done.
    rewrite lookup_singleton_ne in Hfe by done. discriminate.
Qed.

End FesKeysExamples.

(** ** The assertions of [process_unit] *)

Section Assertions.
Import Py ParseResults.
Local Open Scope py_scope.

Context `{mach : Machine}.

Lemma foldM_inr_each {A S} (f : S -> A -> result S) (xs : list A) (s s' : S) :
  foldM f s xs = inr s' ->
  forall x, x ∈ xs -> exists s1 s2, f s1 x = inr s2.
Proof.
  revert s. induction xs as [|y xs IH]; intros s H x Hx; simpl in H.
  - by apply elem_of_nil in Hx.
  - apply bind_inr in H as (s1 & Hs1 & H).
    apply elem_of_cons in Hx as [->|Hx]; [eauto | by eapply IH].
Qed.

Lemma add_judgment_inr_cells (each : row) (chunks chunks' : gmap string (list string))
    (i : nat) :
  add_judgment each chunks i = inr chunks' ->
  is_Some (each !! ("answer_chunk_" ++ fmt02 i)%string) /\
  is_Some (each !! ("chunk_" ++ fmt02 i)%string).
Proof.
  unfold add_judgment. intros H.
  apply bind_inr in H as (fe & Hfe & H). apply bind_inr in H as (chunk & Hchunk & _).
  apply getitem_inr in Hfe, Hchunk. eauto.
Qed.

Lemma collect_judgments_inr_cells (n : nat) (sentences : list row)
    (chunks : gmap string (list string)) :
  collect_judgments n sentences = inr chunks -> Forall (has_cells n) sentences.
Proof.
  unfold collect_judgments. intros H. apply Forall_forall. intros each Hin i Hi.
  destruct (foldM_inr_each _ _ _ _ H each Hin) as (s1 & s2 & Hrow).
  destruct (foldM_inr_each _ _ _ _ Hrow i) as (s3 & s4 & Hcell).
  { apply list_elem_of_In, in_seq. lia. }
  by eapply add_judgment_inr_cells.
Qed.

Lemma fill_missing_inr_cell (first : row) (fes fes' : gmap string (option string)) (i : nat) :
  fill_missing first fes i = inr fes' ->
  is_Some (first !! ("fe_" ++ fmt02 i)%string).
Proof.
  unfold fill_missing. intros H. apply bind_inr in H as (fe & Hfe & _).
  apply getitem_inr in Hfe. eauto.
Qed.

(** When the assertions pass, [process_unit] returns exactly on the rows
    whose columns are in order, whatever the oracle. *)
Lemma process_unit_returns_iff (unit_id : option string) (sentences : list row) (o : oracle) :
  check_unit unit_id sentences = inr tt ->
  (exists u o', process_unit unit_id sentences o = inr (u, o')) <-> columns_ok sentences.
Proof.
  intros Hcheck. split.
  - intros (u & o' & Hrun). apply process_unit_run in Hrun.
    destruct Hrun as [first n m chunks items o1 fes0 o2 fes id sn fr ks o0
                        _ Hf Hn Hm Hch _ _ Hfill _ _ _ _ Hnle Hmle].
    exists first, n, m. split_and!; try done.
    + by eapply column_count_surplus.
    + intros s i Hs Hi.
      apply collect_judgments_inr_cells in Hch. rewrite Forall_forall in Hch.
      by apply (Hch s).
    + intros i Hi. destruct (foldM_inr_each _ _ _ _ Hfill i) as (s1 & s2 & Hcell).
      { apply list_elem_of_In, in_seq. lia. }
      by eapply fill_missing_inr_cell.
  - intros (first & n & m & Hf & _ & Hn & Hm & Hnle & Hmle & Hcells & Hfe).
    destruct (collect_judgments_ok n sentences) as [chunks Hch].
    { apply Forall_forall. intros s Hs i Hi. by apply Hcells. }
    destruct (keys_ok first o) as (ks & o0 & Hks).
    destruct (iteritems_ok chunks o0) as (items & o1 & Hit).
    destruct (elections_ok items o1) as (els & o2 & Hels).
    { intros chunk js Hin. apply iteritems_inr in Hit. rewrite Hit in Hin.
      apply elem_of_map_to_list in Hin.
      by apply (collect_judgments_judged _ _ _ Hch chunk). }
    destruct (fill_loop_ok first (seq 0 m) (record_elections els ∅)) as [fes Hfill].
    { intros i Hi. apply Hfe. apply list_elem_of_In, in_seq in Hi. lia. }
    apply check_unit_inr in Hcheck as Hag.
    destruct Hag as (_ & _ & [id Hid] & [sn Hsn] & [fr Hfr]).
    assert (first ∈ sentences) as Hin by by eapply list_elem_of_lookup_2.
    eexists _, o2. apply process_unit_run.
    eapply UnitRun with (first := first) (n := n) (m := m) (chunks := chunks)
                        (items := items) (o1 := o1) (ks := ks) (o0 := o0); eauto.
    apply vote_elections. eauto.
Qed.


End Assertions.

Section AssertionsExamples.
Import Py ParseResults.
Local Open Scope py_scope.

#[local] Existing Instance Samples.linux64.

Local Ltac each_row Hs :=
  repeat (apply elem_of_cons in Hs as [->|Hs]);
  [.. | by apply elem_of_nil in Hs].

Lemma unit_7_agrees (name : string) :
  name ∈ checked_columns -> exists v, agree_on name v Samples.unit_7.
Proof.
  intros Hname. unfold checked_columns in Hname.
  repeat (apply elem_of_cons in Hname as [->|Hname]);
    [exists (Some "7") | exists (Some "s1") | exists (Some "A b c") | exists (Some "F")
     | by apply elem_of_nil in Hname];
    intros s Hs; unfold Samples.unit_7 in Hs; each_row Hs; reflexivity.
Qed.


Lemma unit_7_columns_ok : columns_ok Samples.unit_7.
Proof.
  exists Samples.judgment_1, 2%nat, 3%nat.
  split; [reflexivity|]. split; [reflexivity|].
  split; [vm_compute; reflexivity|].
  split; [vm_compute; reflexivity|].
  split; [vm_compute; discriminate|].
  split; [vm_compute; discriminate|]. split.
  - intros s i Hs Hi. unfold Samples.unit_7 in Hs.
    destruct i as [|[|i]]; [| |lia]; each_row Hs; split; vm_compute; eauto.
  - intros i Hi. destruct i as [|[|[|i]]]; [| | |lia]; vm_compute; eauto.
Qed.




End AssertionsExamples.

(** ** [main] of [parse_results.py] *)

Section Main.
Import Py ParseResults.
Local Open Scope py_scope.

Context `{mach : Machine}.
Variable json_dumps : gmap string field -> result string.

Local Abbreviation write_units := (write_units json_dumps).
Local Abbreviation main := (main json_dumps).
Local Abbreviation dump_units := (dump_units json_dumps).
Local Abbreviation line_of := (line_of json_dumps).

Lemma unit_rows_cons (k : option string) (r : row) (results : list row) :
  unit_rows k (r :: results)
  = if bool_decide (r !! "_unit_id" = Some k)
    then r :: unit_rows k results else unit_rows k results.
Proof. done. Qed.

Lemma elem_of_unit_rows (k : option string) (results : list row) (r : row) :
  r ∈ unit_rows k results <-> r ∈ results /\ r !! "_unit_id" = Some k.
Proof.
  unfold unit_rows. rewrite list_elem_of_In, filter_In, <- list_elem_of_In.
  by rewrite bool_decide_eq_true.
Qed.

Lemma group_fold (acc sentences : gmap (option string) (list row)) (results : list row) :
  foldM (fun (sentences : gmap (option string) (list row)) (each : row) =>
           do k <- getitem each "_unit_id";
           ret (<[k := default [] (sentences !! k) ++ [each]]> sentences))
        acc results = inr sentences ->
  (forall k, default [] (sentences !! k) = default [] (acc !! k) ++ unit_rows k results) /\
  ((forall k v, acc !! k = Some v -> v <> []) ->
   forall k v, sentences !! k = Some v -> v <> []).
Proof.
  revert acc. induction results as [|r results IH]; intros acc H; simpl in H.
  - inversion H; subst. split; [|done]. intros k. by rewrite app_nil_r.
  - apply bind_inr in H as (acc1 & H1 & H).
    apply bind_inr in H1 as (k0 & Hk0 & H1). apply getitem_inr in Hk0.
    inversion H1; subst acc1. clear H1.
    destruct (IH _ H) as [IHa IHb]. split.
    + intros k. rewrite IHa, unit_rows_cons, Hk0.
      destruct (decide (k0 = k)) as [->|Hne].
      * rewrite lookup_insert_eq, bool_decide_eq_true_2 by done.
        simpl. by rewrite <- app_assoc.
      * rewrite lookup_insert_ne by done.
        rewrite bool_decide_eq_false_2; [done | congruence].
    + intros Hacc. apply IHb. intros k v.
      destruct (decide (k0 = k)) as [->|Hne].
      * rewrite lookup_insert_eq. intros Heq. inversion Heq.
        by destruct (default [] (acc !! k)).
      * rewrite lookup_insert_ne by done. apply Hacc.
Qed.

(** The groups of [main]: under each unit id, its rows in the order of the
    file, and no empty group. *)
Lemma group_rows_inr (results : list row) (sentences : gmap (option string) (list row)) :
  group_rows results = inr sentences ->
  forall k v, sentences !! k = Some v <-> v = unit_rows k results /\ v <> [].
Proof.
  unfold group_rows. intros H. apply group_fold in H as [Ha Hb].
  assert (forall k v, sentences !! k = Some v -> v <> []) as Hne.
  { apply Hb. intros k v. by rewrite lookup_empty. }
  intros k v. specialize (Ha k). rewrite lookup_empty in Ha. simpl in Ha. split.
  - intros Hk. split; [|by eapply Hne]. rewrite Hk in Ha. by simpl in Ha.
  - intros [-> Hv]. destruct (sentences !! k) as [w|]; simpl in Ha.
    + by rewrite Ha.
    + by rewrite Ha in Hv.
Qed.

Lemma group_rows_ok (results : list row) :
  Forall (fun r : row => is_Some (r !! "_unit_id")) results ->
  exists sentences, group_rows results = inr sentences.
Proof.
  intros Hall. unfold group_rows.
  match goal with
  | |- exists s, foldM ?f ?a ?l = inr s =>
      destruct (foldM_inv f (fun _ => True) l a) as (s & Hs & _); [done | | eauto]
  end.
  intros s r Hr _. rewrite Forall_forall in Hall.
  destruct (Hall r Hr) as [k Hk]. unfold getitem. rewrite Hk. simpl.
  unfold ret. eauto.
Qed.

(** The units are processed and written in turn: the items met before the
    first failure, their units, and the lines of the units. *)
Lemma write_units_lines (items : list (option string * list row)) (o : oracle) :
  exists written units,
    written `prefix_of` items /\
    Forall2 (fun (kv : option string * list row) unit =>
               exists o1 o2, process_unit kv.1 kv.2 o1 = inr (unit, o2))
            written units /\
    Forall2 (fun unit line => json_dumps unit = inr line)
            units (write_units items o).1 /\
    ((write_units items o).2 = None -> written = items).
Proof.
  revert o. induction items as [|[k v] items IH]; intros o; simpl.
  - exists [], []. by repeat split.
  - destruct (process_unit k v o) as [e|[processed o1]] eqn:Hp; simpl.
    + exists [], []. repeat split; [apply prefix_nil | constructor | constructor | done].
    + destruct (json_dumps processed) as [e|line] eqn:Hd; simpl.
      * exists [], []. repeat split;
          [apply prefix_nil | constructor | constructor | done].
      * destruct (IH o1) as (written & units & Hpre & Hall & Hlines & Hnone).
        destruct (ParseResults.write_units json_dumps items o1) as [out status].
        simpl in *.
        exists ((k, v) :: written), (processed :: units). repeat split.
        -- by apply prefix_cons.
        -- constructor; [|done]. simpl. eauto.
        -- by constructor.
        -- intros Hs. by rewrite (Hnone Hs).
Qed.

(** When [process_unit] rejects no item, the output is that of [json.dumps]
    on one unit per item. *)
Lemma write_units_dump (items : list (option string * list row)) (o : oracle) :
  (forall k v, (k, v) ∈ items -> forall o1, exists u o2, process_unit k v o1 = inr (u, o2)) ->
  exists units,
    Forall2 (fun (kv : option string * list row) unit =>
               exists o1 o2, process_unit kv.1 kv.2 o1 = inr (unit, o2))
            items units /\
    write_units items o = dump_units units.
Proof.
  revert o. induction items as [|[k v] items IH]; intros o Hok; simpl.
  - exists []. split; [constructor | done].
  - destruct (Hok k v (list_elem_of_here _ _) o) as (u & o1 & Hu).
    destruct (IH o1) as (units & Hall & Hw).
    { intros k' v' Hin. apply Hok. by right. }
    exists (u :: units). split.
    + constructor; [simpl; eauto | done].
    + rewrite Hu. simpl. by rewrite Hw.
Qed.

Lemma dump_units_ok (units : list (gmap string field)) :
  Forall (fun unit => exists line, json_dumps unit = inr line) units ->
  exists lines,
    dump_units units = (lines, None) /\
    Forall2 (fun unit line => json_dumps unit = inr line) units lines.
Proof.
  induction 1 as [|unit units [line Hline] _ (lines & Hd & Hall)]; simpl.
  - exists []. split; [done | constructor].
  - exists (line :: lines). rewrite Hline, Hd. split; [done | by constructor].
Qed.

Lemma elem_of_unit_ids (k : option string) (results : list row) :
  k ∈ unit_ids results <-> unit_rows k results <> [].
Proof.
  unfold unit_ids. rewrite elem_of_list_to_set, list_elem_of_omap. split.
  - intros (r & Hr & Hk) Hnil.
    assert (r ∈ unit_rows k results) as Hin by by apply elem_of_unit_rows.
    rewrite Hnil in Hin. by apply elem_of_nil in Hin.
  - intros Hne. destruct (unit_rows k results) as [|r rest] eqn:Hrows; [done|].
    assert (r ∈ unit_rows k results) as Hin by (rewrite Hrows; left).
    apply elem_of_unit_rows in Hin as [Hin Hk]. eauto.
Qed.

(** What [process_unit] returns is an object with the four keys, whose
    [id], [sentence] and [frame] are those of the rows. *)
Lemma process_unit_line (k : option string) (v : list row) (o o' : oracle)
    (line : gmap string field) :
  process_unit k v o = inr (line, o') ->
  dom line = ({["id"; "sentence"; "frame"; "fes"]} : gset string) /\
  forall name, name ∈ ["id"; "sentence"; "frame"] ->
    exists val, line !! name = Some (FStr val) /\ agree_on name val v.
Proof.
  intros Hrun. apply process_unit_run in Hrun.
  destruct Hrun as [first n m chunks items o1 fes0 o2 fes id sn fr ks o0
                      Hc Hf _ _ _ _ _ _ Hid Hsn Hfr _ _ _].
  split.
  - rewrite !dom_insert_L, dom_singleton_L. set_solver.
  - apply check_unit_inr in Hc as (_ & _ & [vi Hi] & [vs Hs] & [vf Hfm]).
    assert (first ∈ v) as Hin by by eapply list_elem_of_lookup_2.
    intros name Hname.
    repeat (apply elem_of_cons in Hname as [->|Hname]);
      [exists id | exists sn | exists fr | by apply elem_of_nil in Hname];
      (split; [by simplify_map_eq|]).
    + rewrite (Hi first Hin) in Hid. inversion Hid. by subst.
    + rewrite (Hs first Hin) in Hsn. inversion Hsn. by subst.
    + rewrite (Hfm first Hin) in Hfr. inversion Hfr. by subst.
Qed.

Lemma process_unit_unit_of (results : list row) (k : option string) (o o' : oracle)
    (unit : gmap string field) :
  process_unit k (unit_rows k results) o = inr (unit, o') -> unit_of results k unit.
Proof.
  intros Hrun. destruct (process_unit_line _ _ _ _ _ Hrun) as [Hdom Hfields].
  split; [done|]. split; [eauto | done].
Qed.

(** On any file: the lines written are lines of distinct units of the file,
    and when [main] ends without an exception no unit is left out. *)
Lemma main_lines (results : list row) (o : oracle) :
  exists ks,
    NoDup ks /\
    (forall k, k ∈ ks -> k ∈ unit_ids results) /\
    Forall2 (line_of results) ks (main results o).1 /\
    ((main results o).2 = None -> forall k, k ∈ unit_ids results -> k ∈ ks).
Proof.
  unfold ParseResults.main. destruct (group_rows results) as [e|sentences] eqn:Hg.
  { exists []. repeat split; [constructor | | constructor | done].
    intros k Hk. by apply elem_of_nil in Hk. }
  pose proof (group_rows_inr _ _ Hg) as Hgroups.
  destruct (iteritems_ok sentences o) as (items & o1 & Hit). rewrite Hit.
  apply iteritems_inr in Hit.
  assert (forall k v, (k, v) ∈ items <-> v = unit_rows k results /\ v <> []) as Hitems.
  { intros k v. by rewrite Hit, elem_of_map_to_list. }
  destruct (write_units_lines items o1)
    as (written & units & Hpre & Hall & Hlines & Hnone).
  exists written.*1. repeat split.
  - assert (NoDup items.*1) as Hnd by (rewrite Hit; apply NoDup_fst_map_to_list).
    destruct Hpre as [rest Hrest]. rewrite Hrest, fmap_app in Hnd.
    by apply NoDup_app in Hnd as [? _].
  - intros k Hk. apply list_elem_of_fmap in Hk as ([k' v] & -> & Hin). simpl.
    assert ((k', v) ∈ items) as Hin'.
    { destruct Hpre as [rest ->]. apply elem_of_app. by left. }
    apply Hitems in Hin' as [-> Hne]. by apply elem_of_unit_ids.
  - apply Forall2_fmap_l. apply Forall2_same_length_lookup.
    split; [rewrite (Forall2_length _ _ _ Hall); by eapply Forall2_length|].
    intros i [k v] line Hkv Hline.
    destruct (Forall2_lookup_l _ _ _ _ _ Hall Hkv) as (unit & Hunit & oa & ob & Hrun).
    destruct (Forall2_lookup_l _ _ _ _ _ Hlines Hunit) as (line' & Hline' & Hd).
    assert (line' = line) as -> by congruence.
    simpl in *.
    assert ((k, v) ∈ items) as Hin.
    { destruct Hpre as [rest ->]. apply elem_of_app. left.
      by eapply list_elem_of_lookup_2. }
    apply Hitems in Hin as [-> Hne].
    exists unit. split; [by eapply process_unit_unit_of | done].
  - intros Hs k Hk. rewrite (Hnone Hs).
    apply elem_of_unit_ids in Hk. apply list_elem_of_fmap.
    exists (k, unit_rows k results). split; [done|]. by apply Hitems.
Qed.

(** C4, as the code has it.  On results in which every row has a unit id and
    no unit is rejected by [process_unit], [main] processes one unit per
    distinct unit id, each an object with the keys [id], [sentence], [frame]
    and [fes] taken from the rows of that unit, and its output is what
    [json.dumps] makes of these units, one line each, up to the first on
    which it raises; when [json.dumps] raises on none, [main] ends without
    an exception and has written exactly one line per distinct unit id. *)
Theorem main_one_line_per_unit (results : list row) (o : oracle) :
  crowd_results results ->
  exists ks units,
    ks ≡ₚ elements (unit_ids results) /\
    Forall2 (unit_of results) ks units /\
    main results o = dump_units units /\
    (Forall (fun unit => exists line, json_dumps unit = inr line) units ->
     (main results o).2 = None /\
     length (main results o).1 = size (unit_ids results) /\
     Forall2 (line_of results) ks (main results o).1).
Proof.
  intros [Hids Hunits].
  unfold ParseResults.main. destruct (group_rows_ok results Hids) as [sentences Hg].
  rewrite Hg. pose proof (group_rows_inr _ _ Hg) as Hgroups.
  destruct (iteritems_ok sentences o) as (items & o1 & Hit). rewrite Hit.
  apply iteritems_inr in Hit.
  assert (forall k v, (k, v) ∈ items <-> v = unit_rows k results /\ v <> []) as Hitems.
  { intros k v. by rewrite Hit, elem_of_map_to_list. }
  destruct (write_units_dump items o1) as (units & Hall & Hw).
  { intros k v Hin oa. apply Hitems in Hin as [-> Hne].
    destruct (Hunits k) as (Hi & Hs & Hf & Hcols); [by apply elem_of_unit_ids|].
    apply process_unit_returns_iff; [|done].
    apply check_unit_inr. repeat split; try done.
    intros s Hs'. by apply elem_of_unit_rows in Hs' as [_ ?]. }
  assert (items.*1 ≡ₚ elements (unit_ids results)) as Hks.
  { apply NoDup_Permutation.
    - rewrite Hit. apply NoDup_fst_map_to_list.
    - apply NoDup_elements.
    - intros k. rewrite elem_of_elements, elem_of_unit_ids. split.
      + intros Hk. apply list_elem_of_fmap in Hk as ([k' v] & -> & Hin).
        by apply Hitems in Hin as [-> Hne].
      + intros Hne. apply list_elem_of_fmap. exists (k, unit_rows k results).
        split; [done|]. by apply Hitems. }
  assert (Forall2 (unit_of results) items.*1 units) as Hof.
  { apply Forall2_fmap_l, Forall2_same_length_lookup.
    split; [by eapply Forall2_length|].
    intros i [k v] unit Hkv Hunit.
    destruct (Forall2_lookup_lr _ _ _ _ _ _ Hall Hkv Hunit) as (oa & ob & Hrun).
    simpl in *.
    assert ((k, v) ∈ items) as Hin by by eapply list_elem_of_lookup_2.
    apply Hitems in Hin as [-> Hne]. by eapply process_unit_unit_of. }
  exists items.*1, units. split_and!; try done.
  intros Hrender. rewrite Hw.
  destruct (dump_units_ok units Hrender) as (lines & Hd & Hlines).
  rewrite Hd. simpl. split_and!; [done | |].
  - rewrite <- (Forall2_length _ _ _ Hlines), <- (Forall2_length _ _ _ Hof).
    by rewrite Hks.
  - apply Forall2_same_length_lookup.
    split; [rewrite (Forall2_length _ _ _ Hof); by eapply Forall2_length|].
    intros i k line Hk Hline.
    destruct (Forall2_lookup_l _ _ _ _ _ Hof Hk) as (unit & Hunit & Hu).
    destruct (Forall2_lookup_l _ _ _ _ _ Hlines Hunit) as (line' & Hline' & Hdl).
    assert (line' = line) as -> by congruence.
    by exists unit.
Qed.

End Main.

Section MainExamples.
Import Py ParseResults.
Local Open Scope py_scope.

#[local] Existing Instance Samples.linux64.

Local Ltac each_row Hs :=
  repeat (apply elem_of_cons in Hs as [->|Hs]);
  [.. | by apply elem_of_nil in Hs].

Lemma unit_8_columns_ok : columns_ok [Samples.judgment_8].
Proof.
  exists Samples.judgment_8, 2%nat, 3%nat.
  split; [reflexivity|]. split; [reflexivity|].
  split; [vm_compute; reflexivity|].
  split; [vm_compute; reflexivity|].
  split; [vm_compute; discriminate|].
  split; [vm_compute; discriminate|]. split.
  - intros s i Hs Hi.
    destruct i as [|[|i]]; [| |lia]; each_row Hs; split; vm_compute; eauto.
  - intros i Hi. destruct i as [|[|[|i]]]; [| | |lia]; vm_compute; eauto.
Qed.

Lemma two_units_rows :
  unit_rows (Some "7") Samples.two_units = Samples.unit_7 /\
  unit_rows (Some "8") Samples.two_units = [Samples.judgment_8].
Proof. split; vm_compute; reflexivity. Qed.

Lemma two_units_ids (k : option string) :
  k ∈ unit_ids Samples.two_units -> k = Some "7" \/ k = Some "8".
Proof.
  unfold unit_ids. rewrite elem_of_list_to_set, list_elem_of_omap.
  intros (r & Hr & Hk). unfold Samples.two_units in Hr.
  each_row Hr; vm_compute in Hk; inversion Hk; auto.
Qed.

Lemma two_units_crowd_results : crowd_results Samples.two_units.
Proof.
  split.
  - repeat constructor; vm_compute; eauto.
  - intros k Hk. destruct two_units_rows as [H7 H8].
    apply two_units_ids in Hk as [->| ->].
    + rewrite H7. repeat split.
      * apply unit_7_agrees, list_elem_of_In; simpl; tauto.
      * apply unit_7_agrees, list_elem_of_In; simpl; tauto.
      * apply unit_7_agrees, list_elem_of_In; simpl; tauto.
      * apply unit_7_columns_ok.
    + rewrite H8. repeat split.
      * exists (Some "s1"). intros s Hs. each_row Hs. reflexivity.
      * exists (Some "A b c"). intros s Hs. each_row Hs. reflexivity.
      * exists (Some "F"). intros s Hs. each_row Hs. reflexivity.
      * apply unit_8_columns_ok.
Qed.

Lemma main_one_line_per_unit_witness :
  exists ks units,
    ks ≡ₚ elements (unit_ids Samples.two_units) /\
    Forall2 (unit_of Samples.two_units) ks units /\
    main Samples.sample_dumps Samples.two_units Samples.plain
    = dump_units Samples.sample_dumps units /\
    (Forall (fun unit => exists line, Samples.sample_dumps unit = inr line) units ->
     (main Samples.sample_dumps Samples.two_units Samples.plain).2 = None /\
     length (main Samples.sample_dumps Samples.two_units Samples.plain).1
     = size (unit_ids Samples.two_units) /\
     Forall2 (line_of Samples.sample_dumps Samples.two_units) ks
             (main Samples.sample_dumps Samples.two_units Samples.plain).1).
Proof.
  apply (main_one_line_per_unit Samples.sample_dumps Samples.two_units Samples.plain).
  apply two_units_crowd_results.
Defined.

(** On the two units the stand-in encoder raises on none, and two lines are
    written. *)
Example main_two_units :
  (main Samples.sample_dumps Samples.two_units Samples.plain).2 = None /\
  length (main Samples.sample_dumps Samples.two_units Samples.plain).1 = 2%nat /\
  size (unit_ids Samples.two_units) = 2%nat.
Proof. split_and!; vm_compute; reflexivity. Qed.

(** Two rows of one unit that give different sentences: the file has one
    unit id, [process_unit] fails its third assertion, and [main] ends with
    that exception and no line written.  A row whose sentence is not UTF-8:
    the file has one unit id, [process_unit] returns its unit, the encoder
    raises on it, and [main] ends with that exception and no line written. *)
Lemma main_rejected_unit_writes_no_line :
  (elements (unit_ids Samples.disagreeing) = [Some "7"] /\
   main Samples.sample_dumps Samples.disagreeing Samples.plain
   = ([], Some AssertionError)) /\
  (elements (unit_ids [Samples.latin_1]) = [Some "7"] /\
   (exists u o', process_unit (Some "7") [Samples.latin_1] Samples.plain = inr (u, o')) /\
   main Samples.sample_dumps [Samples.latin_1] Samples.plain
   = ([], Some UnicodeDecodeError)).
Proof.
  split_and!; try (vm_compute; reflexivity).
  eexists _, _. vm_compute. reflexivity.
Qed.

End MainExamples.

(** ** [TTPosTagger.tag_many] *)

Section TagMany.
Import Py PosTag.
Local Open Scope py_scope.

Variable tree_tagger : value -> list tag.

Lemma postprocess_tags_true (tags : list tag) :
  postprocess_tags tags true = inr (List.filter (fun t => negb (unknown t)) tags).
Proof.
  induction tags as [|t tags IH]; simpl; [done|].
  rewrite IH. destruct t as [w p l|w]; simpl; [|done].
  by destruct (String.eqb l "<unknown>").
Qed.

(** [_finalize_batch] waits for each job and yields its item, in order, and
    does not raise. *)
Lemma finalize_batch_events (jobs : list (item * job)) (pos_tag_key : string) :
  finalize_batch tree_tagger jobs pos_tag_key
  = (flat_map (fun j => [Wait (job_id j.2); Yield (finished tree_tagger pos_tag_key j)]) jobs, None).
Proof.
  induction jobs as [|[it j] jobs IH]; simpl; [done|].
  rewrite postprocess_tags_true, IH. done.
Qed.

Lemma yields_app (evs1 evs2 : list event) :
  yields (evs1 ++ evs2) = yields evs1 ++ yields evs2.
Proof. unfold yields. apply omap_app. Qed.

Lemma yields_finalize (jobs : list (item * job)) (pos_tag_key : string) :
  yields (flat_map (fun j => [Wait (job_id j.2); Yield (finished tree_tagger pos_tag_key j)]) jobs)
  = map (finished tree_tagger pos_tag_key) jobs.
Proof. induction jobs as [|j jobs IH]; simpl; [done | by f_equal]. Qed.

Lemma eligible_Some (document_key : string) (it : item) :
  eligible document_key it = true -> exists text, it !! document_key = Some text.
Proof. unfold eligible. destruct (it !! document_key); [eauto | done]. Qed.

(** With a batch size other than 0 the loop does not raise, and it yields
    the items of the pending jobs, then the eligible items that remain, each
    once and in the order of the input. *)
Lemma tag_loop_yields (document_key pos_tag_key : string) (batch_size : Z)
    (i : nat) (items : list item) (jobs : list (item * job)) :
  batch_size <> 0%Z ->
  (tag_loop tree_tagger document_key pos_tag_key batch_size i items jobs).2 = None /\
  yields (tag_loop tree_tagger document_key pos_tag_key batch_size i items jobs).1
  = map (finished tree_tagger pos_tag_key) jobs
    ++ map (tagged tree_tagger document_key pos_tag_key)
           (List.filter (eligible document_key) items).
Proof.
  intros Hbs. revert i jobs. induction items as [|it items IH]; intros i jobs; simpl.
  - rewrite finalize_batch_events. simpl. by rewrite yields_finalize, app_nil_r.
  - fold (eligible document_key it).
    destruct (eligible document_key it) eqn:Hel; simpl; [|apply IH].
    destruct (eligible_Some _ _ Hel) as [text Htext]. rewrite Htext.
    assert ((batch_size =? 0)%Z = false) as -> by by apply Z.eqb_neq.
    assert (finished tree_tagger pos_tag_key (it, Job i text)
            = tagged tree_tagger document_key pos_tag_key it) as Hfin.
    { unfold finished, tagged. simpl. by rewrite Htext. }
    destruct (Z.of_nat i mod batch_size =? 0)%Z.
    + rewrite finalize_batch_events.
      destruct (IH (S i) []) as [Hs Hy].
      unfold gen_then. simpl. split; [done|].
      rewrite yields_app, yields_finalize, Hy, map_app. simpl.
      by rewrite Hfin, <- app_assoc.
    + destruct (IH (S i) (jobs ++ [(it, Job i text)])) as [Hs Hy].
      unfold gen_then. simpl. split; [done|].
      rewrite Hy, map_app. simpl. by rewrite Hfin, <- app_assoc.
Qed.

(** The loop neither creates nor stops the pool itself. *)
Lemma finalize_batch_no_poll (jobs : list (item * job)) (pos_tag_key : string) (e : event) :
  e = StartPoll \/ e = StopPoll ->
  e ∉ (finalize_batch tree_tagger jobs pos_tag_key).1.
Proof.
  intros He. rewrite finalize_batch_events. simpl. intros Hin.
  apply list_elem_of_In, in_flat_map in Hin as (j & _ & Hin).
  simpl in Hin. destruct He as [-> | ->], Hin as [?|[?|[]]]; discriminate.
Qed.

Lemma gen_then_no_poll (a b : gen) (e : event) :
  e ∉ a.1 -> e ∉ b.1 -> e ∉ (gen_then a b).1.
Proof.
  destruct a as [ea [x|]], b as [eb sb]; simpl; [done|].
  intros Ha Hb Hin. apply elem_of_app in Hin as [?|?]; tauto.
Qed.

Lemma tag_loop_no_poll (document_key pos_tag_key : string) (batch_size : Z)
    (i : nat) (items : list item) (jobs : list (item * job)) (e : event) :
  e = StartPoll \/ e = StopPoll ->
  e ∉ (tag_loop tree_tagger document_key pos_tag_key batch_size i items jobs).1.
Proof.
  intros He. revert i jobs. induction items as [|it items IH]; intros i jobs; simpl.
  - by apply finalize_batch_no_poll.
  - destruct (negb (truthy_value (it !! document_key))); [apply IH|].
    destruct (it !! document_key) as [text|]; [|simpl; apply not_elem_of_nil].
    simpl. apply not_elem_of_cons. split; [by destruct He as [-> | ->]|].
    destruct (batch_size =? 0)%Z; [simpl; apply not_elem_of_nil|].
    destruct (Z.of_nat i mod batch_size =? 0)%Z; [|apply IH].
    apply gen_then_no_poll; [by apply finalize_batch_no_poll | apply IH].
Qed.

(** X17. [finally]: on every run, whether the loop raised or not, the pool
    is created first and stopped last, and neither created nor stopped in
    between: it is started exactly once and stopped exactly once. *)
Lemma tt_tag_many_stops_poll (items : list item) (document_key pos_tag_key : string)
    (batch_size : Z) :
  exists evs,
    (tt_tag_many tree_tagger items document_key pos_tag_key batch_size).1
    = StartPoll :: evs ++ [StopPoll] /\
    (StartPoll ∉ evs) /\
    (StopPoll ∉ evs).
Proof.
  unfold tt_tag_many.
  pose proof (tag_loop_no_poll document_key pos_tag_key batch_size 0 items []
                StartPoll (or_introl eq_refl)) as Hstart.
  pose proof (tag_loop_no_poll document_key pos_tag_key batch_size 0 items []
                StopPoll (or_intror eq_refl)) as Hstop.
  destruct (tag_loop tree_tagger document_key pos_tag_key batch_size 0 items [])
    as [evs status].
  simpl in *. eauto.
Qed.

(** With a batch size of 0 the first eligible item ends the run with
    [ZeroDivisionError]: one job submitted, nothing yielded. *)
Lemma tag_loop_batch_size_0 (document_key pos_tag_key : string)
    (i : nat) (items : list item) :
  (exists it, it ∈ items /\ eligible document_key it = true) ->
  (tag_loop tree_tagger document_key pos_tag_key 0 i items []).2 = Some ZeroDivisionError /\
  yields (tag_loop tree_tagger document_key pos_tag_key 0 i items []).1 = [].
Proof.
  revert i. induction items as [|it items IH]; intros i (x & Hx & Hel).
  - by apply elem_of_nil in Hx.
  - simpl. fold (eligible document_key it).
    destruct (eligible document_key it) eqn:Hit; simpl.
    + destruct (eligible_Some _ _ Hit) as [text ->]. done.
    + apply IH. apply elem_of_cons in Hx as [->|Hx]; [congruence | eauto].
Qed.

Lemma tt_tag_many_yields (items : list item) (document_key pos_tag_key : string)
    (batch_size : Z) :
  batch_size <> 0%Z ->
  (tt_tag_many tree_tagger items document_key pos_tag_key batch_size).2 = None /\
  yields (tt_tag_many tree_tagger items document_key pos_tag_key batch_size).1
  = map (tagged tree_tagger document_key pos_tag_key)
        (List.filter (eligible document_key) items).
Proof.
  intros Hbs. unfold tt_tag_many.
  destruct (tag_loop_yields document_key pos_tag_key batch_size 0 items [] Hbs)
    as [Hs Hy].
  destruct (tag_loop tree_tagger document_key pos_tag_key batch_size 0 items [])
    as [evs status].
  simpl in *. split; [done|].
  change (StartPoll :: evs ++ [StopPoll]) with ([StartPoll] ++ evs ++ [StopPoll]).
  rewrite !yields_app, Hy. simpl. by rewrite app_nil_r.
Qed.

(** X21. With any batch size other than 0, an eligible first item is
    awaited and yielded alone, before the second item is looked at:
    [0 % batch_size] is 0. *)
Lemma first_batch_has_one_job (it : item) (rest : list item)
    (document_key pos_tag_key : string) (batch_size : Z) :
  batch_size <> 0%Z ->
  eligible document_key it = true ->
  exists text evs,
    it !! document_key = Some text /\
    (tt_tag_many tree_tagger (it :: rest) document_key pos_tag_key batch_size).1
    = [StartPoll; Submit 0 text; Wait 0;
       Yield (tagged tree_tagger document_key pos_tag_key it)] ++ evs.
Proof.
  intros Hbs Hel. destruct (eligible_Some _ _ Hel) as [text Htext].
  exists text. unfold tt_tag_many. simpl.
  fold (eligible document_key it). rewrite Hel, Htext. simpl.
  assert ((batch_size =? 0)%Z = false) as -> by by apply Z.eqb_neq.
  rewrite postprocess_tags_true.
  destruct (tag_loop tree_tagger document_key pos_tag_key batch_size 1 rest [])
    as [evs status].
  simpl. exists (evs ++ [StopPoll]). split; [done|].
  unfold tagged. by rewrite Htext.
Qed.

(** C8, as the code has it.  With a batch size other than 0,
    [TTPosTagger.tag_many] does not raise and yields, in
    the order of the input, the items whose value under [document_key] is
    true, and no other; an item is left out exactly when that value is
    missing, [None] or empty; and a yielded item has the cleaned tags under
    [pos_tag_key] and every other key as it was. *)
Theorem tt_tag_many_omits_or_tags (items : list item)
    (document_key pos_tag_key : string) (batch_size : Z) :
  batch_size <> 0%Z ->
  (tt_tag_many tree_tagger items document_key pos_tag_key batch_size).2 = None /\
  yields (tt_tag_many tree_tagger items document_key pos_tag_key batch_size).1
  = map (tagged tree_tagger document_key pos_tag_key)
        (List.filter (eligible document_key) items) /\
  (forall it,
     eligible document_key it = false <->
     it !! document_key = None \/ it !! document_key = Some VNone \/
     it !! document_key = Some (VStr "") \/ it !! document_key = Some (VTags [])) /\
  (forall it,
     tagged tree_tagger document_key pos_tag_key it !! pos_tag_key
     = Some (VTags (List.filter (fun t => negb (unknown t))
                      (tree_tagger (default VNone (it !! document_key))))) /\
     forall key, key <> pos_tag_key ->
       tagged tree_tagger document_key pos_tag_key it !! key = it !! key).
Proof.
  intros Hbs.
  destruct (tt_tag_many_yields items document_key pos_tag_key batch_size Hbs)
    as [Hs Hy].
  repeat split; try done.
  - unfold eligible. destruct (it !! document_key) as [[|[|c s]|[|t ts]]|];
      simpl; intros; try discriminate; tauto.
  - unfold eligible.
    intros [->|[->|[->| ->]]]; reflexivity.
  - unfold tagged. by rewrite lookup_insert_eq.
  - intros key Hkey. unfold tagged. by rewrite lookup_insert_ne.
Qed.

End TagMany.

Section TagManyExamples.
Import Py PosTag.
Local Open Scope py_scope.

Lemma tt_tag_many_omits_or_tags_witness :
  (tt_tag_many Samples.sample_tagger
     [Samples.scraped "a"; Samples.scraped ""; Samples.scraped "b"]
     "text" "tagged" 2).2 = None /\
  yields (tt_tag_many Samples.sample_tagger
            [Samples.scraped "a"; Samples.scraped ""; Samples.scraped "b"]
            "text" "tagged" 2).1
  = map (tagged Samples.sample_tagger "text" "tagged")
        (List.filter (eligible "text")
           [Samples.scraped "a"; Samples.scraped ""; Samples.scraped "b"]) /\
  (forall it,
     eligible "text" it = false <->
     it !! "text" = None \/ it !! "text" = Some VNone \/
     it !! "text" = Some (VStr "") \/ it !! "text" = Some (VTags [])) /\
  (forall it,
     tagged Samples.sample_tagger "text" "tagged" it !! "tagged"
     = Some (VTags (List.filter (fun t => negb (unknown t))
                      (Samples.sample_tagger (default VNone (it !! "text"))))) /\
     forall key, key <> "tagged" ->
       tagged Samples.sample_tagger "text" "tagged" it !! key = it !! key).
Proof.
  apply (tt_tag_many_omits_or_tags Samples.sample_tagger
           [Samples.scraped "a"; Samples.scraped ""; Samples.scraped "b"]
           "text" "tagged" 2).
  discriminate.
Defined.

(** On the sample the item without text is left out and the two others are
    yielded tagged. *)
Example tt_tag_many_sample_yields :
  yields (tt_tag_many Samples.sample_tagger
            [Samples.scraped "a"; Samples.scraped ""; Samples.scraped "b"]
            "text" "tagged" 2).1
  = [Samples.scraped_tagged "a"; Samples.scraped_tagged "b"].
Proof. vm_compute. reflexivity. Qed.

(** C3, where the code departs from it.  With [batch_size] 2 and three
    eligible items the first job is awaited and yielded alone, before any
    other job is submitted; and when the item at index 2 has no text, three
    jobs are pending when the next batch is awaited. *)
Theorem tt_tag_many_batches_not_of_batch_size :
  (tt_tag_many Samples.sample_tagger
     [Samples.scraped "a"; Samples.scraped "b"; Samples.scraped "c"]
     "text" "tagged" 2).1
  = [StartPoll;
     Submit 0 (VStr "a");
     Wait 0; Yield (Samples.scraped_tagged "a");
     Submit 1 (VStr "b"); Submit 2 (VStr "c");
     Wait 1; Yield (Samples.scraped_tagged "b");
     Wait 2; Yield (Samples.scraped_tagged "c");
     StopPoll] /\
  (tt_tag_many Samples.sample_tagger
     [Samples.scraped "a"; Samples.scraped "b"; Samples.scraped "";
      Samples.scraped "c"; Samples.scraped "d"]
     "text" "tagged" 2).1
  = [StartPoll;
     Submit 0 (VStr "a");
     Wait 0; Yield (Samples.scraped_tagged "a");
     Submit 1 (VStr "b"); Submit 3 (VStr "c"); Submit 4 (VStr "d");
     Wait 1; Yield (Samples.scraped_tagged "b");
     Wait 3; Yield (Samples.scraped_tagged "c");
     Wait 4; Yield (Samples.scraped_tagged "d");
     StopPoll].
Proof. split; vm_compute; reflexivity. Qed.

(** With a batch size of 0, which [--batch-size] accepts, an item with a
    text is submitted and the test [i % batch_size] raises
    [ZeroDivisionError]: the item is neither yielded nor missing or empty. *)
Lemma tt_tag_many_batch_size_0_omits_eligible :
  Samples.scraped "a" !! "text" = Some (VStr "a") /\
  eligible "text" (Samples.scraped "a") = true /\
  tt_tag_many Samples.sample_tagger [Samples.scraped "a"] "text" "tagged" 0
  = ([StartPoll; Submit 0 (VStr "a"); StopPoll], Some ZeroDivisionError) /\
  yields (tt_tag_many Samples.sample_tagger [Samples.scraped "a"] "text" "tagged" 0).1
  = [].
Proof. split_and!; vm_compute; reflexivity. Qed.

(** A batch size of 0 ends the run at the first eligible item; the pool is
    stopped all the same. *)
Example tt_tag_many_batch_size_0 :
  tt_tag_many Samples.sample_tagger [Samples.scraped "a"; Samples.scraped "b"]
    "text" "tagged" 0
  = ([StartPoll; Submit 0 (VStr "a"); StopPoll], Some ZeroDivisionError).
Proof. vm_compute. reflexivity. Qed.

End TagManyExamples.

(** ** [main] of [pos_tag.py] and the two taggers *)

Section TaggerChoice.
Import Py PosTag.
Local Open Scope py_scope.

Variable tree_tagger : value -> list tag.
Variable word_tokenize : item -> result (list string).
Variable pos_tag_sents :
  list (list string) -> pyarg -> result (list (list (string * string))).

(** C2, where the code departs from it.  [main] calls [tag_many] with four
    positional arguments; [NLTKPosTagger.tag_many] takes two at most, so with
    [--tagger nltk] the call raises [TypeError] and nothing is written,
    whatever the corpus, the keys and the batch size. *)
Theorem main_nltk_raises_TypeError (corpus : list item)
    (document_key pos_tag_key language_code : string)
    (tt_home : option string) (batch_size : Z) :
  main tree_tagger word_tokenize pos_tag_sents corpus document_key pos_tag_key
       language_code tagger_nltk tt_home batch_size
  = ([], inl TypeError).
Proof. reflexivity. Qed.

(** The call of [main] binds the four arguments of [TTPosTagger.tag_many]. *)
Lemma call_tt_tag_many (language : string) (tt_home : option string)
    (corpus : list item) (document_key pos_tag_key : string) (batch_size : Z) :
  call_tag_many tree_tagger word_tokenize pos_tag_sents
    (TTPosTagger language tt_home)
    [ACorpus corpus; AStr document_key; AStr pos_tag_key; AInt batch_size]
  = (map LItem
       (yields (tt_tag_many tree_tagger corpus document_key pos_tag_key batch_size).1),
     (tt_tag_many tree_tagger corpus document_key pos_tag_key batch_size).2).
Proof.
  unfold call_tag_many. simpl.
  by destruct (tt_tag_many tree_tagger corpus document_key pos_tag_key batch_size).
Qed.

(** X22. The other tagger does what [main] expects: with [--tagger tt] and a
    batch size other than 0, [main] writes the tagged eligible items, in
    the order of the corpus, and returns 0. *)
Lemma main_tt_writes_tagged_items (corpus : list item)
    (document_key pos_tag_key language_code : string)
    (tt_home : option string) (batch_size : Z) :
  batch_size <> 0%Z ->
  main tree_tagger word_tokenize pos_tag_sents corpus document_key pos_tag_key
       language_code tagger_tt tt_home batch_size
  = (map LItem (map (tagged tree_tagger document_key pos_tag_key)
                    (List.filter (eligible document_key) corpus)),
     inr 0%Z).
Proof.
  intros Hbs. unfold main.
  rewrite call_tt_tag_many.
  destruct (tt_tag_many_yields tree_tagger corpus document_key pos_tag_key
              batch_size Hbs) as [Hs Hy].
  destruct (tt_tag_many tree_tagger corpus document_key pos_tag_key batch_size)
    as [evs status].
  simpl in *. by rewrite Hs, Hy.
Qed.

(** Called as its signature allows, with the documents alone, the NLTK tagger
    returns tagged sentences, not the input items. *)
Lemma nltk_tag_many_returns_sentences (language : string) (documents : list item) :
  call_tag_many tree_tagger word_tokenize pos_tag_sents
    (NLTKPosTagger language) [ACorpus documents]
  = match nltk_tag_many word_tokenize pos_tag_sents documents ANone with
    | inl e => ([], Some e)
    | inr sents => (map LSentence sents, None)
    end.
Proof. reflexivity. Qed.

End TaggerChoice.

(** ** [main] of [train.py] *)

Section Training.
Import Py Train.
Local Open Scope py_scope.

Variable float : Type.
Variable json_loads : string -> result json.
Variables gazetteer extractor features classifier : Type.
Variable reverse_gazetteer : json -> gazetteer.
Variable empty_gazetteer : gazetteer.
Variable FactExtractorFeatureExtractor : string -> extractor.
Variable process_sentence : extractor -> json -> json -> bool -> gazetteer -> extractor.
Variable get_features : extractor -> result features.
Variable LinearSVC : gmap string (optval float) -> result classifier.
Variable fit : classifier -> features -> result classifier.
Variable joblib_dump : classifier * extractor -> string -> result unit.

Local Abbreviation train_row := (train_row float json_loads gazetteer extractor process_sentence).
Local Abbreviation train_rows := (train_rows float json_loads gazetteer extractor process_sentence).
Local Abbreviation load_gazetteer :=
  (load_gazetteer json_loads gazetteer reverse_gazetteer empty_gazetteer).
Local Abbreviation feed := (feed gazetteer extractor process_sentence).
Local Abbreviation parsed := (parsed json_loads).
Local Abbreviation fed_event := (fed_event float).
Local Abbreviation fit_and_dump := (fit_and_dump float extractor features classifier fit joblib_dump).
Local Abbreviation main :=
  (main float json_loads gazetteer extractor features classifier reverse_gazetteer
        empty_gazetteer FactExtractorFeatureExtractor process_sentence get_features
        LinearSVC fit joblib_dump).

Lemma json_getitem_inr (data : json) (key : string) (v : json) :
  json_getitem data key = inr v <->
  exists members, data = JObj members /\ assoc key members = Some v.
Proof.
  unfold json_getitem. split.
  - destruct data as [| | | | |members]; try discriminate.
    destruct (assoc key members) as [w|] eqn:Hw; [|discriminate].
    intros H. inversion H; subst. eauto.
  - intros (members & -> & ->). done.
Qed.

Lemma train_row_inr (gaz : gazetteer) (st st' : state float extractor) (row : string) :
  train_row gaz st row = inr st' <->
  exists sf, parsed row sf /\
    st' = State float extractor
            (process_sentence (the_extractor float extractor st) sf.1 sf.2 true gaz)
            (log float extractor st ++ [fed_event sf]).
Proof.
  unfold Train.train_row, Train.parsed. split.
  - intros H. apply bind_inr in H as (data & Hd & H).
    apply bind_inr in H as (sn & Hsn & H). apply bind_inr in H as (fes & Hfes & H).
    apply json_getitem_inr in Hsn as (members & -> & Hsn).
    apply json_getitem_inr in Hfes as (members' & Heq & Hfes).
    inversion Heq; subst members'.
    inversion H; subst. exists (sn, fes). split; [|done]. by exists members.
  - intros ([sn fes] & (members & Hd & Hsn & Hfes) & ->). simpl in *.
    rewrite Hd. simpl. rewrite Hsn. simpl. by rewrite Hfes.
Qed.


(** The loop feeds the lines in order and stops at the first line that does
    not parse; it has fed every line exactly when it ends without an
    exception. *)
Lemma train_rows_log (gaz : gazetteer) (st : state float extractor) (rows : list string) :
  exists data,
    Forall2 parsed (take (length data) rows) data /\
    log float extractor (train_rows gaz st rows).1
    = log float extractor st ++ map fed_event data /\
    the_extractor float extractor (train_rows gaz st rows).1
    = feed gaz (the_extractor float extractor st) data /\
    ((train_rows gaz st rows).2 = None <-> length data = length rows) /\
    (length data < length rows -> forall sf, ~ parsed (rows !!! length data) sf).
Proof.
  revert st. induction rows as [|row rows IH]; intros st; simpl.
  - exists []. simpl. rewrite app_nil_r. repeat split; try done. lia.
  - destruct (train_row gaz st row) as [e|st'] eqn:Hrow.
    + exists []. simpl. rewrite app_nil_r. repeat split; try done.
      intros _ sf Hsf.
      assert (exists st', train_row gaz st row = inr st') as [st' Hst'].
      { eexists. apply train_row_inr. eauto. }
      congruence.
    + apply train_row_inr in Hrow as (sf & Hsf & ->).
      destruct (IH (State float extractor
                      (process_sentence (the_extractor float extractor st) sf.1 sf.2 true gaz)
                      (log float extractor st ++ [fed_event sf])))
        as (data & Hall & Hlog & Hext & Hnone & Hstop).
      exists (sf :: data). simpl in *. repeat split.
      * by constructor.
      * by rewrite Hlog, <- app_assoc.
      * done.
      * intros Hs. f_equal. by apply Hnone.
      * intros Hlen. apply Hnone. lia.
      * intros Hlen. apply Hstop. lia.
Qed.



Lemma pop_c (o : options float) :
  pop float "c" (kwargs_of float o)
  = inr (OFloat float (opt_c float o), delete "c" (kwargs_of float o)).
Proof. unfold pop, kwargs_of. by rewrite lookup_insert_eq. Qed.



End Training.

Section TrainingExamples.
Import Py Train.
Local Open Scope py_scope.

(** A stand-in for the extractor and the classifier: the extractor keeps the
    sentences it was fed, the features are their number, and the classifier
    keeps its keyword arguments and the features it was fitted on;
    [Samples.sample_fit] rejects the loss [hinge] with the penalty [l2] when
    [dual] is false, as scikit-learn does. *)
Local Abbreviation sample_main :=
  (main Z Samples.sample_loads unit (list (json * json)) nat
        (gmap string (optval Z) * option nat)
        (fun _ => tt) tt (fun _ => [])
        (fun ext sentence fes _ _ => ext ++ [(sentence, fes)])
        (fun ext => inr (length ext))
        (fun kwargs => inr (kwargs, None))
        Samples.sample_fit
        (fun _ _ => inr tt)).


(** The run on the two lines: both sentences are fed, then the features are
    taken, the classifier is made, fitted and dumped. *)
Example main_two_lines :
  sample_main ["line 1"; "line 2"] "en" "model.pkl" None Samples.sample_options
  = ([ProcessSentence Z (JStr "A b c") (JObj [("Agent", JStr "b")]) true;
      ProcessSentence Z (JStr "D e") (JObj [("Theme", JNull)]) true;
      GetFeatures Z; NewLinearSVC Z (classifier_kwargs Z Samples.sample_options);
      Fit Z; Dump Z "model.pkl"],
     inr ((classifier_kwargs Z Samples.sample_options, Some 2%nat),
          [(JStr "A b c", JObj [("Agent", JStr "b")]);
           (JStr "D e", JObj [("Theme", JNull)])])).
Proof. vm_compute. reflexivity. Qed.

(** With [--loss hinge] and the defaults of the other options [fit] raises:
    the lines were fed and the classifier made, and nothing is dumped. *)
Example main_hinge_not_dumped :
  sample_main ["line 1"; "line 2"] "en" "model.pkl" None Samples.hinge_options
  = ([ProcessSentence Z (JStr "A b c") (JObj [("Agent", JStr "b")]) true;
      ProcessSentence Z (JStr "D e") (JObj [("Theme", JNull)]) true;
      GetFeatures Z; NewLinearSVC Z (classifier_kwargs Z Samples.hinge_options);
      Fit Z],
     inl ValueError).
Proof. vm_compute. reflexivity. Qed.

(** A line that is not JSON ends the run before any fit: the first line was
    fed, nothing else happened. *)
Example main_stops_at_bad_line :
  sample_main ["line 1"; "no json"; "line 2"] "en" "model.pkl" None Samples.sample_options
  = ([ProcessSentence Z (JStr "A b c") (JObj [("Agent", JStr "b")]) true],
     inl ValueError).
Proof. vm_compute. reflexivity. Qed.

End TrainingExamples.

(** * Further properties of [parse_results.py] *)

(** ** The counts of columns *)

Section ColumnCounts.
Import Py ParseResults.
Local Open Scope py_scope.

Lemma split_on_length (sep : ascii) (s : string) :
  (1 <= length (split_on sep s))%nat.
Proof.
  induction s as [|c s IH]; simpl; [lia|].
  destruct (Ascii.eqb c sep); simpl; [lia|].
  destruct (split_on sep s); simpl; lia.
Qed.

Lemma split_on_sep_length (p rest : string) :
  (2 <= length (split_on "_" (p ++ String "_" rest)))%nat.
Proof.
  induction p as [|c p IH]; simpl.
  - pose proof (split_on_length "_" rest). lia.
  - destruct (Ascii.eqb c "_"); simpl.
    + pose proof (split_on_length "_" (p ++ String "_" rest)). lia.
    + destruct (split_on "_" (p ++ String "_" rest)); simpl in *; lia.
Qed.

Lemma string_app_cons (c : ascii) (s t : string) :
  (String c s ++ t = String c (s ++ t))%string.
Proof. reflexivity. Qed.

Lemma string_app_sep (p rest : string) :
  ((p ++ "_") ++ rest = p ++ String "_" rest)%string.
Proof.
  induction p as [|c p IH]; [reflexivity|].
  rewrite !string_app_cons. by f_equal.
Qed.

Lemma strip_prefix_Some (prefix k rest : string) :
  strip_prefix prefix k = Some rest <-> k = (prefix ++ rest)%string.
Proof.
  revert k. induction prefix as [|a p IH]; intros k.
  - change ("" ++ rest)%string with rest. simpl.
    split; [by intros [= ->] | by intros ->].
  - rewrite string_app_cons. simpl.
    destruct k as [|b k]; [split; discriminate|].
    destruct (Ascii.eqb_spec a b) as [->|Hne].
    + rewrite IH. split; [by intros -> | by intros [= ->]].
    + split; [discriminate | intros [= ? ?]; congruence].
Qed.

(** A key that matches [prefix_\d+] has a segment after its first
    underscore, so [k.split('_')[1]] does not raise. *)
Lemma column_index_not_IndexError (p k : string) :
  re_match_digits (p ++ "_") k = true ->
  exists seg, index (split_on "_" k) 1 = inr seg.
Proof.
  unfold re_match_digits. intros H.
  destruct (strip_prefix (p ++ "_") k) as [rest|] eqn:Hs; [|done].
  apply strip_prefix_Some in Hs. subst k.
  rewrite string_app_sep.
  pose proof (split_on_sep_length p rest) as Hlen.
  destruct (lookup_lt_is_Some_2 (split_on "_" (p ++ String "_" rest)) 1) as [seg Hseg];
    [lia|].
  exists seg. by apply index_inr.
Qed.

Lemma py_int_error (s : string) (e : exn) : py_int s = inl e -> e = ValueError.
Proof.
  unfold py_int.
  destruct (match rstrip (lstrip s) with
            | String "+"%char d => d
            | _ => rstrip (lstrip s)
            end) as [|c d]; [by intros [= <-]|].
  destruct (all_digits (String c d)); [|by intros [= <-]].
  destruct (NilEmpty.uint_of_string (String c d)); [discriminate | by intros [= <-]].
Qed.

Lemma mapM_inl {A B} (f : A -> result B) (xs : list A) (e : exn) :
  mapM f xs = inl e -> exists x, x ∈ xs /\ f x = inl e.
Proof.
  induction xs as [|x xs IH]; simpl; [discriminate|].
  destruct (f x) as [e'|y] eqn:Hx; simpl.
  - intros [= ->]. exists x. split; [left | done].
  - destruct (mapM f xs) as [e'|ys]; simpl; [|discriminate].
    intros [= ->]. destruct IH as (x' & Hin & Hx'); [done|].
    exists x'. split; [by right | done].
Qed.

(** X1. When the count of the columns [prefix_NN] of a row can be computed,
    it is one more than the index of some such column, and the index of every
    such column is below it. *)
Theorem column_count_is_max_index (prefix : string) (r : row) (n : nat) :
  column_count prefix r = inr n ->
  (exists k, is_Some (r !! k) /\ re_match_digits prefix k = true /\
             column_index k = inr (n - 1)%nat /\ (0 < n)%nat) /\
  (forall k, is_Some (r !! k) -> re_match_digits prefix k = true ->
             exists j, column_index k = inr j /\ (j < n)%nat).
Proof.
  intros H. apply column_count_inr in H as (v & H & ->).
  unfold column_count_of in H.
  apply bind_inr in H as (numbers & Hnumbers & H).
  apply bind_inr in H as (m & Hm & H). inversion H; subst v. clear H.
  apply mapM_inr in Hnumbers. apply py_max_N_inr in Hm as [Hin Hmax]. split.
  - apply list_elem_of_omap in Hin as (y & Hy & Heq). simpl in Heq. subst y.
    apply list_elem_of_lookup in Hy as [j Hj].
    destruct (Forall2_lookup_r _ _ _ _ _ Hnumbers Hj) as (k & Hk & Hstep).
    apply column_step_inr in Hstep as (k' & -> & Hstep).
    destruct (re_match_digits prefix k') eqn:Hmatch; [|discriminate].
    destruct Hstep as (j' & Hj' & [= <-]).
    apply list_elem_of_lookup_2, elem_of_row_keys in Hk.
    exists k'. split_and!; [done | done | | lia].
    apply column_index_inr. exists m. split; [done | lia].
  - intros k Hk Hmatch.
    apply elem_of_row_keys, list_elem_of_lookup in Hk as [i Hi].
    destruct (Forall2_lookup_l _ _ _ _ _ Hnumbers Hi) as (y & Hy & Hstep).
    apply column_step_inr in Hstep as (k' & [= <-] & Hstep).
    rewrite Hmatch in Hstep. destruct Hstep as (j & Hj & ->).
    exists (N.to_nat j). split; [apply column_index_inr; eauto|].
    assert (j ∈ omap id numbers) as Hel.
    { apply list_elem_of_omap. exists (Some j).
      split; [by eapply list_elem_of_lookup_2 | done]. }
    specialize (Hmax _ Hel). lia.
Qed.

Lemma column_count_is_max_index_witness :
  (exists k, is_Some (Samples.judgment_1 !! k) /\ re_match_digits "fe_" k = true /\
             column_index k = inr (3 - 1)%nat /\ (0 < 3)%nat) /\
  (forall k, is_Some (Samples.judgment_1 !! k) -> re_match_digits "fe_" k = true ->
             exists j, column_index k = inr j /\ (j < 3)%nat).
Proof.
  apply (column_count_is_max_index "fe_" Samples.judgment_1 3).
  vm_compute. reflexivity.
Defined.

Lemma column_count_of_inl (p : string) (r : row) (ks : list (option string)) (e : exn) :
  ks ≡ₚ row_keys r ->
  column_count_of (p ++ "_") ks = inl e ->
  e = ValueError \/ (e = TypeError /\ is_Some (surplus r)).
Proof.
  intros Hperm. unfold column_count_of.
  destruct (mapM (column_step (p ++ "_")) ks) as [e'|numbers] eqn:Hmap; simpl.
  - intros [= ->]. apply mapM_inl in Hmap as (k & Hk & Hstep).
    apply column_step_inl in Hstep as [[-> ->]|(k' & -> & Hmatch & Hcol)].
    + right. split; [done|]. rewrite Hperm in Hk.
      destruct (surplus r) eqn:Hs; [eauto|].
      by apply row_keys_no_None in Hs.
    + left. destruct (column_index_not_IndexError p k' Hmatch) as [seg Hseg].
      unfold column_number in Hcol. rewrite Hseg in Hcol. simpl in Hcol.
      by eapply py_int_error.
  - destruct (omap id numbers) as [|i idxs]; simpl;
      [intros [= <-]; by left | discriminate].
Qed.

(** X2. In whatever order the keys of a row come, the computation of
    [chunk_count] and of [fe_count] raises nothing but [ValueError], from
    [max] on a row without such a column or from [int] on a column name
    whose number does not parse, and [TypeError], from [re.match] on the key
    [None] of a row with surplus cells. *)
Theorem column_count_raises_only_ValueError (p : string) (r : row)
    (ks : list (option string)) (e : exn) :
  ks ≡ₚ row_keys r ->
  column_count_of (p ++ "_") ks = inl e ->
  e = ValueError \/ (e = TypeError /\ is_Some (surplus r)).
Proof. apply column_count_of_inl. Qed.

Lemma column_count_raises_only_ValueError_witness :
  ValueError = ValueError \/ (ValueError = TypeError /\ is_Some (surplus Samples.bare_row)).
Proof.
  apply (column_count_raises_only_ValueError "chunk" Samples.bare_row
           (row_keys Samples.bare_row) ValueError).
  - reflexivity.
  - vm_compute. reflexivity.
Defined.

(** On a line longer than the header the count is a [TypeError]. *)
Example column_count_overlong :
  column_count_of "chunk_" (row_keys Samples.overlong) = inl TypeError.
Proof. vm_compute. reflexivity. Qed.

(** X3. A column [prefix_%02d] of index [i] is counted, whatever the other
    columns: when the count can be computed it is above [i]. *)
Theorem numbered_column_is_counted (p : string) (r : row) (i n : nat) :
  split_on "_" p = [p] ->
  is_Some (r !! (p ++ String "_" (fmt02 i))%string) ->
  column_count (p ++ "_") r = inr n ->
  (i < n)%nat.
Proof.
  intros Hp Hv Hcount. apply column_count_inr in Hcount as (v & Hcount & ->).
  pose proof (string_app_sep p (fmt02 i)) as Heq.
  enough (N.of_nat i < v)%N by lia.
  apply (column_count_of_gt (p ++ "_") (row_keys r) i v).
  - unfold re_match_digits.
    assert (strip_prefix (p ++ "_") ((p ++ "_") ++ fmt02 i) = Some (fmt02 i)) as ->
      by by apply strip_prefix_Some.
    by destruct (fmt02_digits i) as (_ & c & s & -> & Hc).
  - rewrite Heq. by apply column_number_fmt02.
  - rewrite Heq. by apply elem_of_row_keys.
  - done.
Qed.

Lemma numbered_column_is_counted_witness : (1 < 2)%nat.
Proof.
  apply (numbered_column_is_counted "chunk" Samples.judgment_1 1 2).
  - reflexivity.
  - vm_compute. eauto.
  - vm_compute. reflexivity.
Defined.

End ColumnCounts.

(** ** Exceptions of [process_unit] *)

Section UnitErrors.
Import Py ParseResults.
Local Open Scope py_scope.

Context `{mach : Machine}.

Lemma foldM_inl {A S} (f : S -> A -> result S) (xs : list A) (s : S) (e : exn) :
  foldM f s xs = inl e -> exists s1 x, x ∈ xs /\ f s1 x = inl e.
Proof.
  revert s. induction xs as [|x xs IH]; intros s; simpl; [discriminate|].
  destruct (f s x) as [e'|s'] eqn:Hx; simpl.
  - intros [= ->]. exists s, x. split; [left | done].
  - intros H. destruct (IH _ H) as (s1 & y & Hy & Hf).
    exists s1, y. split; [by right | done].
Qed.

Lemma add_judgment_inl (each : row) (chunks : gmap string (list string)) (i : nat) (e : exn) :
  add_judgment each chunks i = inl e ->
  (each !! ("answer_chunk_" ++ fmt02 i)%string = None /\
   e = KeyError ("answer_chunk_" ++ fmt02 i)) \/
  (each !! ("chunk_" ++ fmt02 i)%string = None /\ e = KeyError ("chunk_" ++ fmt02 i)).
Proof.
  unfold add_judgment, getitem.
  destruct (each !! ("answer_chunk_" ++ fmt02 i)%string) as [fe|] eqn:Hfe; simpl.
  - destruct (each !! ("chunk_" ++ fmt02 i)%string) as [c|] eqn:Hc; simpl.
    + destruct fe as [fe|], c as [c|]; try discriminate.
      by destruct (truthy (Some fe) && truthy (Some c) && negb (fe =? "None")%string).
    + intros [= <-]. by right.
  - intros [= <-]. by left.
Qed.

(** The first loop raises nothing but the [KeyError] of a cell that a row
    lacks below the count. *)
Lemma collect_judgments_inl (n : nat) (sentences : list row) (e : exn) :
  collect_judgments n sentences = inl e ->
  exists each i name,
    each ∈ sentences /\ (i < n)%nat /\ e = KeyError (name ++ fmt02 i) /\
    (name = "answer_chunk_" \/ name = "chunk_") /\
    each !! (name ++ fmt02 i)%string = None.
Proof.
  unfold collect_judgments. intros H.
  apply foldM_inl in H as (s1 & each & Heach & H).
  apply foldM_inl in H as (s2 & i & Hi & H).
  apply list_elem_of_In, in_seq in Hi.
  apply add_judgment_inl in H as [[Hnone ->]|[Hnone ->]].
  - exists each, i, "answer_chunk_". repeat split; try done; [lia | by left].
  - exists each, i, "chunk_". repeat split; try done; [lia | by right].
Qed.

Lemma mbind_lift {A B} (c : result A) (k : A -> M B) (o : oracle) :
  mbind (lift c) k o = match c with
                       | inl e => inl e
                       | inr a => k a o
                       end.
Proof. unfold mbind, lift. by destruct c. Qed.

(** A run up to the first loop, when the assertions pass, both counts are
    computed and [xrange] accepts the first. *)
Lemma process_unit_prefix (unit_id : option string) (sentences : list row) (o o0 : oracle)
    (first : row) (n m : nat) (ks : list (option string)) :
  check_unit unit_id sentences = inr tt ->
  sentences !! 0%nat = Some first ->
  keys first o = inr (ks, o0) ->
  column_count "chunk_" first = inr n ->
  column_count "fe_" first = inr m ->
  (N.of_nat n <= maxint)%N ->
  process_unit unit_id sentences o
  = match collect_judgments n sentences with
    | inl e => inl e
    | inr chunks =>
        (do items <- iteritems chunks;
         do fes <- vote items ∅;
         do fes <- lift (fill_fes (N.of_nat m) first fes);
         do id <- lift (getitem first "id");
         do sentence <- lift (getitem first "sentence");
         do frame <- lift (getitem first "frame");
         mret ({[ "id" := FStr id; "sentence" := FStr sentence;
                  "frame" := FStr frame; "fes" := FFes fes ]} : gmap string field))%pym o0
    end.
Proof.
  intros Hc Hf Hks Hn Hm Hle. apply index_inr in Hf.
  pose proof (keys_inr _ _ _ _ Hks) as Hperm.
  apply column_count_inr in Hn as (cn & Hn & ->).
  apply column_count_inr in Hm as (cm & Hm & ->).
  rewrite N2Nat.id in Hle |- *.
  apply (column_count_of_Permutation _ _ ks) in Hn, Hm; try done.
  unfold process_unit. rewrite mbind_lift, Hc, mbind_lift, Hf.
  unfold mbind at 1. rewrite Hks.
  rewrite mbind_lift, Hn, mbind_lift, Hm, mbind_lift.
  rewrite (build_chunks_collect _ _ Hle).
  by destruct (collect_judgments (N.to_nat cn) sentences).
Qed.

(** X4. When the assertions pass, both counts are computed and the chunk
    count does not exceed [sys.maxint], a row that lacks a cell [chunk_NN]
    or [answer_chunk_NN] below the chunk count makes [process_unit] raise the
    [KeyError] of such a cell, whatever the oracle: a gap in the numbering of
    the columns is not skipped. *)
Theorem process_unit_missing_cell (unit_id : option string) (sentences : list row)
    (first : row) (n m : nat) :
  check_unit unit_id sentences = inr tt ->
  sentences !! 0%nat = Some first ->
  column_count "chunk_" first = inr n ->
  column_count "fe_" first = inr m ->
  (N.of_nat n <= maxint)%N ->
  ~ Forall (has_cells n) sentences ->
  exists each i name,
    each ∈ sentences /\ (i < n)%nat /\
    (name = "answer_chunk_" \/ name = "chunk_") /\
    each !! (name ++ fmt02 i)%string = None /\
    forall o, process_unit unit_id sentences o = inl (KeyError (name ++ fmt02 i)).
Proof.
  intros Hc Hf Hn Hm Hle Hcells.
  destruct (collect_judgments n sentences) as [e|chunks] eqn:Hb.
  - destruct (collect_judgments_inl _ _ _ Hb) as (each & i & name & Hin & Hi & -> & Hname & Hnone).
    exists each, i, name. repeat split; try done.
    intros o. destruct (keys_ok first o) as (ks & o0 & Hks).
    rewrite (process_unit_prefix _ _ o o0 first n m ks Hc Hf Hks Hn Hm Hle).
    by rewrite Hb.
  - destruct Hcells. by eapply collect_judgments_inr_cells.
Qed.

(** With a column numbered beyond [sys.maxint] the first loop raises
    [OverflowError] before it reads a cell. *)
Lemma process_unit_overflow (unit_id : option string) (sentences : list row)
    (first : row) (n m : nat) (o : oracle) :
  check_unit unit_id sentences = inr tt ->
  sentences !! 0%nat = Some first ->
  column_count "chunk_" first = inr n ->
  column_count "fe_" first = inr m ->
  (maxint < N.of_nat n)%N ->
  process_unit unit_id sentences o = inl OverflowError.
Proof.
  intros Hc Hf Hn Hm Hlt.
  destruct (keys_ok first o) as (ks & o0 & Hks).
  pose proof (keys_inr _ _ _ _ Hks) as Hperm.
  apply column_count_inr in Hn as (cn & Hn & ->).
  apply column_count_inr in Hm as (cm & Hm & ->).
  rewrite N2Nat.id in Hlt.
  apply (column_count_of_Permutation _ _ ks) in Hn, Hm; try done.
  assert (sentences <> []) as Hne by (intros ->; by rewrite lookup_nil in Hf).
  apply index_inr in Hf.
  unfold process_unit. rewrite mbind_lift, Hc, mbind_lift, Hf.
  unfold mbind at 1. rewrite Hks.
  rewrite mbind_lift, Hn, mbind_lift, Hm, mbind_lift.
  by rewrite (build_chunks_overflow _ _ Hne Hlt).
Qed.

End UnitErrors.

Section UnitErrorsExamples.
Import Py ParseResults.
Local Open Scope py_scope.

#[local] Existing Instance Samples.linux64.

Lemma process_unit_missing_cell_witness :
  exists each i name,
    each ∈ [Samples.gapped] /\ (i < 3)%nat /\
    (name = "answer_chunk_" \/ name = "chunk_") /\
    each !! (name ++ fmt02 i)%string = None /\
    forall o, process_unit (Some "7") [Samples.gapped] o
              = inl (KeyError (name ++ fmt02 i)).
Proof.
  apply (process_unit_missing_cell (Some "7") [Samples.gapped] Samples.gapped 3 3).
  - vm_compute. reflexivity.
  - reflexivity.
  - vm_compute. reflexivity.
  - vm_compute. reflexivity.
  - vm_compute. discriminate.
  - intros Hall. apply Forall_cons in Hall as [Hcells _].
    destruct (Hcells 1%nat) as [[v Hv] _]; [lia|].
    vm_compute in Hv. discriminate.
Defined.

(** On the row with the gap it is the answer of index 1 that is missed. *)
Example process_unit_gapped :
  process_unit (Some "7") [Samples.gapped] Samples.plain
  = inl (KeyError "answer_chunk_01").
Proof. vm_compute. reflexivity. Qed.

(** With a column numbered [sys.maxint] no cell is read. *)
Example process_unit_far_column :
  process_unit (Some "7") [Samples.far_column] Samples.plain = inl OverflowError.
Proof. vm_compute. reflexivity. Qed.

End UnitErrorsExamples.

(** ** The judgments and the entries of [fes] *)

Section Judgments.
Import Py ParseResults.
Local Open Scope py_scope.

Context `{mach : Machine}.

Lemma elem_of_cell_judgment (chunk : string) (each : row) (i : nat) (fe : string) :
  fe ∈ cell_judgment chunk each i <->
  each !! ("answer_chunk_" ++ fmt02 i)%string = Some (Some fe) /\
  each !! ("chunk_" ++ fmt02 i)%string = Some (Some chunk) /\
  fe <> "" /\ fe <> "None" /\ chunk <> "".
Proof.
  unfold cell_judgment.
  destruct (each !! ("answer_chunk_" ++ fmt02 i)%string) as [[a|]|];
    [|split; [intros H; by apply elem_of_nil in H | by intros [? _]]..].
  destruct (each !! ("chunk_" ++ fmt02 i)%string) as [[c|]|];
    [|split; [intros H; by apply elem_of_nil in H | by intros (_ & ? & _)]..].
  destruct (String.eqb_spec a "None") as [->|HNone]; simpl.
  { rewrite andb_false_r. simpl. split.
    - intros H. by apply elem_of_nil in H.
    - intros ([= <-] & _ & _ & ? & _). done. }
  rewrite andb_true_r.
  destruct (String.eqb_spec c chunk) as [->|Hc].
  - rewrite andb_true_r. destruct a as [|ca a], chunk as [|cc chunk]; simpl.
    + split; [intros H; by apply elem_of_nil in H | by intros ([= <-] & _ & ? & _)].
    + split; [intros H; by apply elem_of_nil in H | by intros ([= <-] & _ & ? & _)].
    + split; [intros H; by apply elem_of_nil in H | by intros (_ & _ & _ & _ & ?)].
    + rewrite list_elem_of_singleton. split.
      * intros ->. done.
      * by intros ([= <-] & _).
  - rewrite andb_false_r. split.
    + intros H. by apply elem_of_nil in H.
    + intros (_ & [= ?] & _). done.
Qed.

(** X5. The list that [process_unit] collects under a chunk holds, row by
    row and then column by column, the answers of the cells whose chunk is
    that chunk, but for the empty answers and the answers [None]; an empty
    chunk collects nothing, and a chunk is a key only if it collected an
    answer. *)
Theorem judgments_of_rows (sentences : list row) (chunks : gmap string (list string)) :
  judgments_of sentences = inr chunks ->
  exists first n,
    sentences !! 0%nat = Some first /\
    column_count "chunk_" first = inr n /\
    (forall chunk, default [] (chunks !! chunk) = judgments_for chunk n sentences) /\
    (forall chunk, is_Some (chunks !! chunk) <-> judgments_for chunk n sentences <> []) /\
    (forall chunk fe,
       fe ∈ judgments_for chunk n sentences <->
       exists each i,
         each ∈ sentences /\ (i < n)%nat /\
         each !! ("answer_chunk_" ++ fmt02 i)%string = Some (Some fe) /\
         each !! ("chunk_" ++ fmt02 i)%string = Some (Some chunk) /\
         fe <> "" /\ fe <> "None" /\ chunk <> "").
Proof.
  intros H. apply judgments_of_inr in H as (first & n & Hf & Hn & _ & Hb).
  exists first, n. split; [done|]. split; [done|].
  pose proof (collect_judgments_judged _ _ _ Hb) as Hj.
  split; [|split].
  - intros chunk. by apply collect_judgments_lookup.
  - intros chunk. rewrite <- (collect_judgments_lookup _ _ _ chunk Hb). split.
    + intros [js Hjs]. rewrite Hjs. simpl. by eapply Hj.
    + intros Hne. destruct (chunks !! chunk); [eauto | done].
  - intros chunk fe. unfold judgments_for.
    rewrite list_elem_of_In, in_flat_map. split.
    + intros (each & Heach & Hin). apply in_flat_map in Hin as (i & Hi & Hin).
      apply in_seq in Hi. apply list_elem_of_In, elem_of_cell_judgment in Hin.
      exists each, i. split; [by apply list_elem_of_In|]. split; [lia | done].
    + intros (each & i & Heach & Hi & Hcell).
      exists each. split; [by apply list_elem_of_In|].
      apply in_flat_map. exists i. split; [apply in_seq; lia|].
      apply list_elem_of_In, elem_of_cell_judgment. done.
Qed.


End Judgments.

Section JudgmentsExamples.
Import Py ParseResults.
Local Open Scope py_scope.

#[local] Existing Instance Samples.linux64.

Lemma judgments_of_rows_witness :
  exists first n,
    Samples.unit_7 !! 0%nat = Some first /\
    column_count "chunk_" first = inr n /\
    (forall chunk,
       default [] (({[ "A" := ["Agent"; "Agent"; "Agent"];
                       "b" := ["Theme"; "Agent"; "Agent"] ]}
                    : gmap string (list string)) !! chunk)
       = judgments_for chunk n Samples.unit_7) /\
    (forall chunk,
       is_Some (({[ "A" := ["Agent"; "Agent"; "Agent"];
                    "b" := ["Theme"; "Agent"; "Agent"] ]}
                 : gmap string (list string)) !! chunk)
       <-> judgments_for chunk n Samples.unit_7 <> []) /\
    (forall chunk fe,
       fe ∈ judgments_for chunk n Samples.unit_7 <->
       exists each i,
         each ∈ Samples.unit_7 /\ (i < n)%nat /\
         each !! ("answer_chunk_" ++ fmt02 i)%string = Some (Some fe) /\
         each !! ("chunk_" ++ fmt02 i)%string = Some (Some chunk) /\
         fe <> "" /\ fe <> "None" /\ chunk <> "").
Proof.
  apply (judgments_of_rows Samples.unit_7).
  vm_compute. reflexivity.
Defined.

End JudgmentsExamples.

(** ** The keys and the values of [fes] *)

Section Fes.
Import Py ParseResults.
Local Open Scope py_scope.

Context `{mach : Machine}.

Lemma fill_loop_listed (first : row) (idxs : list nat)
    (fes fes' : gmap string (option string)) (fe : string) :
  foldM (fill_missing first) fes idxs = inr fes' ->
  fes !! fe = None -> is_Some (fes' !! fe) -> listed first idxs fe.
Proof.
  revert fes. induction idxs as [|i idxs IH]; intros fes H Hnone Hsome; simpl in H.
  - inversion H; subst. rewrite Hnone in Hsome. by destruct Hsome.
  - apply bind_inr in H as (fes1 & H1 & H).
    apply (fill_missing_lookup _ _ _ _ fe) in H1. rewrite Hnone in H1.
    case_bool_decide as Hd.
    + destruct Hd as [Hne Hcell]. split; [done|]. exists i. split; [left | done].
    + destruct (IH _ H H1 Hsome) as (Hne & j & Hj & Hcell).
      split; [done|]. exists j. split; [by right | done].
Qed.

(** The shape of a returned unit and the facts about its [fes]. *)
Lemma unit_run_fes (unit_id : option string) (sentences : list row)
    (o o' : oracle) (u : gmap string field) :
  unit_run unit_id sentences o u o' ->
  exists first n m chunks els fes id sn fr,
    sentences !! 0%nat = Some first /\
    column_count "chunk_" first = inr n /\
    column_count "fe_" first = inr m /\
    collect_judgments n sentences = inr chunks /\
    judgments_of sentences = inr chunks /\
    elections_of sentences o = inr els /\
    first !! "id" = Some id /\ first !! "sentence" = Some sn /\
    first !! "frame" = Some fr /\
    u = {[ "id" := FStr id; "sentence" := FStr sn;
           "frame" := FStr fr; "fes" := FFes fes ]} /\
    fes_of_elections first m chunks els fes.
Proof.
  intros Hrun. pose proof (unit_run_facts _ _ _ _ _ Hrun)
    as (first' & m' & chunks' & els & fes' & Hfirst' & Hm' & Hj & Hels & Hu & Hnd
        & Hdom & Hmax & Hlast & Hnone & _ & Hinv).
  destruct Hrun as [first n m chunks items o1 fes0 o2 fes id sn fr ks o0
                      Hc Hf Hn Hm Hch Hit Hv Hfill Hid Hsn Hfr Hks Hnle Hmle].
  assert (first' = first) as -> by congruence.
  assert (m' = m) as -> by congruence.
  assert (chunks' = chunks) as ->.
  { apply judgments_of_inr in Hj as (first'' & n'' & Hf'' & Hn'' & _ & Hch'').
    assert (first'' = first) as -> by congruence.
    assert (n'' = n) as -> by congruence. congruence. }
  assert (fes' = fes) as -> by (simplify_map_eq; done).
  exists first, n, m, chunks, els, fes, id, sn, fr.
  unfold fes_of_elections. split_and!; try done.
  intros fe Hsome Hl. split.
    + apply vote_elections in Hv as (els0 & Hels0 & ->).
      assert (els0 = els) as ->.
      { unfold elections_of in Hels. apply index_inr in Hf.
        rewrite Hf, Hj in Hels. simpl in Hels.
        unfold mbind in Hels. rewrite Hks, Hit, Hels0 in Hels. by inversion Hels. }
      eapply fill_loop_listed; [exact Hfill | | done].
      rewrite record_elections_lookup, lookup_empty.
      change (last (List.filter (fun el => String.eqb el.2 fe) els))
        with (last_election els fe). by rewrite Hl.
    + destruct Hsome as [[c|] Hv']; [|done].
      apply Hinv in Hv'. congruence.
Qed.

(** X6. In the unit [process_unit] returns, a frame element is bound to a
    chunk only if some row answers that frame element for that chunk: both
    are non-empty, the frame element is not [None], and a cell [chunk_NN] of
    a row holds the chunk while the cell [answer_chunk_NN] of the same row
    holds the frame element. *)
Theorem fes_entries_come_from_rows (unit_id : option string) (sentences : list row)
    (o o' : oracle) (u : gmap string field) :
  process_unit unit_id sentences o = inr (u, o') ->
  exists first n fes,
    sentences !! 0%nat = Some first /\
    column_count "chunk_" first = inr n /\
    u !! "fes" = Some (FFes fes) /\
    forall fe chunk, fes !! fe = Some (Some chunk) ->
      fe <> "" /\ fe <> "None" /\ chunk <> "" /\
      exists each i,
        each ∈ sentences /\ (i < n)%nat /\
        each !! ("chunk_" ++ fmt02 i)%string = Some (Some chunk) /\
        each !! ("answer_chunk_" ++ fmt02 i)%string = Some (Some fe).
Proof.
  intros Hrun. apply process_unit_run in Hrun.
  pose proof (unit_run_facts _ _ _ _ _ Hrun)
    as (_ & _ & chunks' & els' & fes' & _ & _ & Hj' & Hels' & Hu' & _
        & _ & _ & _ & _ & _ & Hinv).
  destruct (unit_run_fes _ _ _ _ _ Hrun)
    as (first & n & m & chunks & els & fes & id & sn & fr & Hf & Hn & Hm & Hb & Hj
        & Hels & _ & _ & _ & -> & _ & _ & Hmax & _).
  assert (els' = els) as -> by congruence.
  assert (fes' = fes) as -> by (simplify_map_eq; done).
  exists first, n, fes. split_and!; [done | done | done |].
  intros fe chunk Hfe.
  apply Hinv, last_election_Some in Hfe as [Hin _].
  destruct (Hmax _ _ Hin) as (js & Hjs & Hfe & _).
  pose proof (collect_judgments_lookup _ _ _ chunk Hb) as Hl. rewrite Hjs in Hl. simpl in Hl.
  rewrite Hl in Hfe. unfold judgments_for in Hfe.
  apply list_elem_of_In, in_flat_map in Hfe as (each & Heach & Hfe).
  apply in_flat_map in Hfe as (i & Hi & Hfe). apply in_seq in Hi.
  apply list_elem_of_In, elem_of_cell_judgment in Hfe as (Ha & Hc & ? & ? & ?).
  repeat split; try done.
  exists each, i. repeat split; [by apply list_elem_of_In | lia | done | done].
Qed.


(** X7. The keys of [fes] in the unit [process_unit] returns are the frame
    elements that a chunk elected and the non-empty frame elements of the
    cells [fe_NN] of the first row below the count, and no other. *)
Theorem fes_keys_are_elected_or_listed (unit_id : option string) (sentences : list row)
    (o o' : oracle) (u : gmap string field) :
  process_unit unit_id sentences o = inr (u, o') ->
  exists first m els fes,
    sentences !! 0%nat = Some first /\
    column_count "fe_" first = inr m /\
    elections_of sentences o = inr els /\
    u !! "fes" = Some (FFes fes) /\
    forall fe,
      is_Some (fes !! fe) <->
      (exists chunk, (chunk, fe) ∈ els) \/ listed first (seq 0 m) fe.
Proof.
  intros Hrun. apply process_unit_run in Hrun.
  destruct (unit_run_fes _ _ _ _ _ Hrun)
    as (first & n & m & chunks & els & fes & id & sn & fr & Hf & Hn & Hm & Hb & Hj
        & Hels & _ & _ & _ & -> & _ & _ & _ & Hlast & Hnone & Hlisted).
  exists first, m, els, fes. split_and!; [done | done | done | done |].
  intros fe. split.
  - intros Hsome. destruct (last_election els fe) as [[c f]|] eqn:Hl.
    + apply last_election_Some in Hl as [Hin Heq]. simpl in Heq. subst f. eauto.
    + right. by apply Hlisted.
  - intros [[chunk Hin]|Hl].
    + destruct (last_election els fe) as [el|] eqn:Hlast'.
      * rewrite (Hlast _ _ Hlast'). eauto.
      * by destruct (proj1 (last_election_None _ _) Hlast' chunk).
    + destruct (last_election els fe) as [el|] eqn:Hlast'.
      * rewrite (Hlast _ _ Hlast'). eauto.
      * rewrite (Hnone _ Hlast' Hl). eauto.
Qed.


End Fes.

Section FesExamples.
Import Py ParseResults.
Local Open Scope py_scope.

#[local] Existing Instance Samples.linux64.

Lemma fes_entries_come_from_rows_witness :
  exists first n fes,
    Samples.unit_7 !! 0%nat = Some first /\
    column_count "chunk_" first = inr n /\
    ({[ "id" := FStr (Some "s1"); "sentence" := FStr (Some "A b c");
        "frame" := FStr (Some "F");
        "fes" := FFes {[ "Agent" := Some "b"; "Theme" := None; "Place" := None ]} ]}
       : gmap string field) !! "fes" = Some (FFes fes) /\
    forall fe chunk, fes !! fe = Some (Some chunk) ->
      fe <> "" /\ fe <> "None" /\ chunk <> "" /\
      exists each i,
        each ∈ Samples.unit_7 /\ (i < n)%nat /\
        each !! ("chunk_" ++ fmt02 i)%string = Some (Some chunk) /\
        each !! ("answer_chunk_" ++ fmt02 i)%string = Some (Some fe).
Proof.
  apply (fes_entries_come_from_rows (Some "7") Samples.unit_7 Samples.plain Samples.plain).
  vm_compute. reflexivity.
Defined.

Lemma fes_keys_are_elected_or_listed_witness :
  exists first m els fes,
    Samples.unit_7 !! 0%nat = Some first /\
    column_count "fe_" first = inr m /\
    elections_of Samples.unit_7 Samples.plain = inr els /\
    ({[ "id" := FStr (Some "s1"); "sentence" := FStr (Some "A b c");
        "frame" := FStr (Some "F");
        "fes" := FFes {[ "Agent" := Some "b"; "Theme" := None; "Place" := None ]} ]}
       : gmap string field) !! "fes" = Some (FFes fes) /\
    forall fe,
      is_Some (fes !! fe) <->
      (exists chunk, (chunk, fe) ∈ els) \/ listed first (seq 0 m) fe.
Proof.
  apply (fes_keys_are_elected_or_listed (Some "7") Samples.unit_7
           Samples.plain Samples.plain).
  vm_compute. reflexivity.
Defined.

End FesExamples.

(** ** What does not depend on the oracle *)

Section OracleIndependence.
Import Py ParseResults.
Local Open Scope py_scope.

Context `{mach : Machine}.

(** X8. On an empty list of rows [process_unit] fails an assertion: the set
    of the ids is empty, not of size 1. *)
Theorem process_unit_no_rows (unit_id : option string) (o : oracle) :
  process_unit unit_id [] o = inl AssertionError.
Proof. reflexivity. Qed.

Lemma vote_ok (chunks : gmap string (list string)) (items : list (string * list string))
    (o : oracle) :
  judged chunks -> items ≡ₚ map_to_list chunks ->
  exists fes o', vote items ∅ o = inr (fes, o').
Proof.
  intros Hj Hperm. destruct (elections_ok items o) as (els & o' & Hels).
  - intros chunk js Hin. rewrite Hperm in Hin. apply elem_of_map_to_list in Hin.
    by eapply Hj.
  - exists (record_elections els ∅), o'. apply vote_elections. eauto.
Qed.

Lemma fill_missing_cases (first : row) (i : nat) :
  (forall fes, fill_missing first fes i = inl (KeyError ("fe_" ++ fmt02 i))) \/
  (forall fes, exists fes', fill_missing first fes i = inr fes').
Proof.
  unfold fill_missing, getitem.
  destruct (first !! ("fe_" ++ fmt02 i)%string) as [cell|]; simpl; [right | by left].
  intros fes. destruct cell as [f|]; [|unfold ret; eauto].
  destruct (truthy (Some f) && negb (bool_decide (is_Some (fes !! f))));
    unfold ret; eauto.
Qed.

(** The exception of the last loop does not depend on what [fes] holds. *)
Lemma fill_loop_inl (first : row) (idxs : list nat)
    (fes fes' : gmap string (option string)) (e : exn) :
  foldM (fill_missing first) fes idxs = inl e ->
  foldM (fill_missing first) fes' idxs = inl e.
Proof.
  revert fes fes'. induction idxs as [|i idxs IH]; intros fes fes'; simpl; [discriminate|].
  destruct (fill_missing_cases first i) as [Hfail|Hok].
  - by rewrite !Hfail.
  - destruct (Hok fes) as [f1 ->]. destruct (Hok fes') as [f2 ->]. simpl. apply IH.
Qed.

Lemma fill_fes_inl (fe_count : N) (first : row)
    (fes fes' : gmap string (option string)) (e : exn) :
  fill_fes fe_count first fes = inl e -> fill_fes fe_count first fes' = inl e.
Proof.
  unfold fill_fes. destruct (xrange fe_count) as [e'|idxs]; simpl; [done|].
  apply fill_loop_inl.
Qed.

(** On a first row without surplus cells the count in one order of the keys
    raises what it raises in any other. *)
Lemma column_count_of_orders (p : string) (first : row) (ks : list (option string)) :
  surplus first = None ->
  ks ≡ₚ row_keys first ->
  column_count_of (p ++ "_") ks
  = match column_count_of (p ++ "_") (row_keys first) with
    | inl _ => inl ValueError
    | inr n => inr n
    end.
Proof.
  intros Hsur Hperm.
  destruct (column_count_of (p ++ "_") (row_keys first)) as [e|n] eqn:Hn.
  - destruct (column_count_of (p ++ "_") ks) as [e'|n'] eqn:Hn'.
    + destruct (column_count_of_inl p first ks e' Hperm Hn') as [->|[_ [x Hx]]];
        [done | congruence].
    + apply (column_count_of_Permutation _ _ (row_keys first)) in Hn'; [|done].
      congruence.
  - by apply (column_count_of_Permutation _ (row_keys first)).
Qed.

(** Either a step before the vote raises, whatever the oracle, or the rows
    pass the assertions and give their counts and their judgments. *)
Lemma process_unit_pure_prefix (unit_id : option string) (sentences : list row) :
  (forall first, sentences !! 0%nat = Some first -> surplus first = None) ->
  (exists e, forall o, process_unit unit_id sentences o = inl e) \/
  (exists first n m chunks,
     check_unit unit_id sentences = inr tt /\
     sentences !! 0%nat = Some first /\
     column_count "chunk_" first = inr n /\
     column_count "fe_" first = inr m /\
     (N.of_nat n <= maxint)%N /\
     collect_judgments n sentences = inr chunks).
Proof.
  intros Hsur.
  destruct (check_unit unit_id sentences) as [e|[]] eqn:Hc.
  { left. exists e. intros o. unfold process_unit. by rewrite mbind_lift, Hc. }
  destruct (index sentences 0) as [e|first] eqn:Hf.
  { left. exists e. intros o. unfold process_unit.
    by rewrite mbind_lift, Hc, mbind_lift, Hf. }
  pose proof (proj1 (index_inr _ _ _) Hf) as Hf'. specialize (Hsur first Hf').
  assert (forall o, exists ks o0,
            keys first o = inr (ks, o0) /\
            process_unit unit_id sentences o
            = match column_count_of ("chunk" ++ "_") (row_keys first),
                    column_count_of ("fe" ++ "_") (row_keys first) with
              | inr chunk_count, inr fe_count =>
                  (do chunks <- lift (build_chunks chunk_count sentences);
                   do items <- iteritems chunks;
                   do fes <- vote items ∅;
                   do fes <- lift (fill_fes fe_count first fes);
                   do id <- lift (getitem first "id");
                   do sentence <- lift (getitem first "sentence");
                   do frame <- lift (getitem first "frame");
                   mret ({[ "id" := FStr id; "sentence" := FStr sentence;
                            "frame" := FStr frame; "fes" := FFes fes ]}
                         : gmap string field))%pym o0
              | _, _ => inl ValueError
              end)
    as Hrun.
  { intros o. destruct (keys_ok first o) as (ks & o0 & Hks).
    pose proof (keys_inr _ _ _ _ Hks) as Hperm.
    exists ks, o0. split; [done|].
    unfold process_unit. rewrite mbind_lift, Hc, mbind_lift, Hf.
    unfold mbind at 1. rewrite Hks. rewrite mbind_lift.
    change "chunk_" with ("chunk" ++ "_")%string.
    change "fe_" with ("fe" ++ "_")%string.
    rewrite (column_count_of_orders "chunk" first ks Hsur Hperm).
    destruct (column_count_of ("chunk" ++ "_") (row_keys first)) as [e|cn]; [done|].
    rewrite mbind_lift.
    rewrite (column_count_of_orders "fe" first ks Hsur Hperm).
    by destruct (column_count_of ("fe" ++ "_") (row_keys first)) as [e|cm]. }
  destruct (column_count_of ("chunk" ++ "_") (row_keys first)) as [e|cn] eqn:Hn.
  { left. exists ValueError. intros o. by destruct (Hrun o) as (ks & o0 & _ & ->). }
  destruct (column_count_of ("fe" ++ "_") (row_keys first)) as [e|cm] eqn:Hm.
  { left. exists ValueError. intros o. by destruct (Hrun o) as (ks & o0 & _ & ->). }
  assert (sentences <> []) as Hne by (intros ->; by rewrite lookup_nil in Hf').
  destruct (N.le_gt_cases cn maxint) as [Hle|Hlt].
  - destruct (collect_judgments (N.to_nat cn) sentences) as [e|chunks] eqn:Hb.
    + left. exists e. intros o. destruct (Hrun o) as (ks & o0 & _ & ->).
      rewrite mbind_lift. by rewrite (build_chunks_collect _ _ Hle), Hb.
    + right. exists first, (N.to_nat cn), (N.to_nat cm), chunks.
      split_and!; try done.
      * apply column_count_inr. eauto.
      * apply column_count_inr. eauto.
      * by rewrite N2Nat.id.
  - left. exists OverflowError. intros o. destruct (Hrun o) as (ks & o0 & _ & ->).
    rewrite mbind_lift. by rewrite (build_chunks_overflow _ _ Hne Hlt).
Qed.

(** X9. On rows whose first has no surplus cells, which exception
    [process_unit] raises does not depend on the order of the dictionaries
    nor on the random draws: a call that raises with one oracle raises the
    same exception with any other. *)
Theorem process_unit_exception_is_determined (unit_id : option string)
    (sentences : list row) (o1 o2 : oracle) (e : exn) :
  (forall first, sentences !! 0%nat = Some first -> surplus first = None) ->
  process_unit unit_id sentences o1 = inl e ->
  process_unit unit_id sentences o2 = inl e.
Proof.
  intros Hsur H.
  destruct (process_unit_pure_prefix unit_id sentences Hsur)
    as [[e0 He0]|(first & n & m & chunks & Hc & Hf & Hn & Hm & Hle & Hb)].
  { rewrite He0 in H. by rewrite He0. }
  destruct (keys_ok first o1) as (ks1 & oa0 & Hk1).
  destruct (keys_ok first o2) as (ks2 & ob0 & Hk2).
  rewrite (process_unit_prefix _ _ o1 oa0 first n m ks1 Hc Hf Hk1 Hn Hm Hle), Hb in H.
  rewrite (process_unit_prefix _ _ o2 ob0 first n m ks2 Hc Hf Hk2 Hn Hm Hle), Hb.
  pose proof (collect_judgments_judged _ _ _ Hb) as Hj.
  destruct (iteritems_ok chunks oa0) as (items1 & oa & Hit1).
  destruct (iteritems_ok chunks ob0) as (items2 & ob & Hit2).
  destruct (vote_ok chunks items1 oa Hj (iteritems_inr _ _ _ _ Hit1)) as (fes1 & oa' & Hv1).
  destruct (vote_ok chunks items2 ob Hj (iteritems_inr _ _ _ _ Hit2)) as (fes2 & ob' & Hv2).
  unfold mbind, lift in H. rewrite Hit1, Hv1 in H.
  unfold mbind, lift. rewrite Hit2, Hv2.
  destruct (fill_fes (N.of_nat m) first fes1) as [e1|f1] eqn:Hf1; simpl in H.
  - inversion H; subst e1. by rewrite (fill_fes_inl _ _ fes1 fes2 e Hf1).
  - destruct (fill_fes (N.of_nat m) first fes2) as [e2|f2] eqn:Hf2; simpl.
    + rewrite (fill_fes_inl _ _ fes2 fes1 e2 Hf2) in Hf1. discriminate.
    + destruct (getitem first "id"); simpl in *; [done|].
      destruct (getitem first "sentence"); simpl in *; [done|].
      destruct (getitem first "frame"); simpl in *; [done | discriminate].
Qed.

(** Without ties and collisions the entries of one run are entries of any
    other run. *)
Lemma fes_of_elections_included (first : row) (m : nat)
    (chunks : gmap string (list string))
    (els1 els2 : list (string * string)) (fes1 fes2 : gmap string (option string))
    (fe : string) (v : option string) :
  unambiguous chunks ->
  fes_of_elections first m chunks els1 fes1 ->
  fes_of_elections first m chunks els2 fes2 ->
  fes1 !! fe = Some v -> fes2 !! fe = Some v.
Proof.
  intros [Htie Hcol] (Hnd1 & Hdom1 & Htop1 & Hlast1 & Hnone1 & Hlisted1)
         (Hnd2 & Hdom2 & Htop2 & Hlast2 & Hnone2 & Hlisted2) Hfe.
  assert (forall elsA elsB,
            (forall chunk, chunk ∈ elsA.*1 <-> is_Some (chunks !! chunk)) ->
            (forall chunk, chunk ∈ elsB.*1 <-> is_Some (chunks !! chunk)) ->
            (forall chunk fe, (chunk, fe) ∈ elsA ->
               exists js, chunks !! chunk = Some js /\ top_voted fe js) ->
            (forall chunk fe, (chunk, fe) ∈ elsB ->
               exists js, chunks !! chunk = Some js /\ top_voted fe js) ->
            forall chunk f, (chunk, f) ∈ elsA -> (chunk, f) ∈ elsB) as Hsame.
  { intros elsA elsB HdA HdB HtA HtB chunk f Hin.
    destruct (HtA _ _ Hin) as (js & Hjs & Htop).
    assert (chunk ∈ elsB.*1) as HinB by (apply HdB; eauto).
    apply list_elem_of_fmap in HinB as ([c f'] & -> & HinB). simpl in *.
    destruct (HtB _ _ HinB) as (js' & Hjs' & Htop').
    assert (js' = js) as -> by congruence.
    by rewrite (Htie _ _ _ _ Hjs Htop Htop'). }
  assert (forall c, last_election els1 fe = Some (c, fe) ->
                    last_election els2 fe = Some (c, fe)) as Hstep.
  { intros c Hl. apply last_election_Some in Hl as [Hin _].
    pose proof (Hsame els1 els2 Hdom1 Hdom2 Htop1 Htop2 _ _ Hin) as Hin2.
    destruct (last_election els2 fe) as [[c2 f2]|] eqn:Hl2.
    - apply last_election_Some in Hl2 as [Hin2' Hf2]. simpl in Hf2. subst f2.
      destruct (Htop1 _ _ Hin) as (j1 & Hj1 & Ht1).
      destruct (Htop2 _ _ Hin2') as (j2 & Hj2 & Ht2).
      by rewrite (Hcol _ _ _ _ _ Hj1 Hj2 Ht1 Ht2).
    - by destruct (proj1 (last_election_None _ _) Hl2 c). }
  destruct (last_election els1 fe) as [[c f]|] eqn:Hl1.
  - pose proof (Hlast1 _ _ Hl1) as Hv. simpl in Hv.
    apply last_election_Some in Hl1 as Hl1'. destruct Hl1' as [_ Hf]. simpl in Hf.
    subst f. rewrite Hv in Hfe. inversion Hfe; subst v.
    by rewrite (Hlast2 _ _ (Hstep c eq_refl)).
  - destruct (Hlisted1 fe) as [Hl Hnone]; [eauto | done |].
    rewrite Hnone in Hfe. inversion Hfe; subst v.
    apply Hnone2; [|done].
    destruct (last_election els2 fe) as [[c2 f2]|] eqn:Hl2; [|done].
    apply last_election_Some in Hl2 as [Hin2 Hf2]. simpl in Hf2. subst f2.
    pose proof (Hsame els2 els1 Hdom2 Hdom1 Htop2 Htop1 _ _ Hin2) as Hin1.
    by destruct (proj1 (last_election_None _ _) Hl1 c2).
Qed.

(** X10. When no chunk has a tie between its most voted frame elements and
    no frame element is the most voted of two chunks, the unit that
    [process_unit] returns does not depend on the order of the dictionaries
    nor on the random draws. *)
Theorem process_unit_unambiguous (unit_id : option string) (sentences : list row)
    (chunks : gmap string (list string))
    (o1 o1' o2 o2' : oracle) (u1 u2 : gmap string field) :
  judgments_of sentences = inr chunks ->
  unambiguous chunks ->
  process_unit unit_id sentences o1 = inr (u1, o1') ->
  process_unit unit_id sentences o2 = inr (u2, o2') ->
  u1 = u2.
Proof.
  intros Hj Hun H1 H2. apply process_unit_run in H1, H2.
  destruct (unit_run_fes _ _ _ _ _ H1)
    as (first & n & m & chunks1 & els1 & fes1 & id & sn & fr & Hf & Hn & Hm & _ & Hj1
        & _ & Hid & Hsn & Hfr & -> & Hfacts1).
  destruct (unit_run_fes _ _ _ _ _ H2)
    as (first2 & n2 & m2 & chunks2 & els2 & fes2 & id2 & sn2 & fr2 & Hf2 & Hn2 & Hm2
        & _ & Hj2 & _ & Hid2 & Hsn2 & Hfr2 & -> & Hfacts2).
  assert (first2 = first) as -> by congruence.
  assert (m2 = m) as -> by congruence.
  assert (chunks1 = chunks) as -> by congruence.
  assert (chunks2 = chunks) as -> by congruence.
  assert (id2 = id) as -> by congruence.
  assert (sn2 = sn) as -> by congruence.
  assert (fr2 = fr) as -> by congruence.
  assert (fes1 = fes2) as ->; [|done].
  apply map_eq. intros fe.
  destruct (fes1 !! fe) as [v|] eqn:Hv1.
  - symmetry. by eapply (fes_of_elections_included first m chunks els1 els2).
  - destruct (fes2 !! fe) as [v|] eqn:Hv2; [|done].
    rewrite (fes_of_elections_included first m chunks els2 els1 fes2 fes1 fe v) in Hv1;
      done.
Qed.

End OracleIndependence.

Section OracleIndependenceExamples.
Import Py ParseResults.
Local Open Scope py_scope.

#[local] Existing Instance Samples.linux64.

Lemma process_unit_exception_is_determined_witness :
  process_unit (Some "7") [Samples.gapped] (Oracle [[3; 1]; [2]] [5; 4])
  = inl (KeyError "answer_chunk_01").
Proof.
  apply (process_unit_exception_is_determined (Some "7") [Samples.gapped] Samples.plain).
  - intros first [= <-]. reflexivity.
  - vm_compute. reflexivity.
Defined.

(** On a line longer than the header the order of the keys decides: in one
    order [re.match] meets the key [None] first, in another [int] meets a
    column whose number does not parse. *)
Example process_unit_order_of_keys :
  process_unit (Some "7") [Samples.overlong_unparsed] Samples.plain = inl ValueError /\
  process_unit (Some "7") [Samples.overlong_unparsed] (Oracle [[12]] [])
  = inl TypeError.
Proof. split; vm_compute; reflexivity. Qed.

(** One judgment: [Agent] for the chunk [A], [Theme] for the chunk [b]. *)
Lemma judgment_1_unambiguous :
  unambiguous ({[ "A" := ["Agent"]; "b" := ["Theme"] ]} : gmap string (list string)).
Proof.
  assert (map_to_list ({[ "A" := ["Agent"]; "b" := ["Theme"] ]}
                       : gmap string (list string))
          = [("A", ["Agent"]); ("b", ["Theme"])]) as Hlist
    by (vm_compute; reflexivity).
  assert (forall chunk js,
            ({[ "A" := ["Agent"]; "b" := ["Theme"] ]} : gmap string (list string))
              !! chunk = Some js ->
            (chunk = "A" /\ js = ["Agent"]) \/ (chunk = "b" /\ js = ["Theme"])) as Hcases.
  { intros chunk js H. apply elem_of_map_to_list in H. rewrite Hlist in H.
    apply elem_of_cons in H as [[= -> ->]|H]; [by left|].
    apply list_elem_of_singleton in H as [= -> ->]. by right. }
  split.
  - intros chunk js fe1 fe2 H [H1 _] [H2 _].
    destruct (Hcases _ _ H) as [[_ ->]|[_ ->]];
      apply list_elem_of_singleton in H1, H2; congruence.
  - intros c1 c2 j1 j2 fe H1 H2 [Hf1 _] [Hf2 _].
    destruct (Hcases _ _ H1) as [[-> ->]|[-> ->]],
             (Hcases _ _ H2) as [[-> ->]|[-> ->]];
      apply list_elem_of_singleton in Hf1, Hf2; congruence.
Qed.

Lemma process_unit_unambiguous_witness :
  ({[ "id" := FStr (Some "s1"); "sentence" := FStr (Some "A b c");
      "frame" := FStr (Some "F");
      "fes" := FFes {[ "Agent" := Some "A"; "Theme" := Some "b"; "Place" := None ]} ]}
     : gmap string field)
  = {[ "frame" := FStr (Some "F"); "id" := FStr (Some "s1");
       "fes" := FFes {[ "Place" := None; "Theme" := Some "b"; "Agent" := Some "A" ]};
       "sentence" := FStr (Some "A b c") ]}.
Proof.
  eapply (process_unit_unambiguous (Some "7") [Samples.judgment_1]
            {[ "A" := ["Agent"]; "b" := ["Theme"] ]}
            Samples.plain _ Samples.shuffled _).
  - vm_compute. reflexivity.
  - apply judgment_1_unambiguous.
  - vm_compute. reflexivity.
  - vm_compute. reflexivity.
Defined.

(** With a tie the draw decides: the chunk [A] has one vote for [Agent] and
    one for [Theme], and two oracles give two units. *)
Example process_unit_tie :
  process_unit (Some "7") [Samples.judgment_1; Samples.judgment_3] (Oracle [] [0])
  <> process_unit (Some "7") [Samples.judgment_1; Samples.judgment_3] (Oracle [] [1]).
Proof. vm_compute. discriminate. Qed.

End OracleIndependenceExamples.

(** ** The groups of [main] *)

Section Groups.
Import Py ParseResults.
Local Open Scope py_scope.

Context `{mach : Machine}.
Variable json_dumps : gmap string field -> result string.

Local Abbreviation main := (main json_dumps).
Local Abbreviation line_of := (line_of json_dumps).

Lemma insert_row_concat (acc : gmap (option string) (list row))
    (k : option string) (r : row) :
  concat (map_to_list (<[k := default [] (acc !! k) ++ [r]]> acc)).*2
  ≡ₚ concat (map_to_list acc).*2 ++ [r].
Proof.
  destruct (acc !! k) as [old|] eqn:Hk; simpl.
  - rewrite <- insert_delete_eq.
    rewrite map_to_list_insert by apply lookup_delete_eq.
    rewrite <- (map_to_list_delete acc k old Hk). simpl.
    rewrite <- !app_assoc. apply Permutation_app_head, Permutation_app_comm.
  - rewrite map_to_list_insert by done. simpl.
    apply Permutation_cons_append.
Qed.

Lemma group_fold_concat (acc sentences : gmap (option string) (list row))
    (results : list row) :
  foldM (fun (sentences : gmap (option string) (list row)) (each : row) =>
           do k <- getitem each "_unit_id";
           ret (<[k := default [] (sentences !! k) ++ [each]]> sentences))
        acc results = inr sentences ->
  concat (map_to_list sentences).*2 ≡ₚ concat (map_to_list acc).*2 ++ results.
Proof.
  revert acc. induction results as [|r results IH]; intros acc H; simpl in H.
  - inversion H; subst. by rewrite app_nil_r.
  - apply bind_inr in H as (acc1 & H1 & H).
    apply bind_inr in H1 as (k & Hk & H1). inversion H1; subst acc1.
    rewrite (IH _ H), insert_row_concat, <- app_assoc. done.
Qed.

(** X11. The grouping of [main] loses no row and makes none up: the groups,
    put end to end, are a permutation of the rows of the file; the group of a
    unit id holds the rows with that id, in the order of the file, and no
    group is empty. *)
Theorem group_rows_partition (results : list row)
    (sentences : gmap (option string) (list row)) :
  group_rows results = inr sentences ->
  concat (map_to_list sentences).*2 ≡ₚ results /\
  (forall k v, sentences !! k = Some v -> v = unit_rows k results /\ v <> []) /\
  dom sentences = unit_ids results.
Proof.
  intros H. split; [|split].
  - unfold group_rows in H. apply group_fold_concat in H.
    by rewrite map_to_list_empty in H.
  - intros k v Hk. by apply (group_rows_inr _ _ H).
  - apply set_eq. intros k. rewrite elem_of_dom, elem_of_unit_ids. split.
    + intros [v Hv]. apply (group_rows_inr _ _ H) in Hv as [-> Hne]. done.
    + intros Hne. exists (unit_rows k results). by apply (group_rows_inr _ _ H).
Qed.

Lemma group_rows_partition_witness :
  concat (map_to_list ({[ Some "7" := Samples.unit_7;
                          Some "8" := [Samples.judgment_8] ]}
                       : gmap (option string) (list row))).*2
  ≡ₚ Samples.two_units /\
  (forall k v,
     ({[ Some "7" := Samples.unit_7; Some "8" := [Samples.judgment_8] ]}
      : gmap (option string) (list row)) !! k = Some v ->
     v = unit_rows k Samples.two_units /\ v <> []) /\
  dom ({[ Some "7" := Samples.unit_7; Some "8" := [Samples.judgment_8] ]}
       : gmap (option string) (list row))
  = unit_ids Samples.two_units.
Proof.
  apply (group_rows_partition Samples.two_units).
  vm_compute. reflexivity.
Defined.

(** A row without the column raises in the grouping loop. *)
Lemma group_fold_KeyError (acc : gmap (option string) (list row)) (results : list row) :
  (exists r, r ∈ results /\ r !! "_unit_id" = None) ->
  foldM (fun (sentences : gmap (option string) (list row)) (each : row) =>
           do k <- getitem each "_unit_id";
           ret (<[k := default [] (sentences !! k) ++ [each]]> sentences))
        acc results = inl (KeyError "_unit_id").
Proof.
  revert acc. induction results as [|r results IH]; intros acc (x & Hx & Hnone).
  - by apply elem_of_nil in Hx.
  - simpl. unfold getitem at 1.
    destruct (r !! "_unit_id") as [k|] eqn:Hk; simpl.
    + apply IH. apply elem_of_cons in Hx as [->|Hx]; [congruence | eauto].
    + done.
Qed.

(** X12. When a row of the file has no [_unit_id], [main] raises
    [KeyError] in its first loop and writes nothing, whatever the other
    rows. *)
Theorem main_row_without_unit_id (results : list row) (o : oracle) :
  (exists r, r ∈ results /\ r !! "_unit_id" = None) ->
  main results o = ([], Some (KeyError "_unit_id")).
Proof.
  intros H. unfold ParseResults.main, group_rows.
  by rewrite (group_fold_KeyError ∅ results H).
Qed.


(** X13. [main] never writes two lines for one unit id: the lines written
    are lines of distinct units of the file, so there are no more lines than
    distinct unit ids, and exactly as many when [main] ends without an
    exception. *)
Theorem main_lines_bounded (results : list row) (o : oracle) :
  (length (main results o).1 <= size (unit_ids results))%nat /\
  ((main results o).2 = None ->
   length (main results o).1 = size (unit_ids results)) /\
  exists ks,
    NoDup ks /\ (forall k, k ∈ ks -> k ∈ unit_ids results) /\
    Forall2 (line_of results) ks (main results o).1.
Proof.
  destruct (main_lines json_dumps results o) as (ks & Hnd & Hsub & Hall & Hcomplete).
  pose proof (Forall2_length _ _ _ Hall) as Hlen. rewrite <- Hlen.
  assert (ks ⊆+ elements (unit_ids results)) as Hsubm.
  { apply NoDup_submseteq; [done|]. intros k Hk. apply elem_of_elements. by apply Hsub. }
  split; [|split].
  - apply submseteq_length in Hsubm. by unfold size, set_size in *.
  - intros Hs. assert (ks ≡ₚ elements (unit_ids results)) as Hperm.
    { apply NoDup_Permutation; [done | apply NoDup_elements |].
      intros k. rewrite elem_of_elements. split; [apply Hsub | by apply Hcomplete]. }
    unfold size, set_size. simpl. by rewrite Hperm.
  - by exists ks.
Qed.

End Groups.

Section GroupsExamples.
Import Py ParseResults.
Local Open Scope py_scope.

#[local] Existing Instance Samples.linux64.

Lemma main_row_without_unit_id_witness :
  main Samples.sample_dumps
       (Samples.unit_7 ++ [delete "_unit_id" Samples.judgment_8]) Samples.plain
  = ([], Some (KeyError "_unit_id")).
Proof.
  apply main_row_without_unit_id.
  exists (delete "_unit_id" Samples.judgment_8). split.
  - apply elem_of_app. right. left.
  - vm_compute. reflexivity.
Defined.

End GroupsExamples.

(** * Further properties of [pos_tag.py] *)

(** ** [_postprocess_tags] and [_tokenizer_wrapper] *)

Section Postprocess.
Import Py PosTag.
Local Open Scope py_scope.

Lemma filter_filter_id {A} (P : A -> bool) (l : list A) :
  List.filter P (List.filter P l) = List.filter P l.
Proof.
  induction l as [|x l IH]; simpl; [done|].
  destruct (P x) eqn:Hx; simpl; [rewrite Hx; by f_equal | done].
Qed.

(** X14. With [skip_unknown] true, [_postprocess_tags] does not raise; it
    returns exactly the entries of the list that are tags with a lemma other
    than [<unknown>], each as often as it occurs and in the original order,
    and cleaning a cleaned list changes nothing. *)
Theorem postprocess_tags_drops_unknown (tags : list tag) :
  postprocess_tags tags true = inr (List.filter (fun t => negb (unknown t)) tags) /\
  (forall t, unknown t = false <->
     exists word pos lemma, t = Tag word pos lemma /\ lemma <> "<unknown>") /\
  postprocess_tags (List.filter (fun t => negb (unknown t)) tags) true
  = inr (List.filter (fun t => negb (unknown t)) tags).
Proof.
  split; [apply postprocess_tags_true|]. split.
  - intros t. split.
    + destruct t as [w p l|w]; simpl; [|done]. intros Hk.
      exists w, p, l. split; [done|]. intros ->. done.
    + intros (w & p & l & -> & Hl). simpl.
      destruct (String.eqb_spec l "<unknown>"); done.
  - rewrite postprocess_tags_true. by rewrite filter_filter_id.
Qed.

(** Two occurrences of a tag are both kept, and the order is kept. *)
Example postprocess_tags_keeps_duplicates :
  postprocess_tags [Tag "a" "NN" "a"; NotTag "<s>"; Tag "b" "NN" "<unknown>";
                    Tag "c" "VB" "c"; Tag "a" "NN" "a"] true
  = inr [Tag "a" "NN" "a"; Tag "c" "VB" "c"; Tag "a" "NN" "a"].
Proof. reflexivity. Qed.

(** X15. With [skip_unknown] false, [_postprocess_tags] raises
    [AttributeError] as soon as the list holds a line that is not a tag (the
    test reads the [lemma] of a [NotTag]); on a list of tags it still drops
    the unknown lemmas, as with [skip_unknown] true. *)
Theorem postprocess_tags_keep_unknown (tags : list tag) :
  postprocess_tags tags false
  = if existsb is_not_tag tags then inl AttributeError
    else postprocess_tags tags true.
Proof.
  induction tags as [|t tags IH]; simpl; [done|].
  destruct t as [w p l|w]; simpl; [|done].
  rewrite IH. by destruct (existsb is_not_tag tags).
Qed.

Variable tokenize : string -> list string.

Lemma tokenizer_loop (text_list : list string) (tokens : list string) :
  fold_left (fun tokens text =>
               fold_left (fun tokens token => tokens ++ [token]) (tokenize text) tokens)
            text_list tokens
  = tokens ++ concat (map tokenize text_list).
Proof.
  revert tokens. induction text_list as [|text texts IH]; intros tokens; simpl.
  - by rewrite app_nil_r.
  - rewrite IH, app_assoc. f_equal.
    generalize (tokenize text). intros toks. revert tokens.
    induction toks as [|tok toks IHt]; intros tokens; simpl.
    + by rewrite app_nil_r.
    + rewrite IHt, <- app_assoc. done.
Qed.

(** X16. [_tokenizer_wrapper] returns the tokens of the texts one text after
    the other, each in the order of the tokenizer: nothing for no text, and
    the tokens of two lists of texts put end to end are the tokens of the
    first followed by those of the second. *)
Theorem tokenizer_wrapper_concat (texts1 texts2 : list string) :
  tokenizer_wrapper tokenize texts1 = concat (map tokenize texts1) /\
  tokenizer_wrapper tokenize (texts1 ++ texts2)
  = tokenizer_wrapper tokenize texts1 ++ tokenizer_wrapper tokenize texts2.
Proof.
  unfold tokenizer_wrapper. rewrite !tokenizer_loop. simpl.
  split; [done|]. by rewrite map_app, concat_app.
Qed.

End Postprocess.

(** ** The jobs of [TTPosTagger.tag_many] *)

Section Jobs.
Import Py PosTag.
Local Open Scope py_scope.

Variable tree_tagger : value -> list tag.

Lemma submits_app (evs1 evs2 : list event) :
  submits (evs1 ++ evs2) = submits evs1 ++ submits evs2.
Proof. unfold submits. apply omap_app. Qed.

Lemma waits_app (evs1 evs2 : list event) :
  waits (evs1 ++ evs2) = waits evs1 ++ waits evs2.
Proof. unfold waits. apply omap_app. Qed.

Lemma finalize_submits_waits (jobs : list (item * job)) (pos_tag_key : string) :
  submits (flat_map (fun j => [Wait (job_id j.2);
                               Yield (finished tree_tagger pos_tag_key j)]) jobs) = [] /\
  waits (flat_map (fun j => [Wait (job_id j.2);
                             Yield (finished tree_tagger pos_tag_key j)]) jobs)
  = map (fun j => job_id j.2) jobs.
Proof.
  induction jobs as [|j jobs [IH1 IH2]]; simpl; [done|].
  split; [done | by f_equal].
Qed.

Lemma tag_loop_jobs (document_key pos_tag_key : string) (batch_size : Z)
    (i : nat) (items : list item) (jobs : list (item * job)) :
  batch_size <> 0%Z ->
  submits (tag_loop tree_tagger document_key pos_tag_key batch_size i items jobs).1
  = eligible_indices document_key i items /\
  waits (tag_loop tree_tagger document_key pos_tag_key batch_size i items jobs).1
  = map (fun j => job_id j.2) jobs ++ eligible_indices document_key i items.
Proof.
  intros Hbs. revert i jobs. induction items as [|it items IH]; intros i jobs; simpl.
  - rewrite finalize_batch_events. simpl.
    destruct (finalize_submits_waits jobs pos_tag_key) as [-> ->].
    by rewrite app_nil_r.
  - fold (eligible document_key it).
    destruct (eligible document_key it) eqn:Hel; simpl; [|apply IH].
    destruct (eligible_Some _ _ Hel) as [text Htext]. rewrite Htext.
    assert ((batch_size =? 0)%Z = false) as -> by by apply Z.eqb_neq.
    destruct (Z.of_nat i mod batch_size =? 0)%Z.
    + rewrite finalize_batch_events.
      destruct (IH (S i) []) as [Hs Hw].
      destruct (finalize_submits_waits (jobs ++ [(it, Job i text)]) pos_tag_key)
        as [Hfs Hfw].
      unfold gen_then. simpl. rewrite submits_app, waits_app, Hfs, Hfw, Hs, Hw.
      simpl. split; [done|]. rewrite map_app. simpl. by rewrite <- app_assoc.
    + destruct (IH (S i) (jobs ++ [(it, Job i text)])) as [Hs Hw].
      unfold gen_then. simpl. rewrite Hs, Hw. split; [done|].
      rewrite map_app. simpl. by rewrite <- app_assoc.
Qed.

(** X18. With a batch size other than 0, [tag_many] submits one job per
    eligible item, numbered by the position of the item in the input, and
    awaits every job it submitted, once and in the order of submission. *)
Theorem tt_tag_many_awaits_each_job (items : list item)
    (document_key pos_tag_key : string) (batch_size : Z) :
  batch_size <> 0%Z ->
  submits (tt_tag_many tree_tagger items document_key pos_tag_key batch_size).1
  = eligible_indices document_key 0 items /\
  waits (tt_tag_many tree_tagger items document_key pos_tag_key batch_size).1
  = submits (tt_tag_many tree_tagger items document_key pos_tag_key batch_size).1 /\
  length (submits (tt_tag_many tree_tagger items document_key pos_tag_key batch_size).1)
  = length (List.filter (eligible document_key) items).
Proof.
  intros Hbs. unfold tt_tag_many.
  destruct (tag_loop_jobs document_key pos_tag_key batch_size 0 items [] Hbs)
    as [Hs Hw].
  destruct (tag_loop tree_tagger document_key pos_tag_key batch_size 0 items [])
    as [evs status].
  simpl in *.
  change (StartPoll :: evs ++ [StopPoll]) with ([StartPoll] ++ evs ++ [StopPoll]).
  rewrite !submits_app, !waits_app, Hs, Hw. simpl. rewrite !app_nil_r.
  split; [done|]. split; [done|].
  clear. generalize 0%nat. induction items as [|it items IH]; intros i; simpl; [done|].
  destruct (eligible document_key it); simpl; by rewrite IH.
Qed.

(** X19. With a batch size of 0, the test [i % batch_size] raises
    [ZeroDivisionError] at the first eligible item: its job is submitted and
    never awaited, nothing is yielded; without an eligible item the run ends
    normally. *)
Theorem tt_tag_many_batch_size_zero (items : list item)
    (document_key pos_tag_key : string) :
  (tt_tag_many tree_tagger items document_key pos_tag_key 0).2
  = (if existsb (eligible document_key) items then Some ZeroDivisionError else None) /\
  yields (tt_tag_many tree_tagger items document_key pos_tag_key 0).1 = [] /\
  waits (tt_tag_many tree_tagger items document_key pos_tag_key 0).1 = [] /\
  submits (tt_tag_many tree_tagger items document_key pos_tag_key 0).1
  = take 1 (eligible_indices document_key 0 items).
Proof.
  unfold tt_tag_many.
  assert (forall i,
            (tag_loop tree_tagger document_key pos_tag_key 0 i items []).2
            = (if existsb (eligible document_key) items
               then Some ZeroDivisionError else None) /\
            yields (tag_loop tree_tagger document_key pos_tag_key 0 i items []).1 = [] /\
            waits (tag_loop tree_tagger document_key pos_tag_key 0 i items []).1 = [] /\
            submits (tag_loop tree_tagger document_key pos_tag_key 0 i items []).1
            = take 1 (eligible_indices document_key i items)) as Hloop.
  { induction items as [|it items IH]; intros i; simpl; [done|].
    fold (eligible document_key it).
    destruct (eligible document_key it) eqn:Hel; simpl; [|apply IH].
    destruct (eligible_Some _ _ Hel) as [text ->]. simpl. by rewrite take_0. }
  destruct (Hloop 0%nat) as (Hs & Hy & Hw & Hsub).
  destruct (tag_loop tree_tagger document_key pos_tag_key 0 0 items []) as [evs status].
  simpl in *.
  change (StartPoll :: evs ++ [StopPoll]) with ([StartPoll] ++ evs ++ [StopPoll]).
  rewrite !yields_app, !waits_app, !submits_app, Hy, Hw, Hsub. simpl.
  by rewrite app_nil_r.
Qed.

(** X20. With a batch size of 1 every job is awaited as soon as it is
    submitted: the run is, for each eligible item in turn, the submission of
    its text, the wait for the job and the yield of the tagged item. *)
Theorem tt_tag_many_batch_size_one (items : list item)
    (document_key pos_tag_key : string) :
  tt_tag_many tree_tagger items document_key pos_tag_key 1
  = (StartPoll :: sequential tree_tagger document_key pos_tag_key 0 items ++ [StopPoll],
     None).
Proof.
  unfold tt_tag_many.
  assert (forall i,
            tag_loop tree_tagger document_key pos_tag_key 1 i items []
            = (sequential tree_tagger document_key pos_tag_key i items, None)) as Hloop.
  { induction items as [|it items IH]; intros i; simpl; [done|].
    fold (eligible document_key it).
    destruct (eligible document_key it) eqn:Hel; simpl; [|apply IH].
    destruct (eligible_Some _ _ Hel) as [text Htext]. rewrite Htext.
    rewrite Z.mod_1_r. simpl. rewrite postprocess_tags_true, IH. simpl.
    unfold tagged. by rewrite Htext. }
  by rewrite Hloop.
Qed.

End Jobs.

Section JobsExamples.
Import Py PosTag.
Local Open Scope py_scope.

Lemma tt_tag_many_awaits_each_job_witness :
  submits (tt_tag_many Samples.sample_tagger
             [Samples.scraped "a"; Samples.scraped ""; Samples.scraped "b"]
             "text" "tagged" 2).1
  = eligible_indices "text" 0
      [Samples.scraped "a"; Samples.scraped ""; Samples.scraped "b"] /\
  waits (tt_tag_many Samples.sample_tagger
           [Samples.scraped "a"; Samples.scraped ""; Samples.scraped "b"]
           "text" "tagged" 2).1
  = submits (tt_tag_many Samples.sample_tagger
               [Samples.scraped "a"; Samples.scraped ""; Samples.scraped "b"]
               "text" "tagged" 2).1 /\
  length (submits (tt_tag_many Samples.sample_tagger
                     [Samples.scraped "a"; Samples.scraped ""; Samples.scraped "b"]
                     "text" "tagged" 2).1)
  = length (List.filter (eligible "text")
              [Samples.scraped "a"; Samples.scraped ""; Samples.scraped "b"]).
Proof.
  apply (tt_tag_many_awaits_each_job Samples.sample_tagger
           [Samples.scraped "a"; Samples.scraped ""; Samples.scraped "b"]
           "text" "tagged" 2).
  discriminate.
Defined.

(** The jobs of the sample are those of the items at positions 0 and 2. *)
Example sample_jobs :
  submits (tt_tag_many Samples.sample_tagger
             [Samples.scraped "a"; Samples.scraped ""; Samples.scraped "b"]
             "text" "tagged" 2).1 = [0; 2]%nat.
Proof. vm_compute. reflexivity. Qed.

Lemma first_batch_has_one_job_witness :
  exists text evs,
    Samples.scraped "a" !! "text" = Some text /\
    (tt_tag_many Samples.sample_tagger
       (Samples.scraped "a" :: [Samples.scraped "b"; Samples.scraped "c"])
       "text" "tagged" 10000).1
    = [StartPoll; Submit 0 text; Wait 0;
       Yield (tagged Samples.sample_tagger "text" "tagged" (Samples.scraped "a"))] ++ evs.
Proof.
  apply (first_batch_has_one_job Samples.sample_tagger (Samples.scraped "a")
           [Samples.scraped "b"; Samples.scraped "c"] "text" "tagged" 10000).
  - discriminate.
  - reflexivity.
Defined.

End JobsExamples.

(** ** [main] of [pos_tag.py] with TreeTagger *)

Section TaggerMain.
Import Py PosTag.
Local Open Scope py_scope.

Variable tree_tagger : value -> list tag.
Variable word_tokenize : item -> result (list string).
Variable pos_tag_sents :
  list (list string) -> pyarg -> result (list (list (string * string))).

(** X23. With [--tagger tt] and [--batch-size 0], a corpus that has an item
    to tag makes [main] raise [ZeroDivisionError] before it writes a line. *)
Theorem main_tt_batch_size_zero (corpus : list item)
    (document_key pos_tag_key language_code : string) (tt_home : option string) :
  (exists it, it ∈ corpus /\ eligible document_key it = true) ->
  main tree_tagger word_tokenize pos_tag_sents corpus document_key pos_tag_key
       language_code tagger_tt tt_home 0
  = ([], inl ZeroDivisionError).
Proof.
  intros Hel. unfold main. rewrite call_tt_tag_many. unfold tt_tag_many.
  destruct (tag_loop_batch_size_0 tree_tagger document_key pos_tag_key 0 corpus Hel)
    as [Hs Hy].
  destruct (tag_loop tree_tagger document_key pos_tag_key 0 0 corpus []) as [evs status].
  simpl in *. subst status.
  change (StartPoll :: evs ++ [StopPoll]) with ([StartPoll] ++ evs ++ [StopPoll]).
  rewrite !yields_app, Hy. done.
Qed.

End TaggerMain.

Section TaggerMainExamples.
Import Py PosTag.
Local Open Scope py_scope.

Lemma main_tt_batch_size_zero_witness :
  main Samples.sample_tagger (fun _ => inr []) (fun _ _ => inr [])
       [Samples.scraped ""; Samples.scraped "a"] "text" "tagged" "en"
       tagger_tt None 0
  = ([], inl ZeroDivisionError).
Proof.
  apply (main_tt_batch_size_zero Samples.sample_tagger (fun _ => inr [])
           (fun _ _ => inr []) [Samples.scraped ""; Samples.scraped "a"]
           "text" "tagged" "en" None).
  exists (Samples.scraped "a"). split; [right; left | reflexivity].
Defined.

Lemma main_tt_writes_tagged_items_witness :
  main Samples.sample_tagger (fun _ => inr []) (fun _ _ => inr [])
       [Samples.scraped ""; Samples.scraped "a"] "text" "tagged" "en"
       tagger_tt None 10000
  = (map LItem (map (tagged Samples.sample_tagger "text" "tagged")
                    (List.filter (eligible "text")
                       [Samples.scraped ""; Samples.scraped "a"])),
     inr 0%Z).
Proof.
  apply (main_tt_writes_tagged_items Samples.sample_tagger (fun _ => inr [])
           (fun _ _ => inr []) [Samples.scraped ""; Samples.scraped "a"]
           "text" "tagged" "en" None 10000).
  discriminate.
Defined.

End TaggerMainExamples.

(** * Further properties of [train.py] *)

Section TrainingMore.
Import Py Train.
Local Open Scope py_scope.

Variable float : Type.
Variable json_loads : string -> result json.
Variables gazetteer extractor features classifier : Type.
Variable reverse_gazetteer : json -> gazetteer.
Variable empty_gazetteer : gazetteer.
Variable FactExtractorFeatureExtractor : string -> extractor.
Variable process_sentence : extractor -> json -> json -> bool -> gazetteer -> extractor.
Variable get_features : extractor -> result features.
Variable LinearSVC : gmap string (optval float) -> result classifier.
Variable fit : classifier -> features -> result classifier.
Variable joblib_dump : classifier * extractor -> string -> result unit.

Local Abbreviation train_row := (train_row float json_loads gazetteer extractor process_sentence).
Local Abbreviation train_rows := (train_rows float json_loads gazetteer extractor process_sentence).
Local Abbreviation load_gazetteer :=
  (load_gazetteer json_loads gazetteer reverse_gazetteer empty_gazetteer).
Local Abbreviation feed := (feed gazetteer extractor process_sentence).
Local Abbreviation parsed := (parsed json_loads).
Local Abbreviation fed_event := (fed_event float).
Local Abbreviation main :=
  (main float json_loads gazetteer extractor features classifier reverse_gazetteer
        empty_gazetteer FactExtractorFeatureExtractor process_sentence get_features
        LinearSVC fit joblib_dump).

(** The loop over lines that parse advances the extractor and the log. *)
Lemma train_rows_app (gaz : gazetteer) (st : state float extractor)
    (good rest : list string) (data : list (json * json)) :
  Forall2 parsed good data ->
  train_rows gaz st (good ++ rest)
  = train_rows gaz
      (State float extractor
         (feed gaz (the_extractor float extractor st) data)
         (log float extractor st ++ map fed_event data))
      rest.
Proof.
  intros Hall. revert st.
  induction Hall as [|row sf good data Hsf _ IH]; intros st; simpl.
  - rewrite app_nil_r. by destruct st.
  - assert (train_row gaz st row
            = inr (State float extractor
                     (process_sentence (the_extractor float extractor st) sf.1 sf.2 true gaz)
                     (log float extractor st ++ [fed_event sf]))) as ->.
    { apply train_row_inr. eauto. }
    rewrite IH. simpl. by rewrite <- app_assoc.
Qed.

(** X24. When the lines before a line parse and that line does not (it is
    not JSON, or not an object, or lacks [sentence] or [fes]), [main] feeds
    the lines before it, in order, and raises: the features are not asked
    for, no classifier is made or fitted, and nothing is dumped. *)
Theorem main_stops_at_first_bad_line (good rest : list string) (bad : string)
    (data : list (json * json)) (language outfile : string)
    (gazetteer_file : option string) (o : options float) (gaz : gazetteer) :
  load_gazetteer gazetteer_file = inr gaz ->
  Forall2 parsed good data ->
  (forall sf, ~ parsed bad sf) ->
  exists e,
    train_row gaz
      (State float extractor
         (feed gaz (FactExtractorFeatureExtractor language) data) (map fed_event data))
      bad = inl e /\
    main (good ++ bad :: rest) language outfile gazetteer_file o
    = (map fed_event data, inl e).
Proof.
  intros Hgaz Hall Hbad. unfold Train.main, main_with. rewrite Hgaz.
  rewrite (train_rows_app gaz _ good (bad :: rest) data Hall). simpl.
  destruct (train_row gaz _ bad) as [e|st'] eqn:Hrow.
  - exists e. split; [done|]. done.
  - apply train_row_inr in Hrow as (sf & Hsf & _). by destruct (Hbad sf).
Qed.

(** The calls of a run: sentences fed, then the first of the four calls
    that make, fit and dump the classifier, up to the one that raises. *)
Lemma main_events_shape (training_set : list string) (language outfile : string)
    (gazetteer_file : option string) (o : options float) :
  exists data calls,
    (main training_set language outfile gazetteer_file o).1
    = map fed_event data ++ calls /\
    calls `prefix_of`
      [GetFeatures float; NewLinearSVC float (classifier_kwargs float o);
       Fit float; Dump float outfile].
Proof.
  unfold Train.main, main_with.
  destruct (load_gazetteer gazetteer_file) as [e|gaz].
  { exists [], []. split; [done | apply prefix_nil]. }
  set (st0 := State float extractor (FactExtractorFeatureExtractor language) []).
  destruct (train_rows_log float json_loads gazetteer extractor process_sentence
              gaz st0 training_set) as (data & _ & Hlog & _).
  exists data.
  destruct (train_rows gaz st0 training_set) as [st [e|]]; simpl in *.
  { exists []. rewrite app_nil_r. split; [done | apply prefix_nil]. }
  rewrite pop_c, Hlog. simpl. fold (classifier_kwargs float o).
  destruct (get_features (the_extractor float extractor st)) as [e|xy]; simpl.
  { exists [GetFeatures float]. split; [done|]. by eexists. }
  destruct (LinearSVC (classifier_kwargs float o)) as [e|svc]; simpl.
  { exists [GetFeatures float; NewLinearSVC float (classifier_kwargs float o)].
    split; [by rewrite <- app_assoc | by eexists]. }
  unfold fit_and_dump. destruct (fit svc xy) as [e|svc']; simpl.
  { exists [GetFeatures float; NewLinearSVC float (classifier_kwargs float o); Fit float].
    split; [by rewrite <- !app_assoc | by eexists]. }
  exists [GetFeatures float; NewLinearSVC float (classifier_kwargs float o);
          Fit float; Dump float outfile].
  split; [|done].
  destruct (joblib_dump (svc', the_extractor float extractor st) outfile) as [e|[]];
    simpl; by rewrite <- !app_assoc.
Qed.

(** X25. The keyword arguments of every [LinearSVC] that [main] makes are
    exactly [C], [loss], [penalty], [dual], [tol], [multi_class], [verbose],
    [random_state] and [max_iter]: the option [c] is renamed, and the
    training set, the language, the output file and the gazetteer are not
    passed on. *)
Theorem LinearSVC_keyword_arguments (training_set : list string)
    (language outfile : string) (gazetteer_file : option string) (o : options float)
    (kwargs : gmap string (optval float)) :
  NewLinearSVC float kwargs ∈ (main training_set language outfile gazetteer_file o).1 ->
  dom kwargs
  = ({["C"; "loss"; "penalty"; "dual"; "tol"; "multi_class"; "verbose";
       "random_state"; "max_iter"]} : gset string) /\
  kwargs !! "C" = Some (OFloat float (opt_c float o)) /\
  kwargs !! "max_iter" = Some (OInt float (opt_max_iter float o)).
Proof.
  intros Hin.
  destruct (main_events_shape training_set language outfile gazetteer_file o)
    as (data & calls & Hev & [rest Hcalls]); rewrite Hev in Hin.
  apply elem_of_app in Hin as [Hin|Hin].
  - apply list_elem_of_fmap in Hin as (sf & Heq & _). discriminate.
  - assert (NewLinearSVC float kwargs
              ∈ [GetFeatures float; NewLinearSVC float (classifier_kwargs float o);
                 Fit float; Dump float outfile]) as Hin'.
    { rewrite Hcalls. apply elem_of_app. by left. }
    apply elem_of_cons in Hin' as [Heq|Hin']; [discriminate|].
    apply elem_of_cons in Hin' as [Heq|Hin'].
    + inversion Heq; subst kwargs. unfold classifier_kwargs, kwargs_of.
      split; [|split].
      * rewrite dom_insert_L, dom_delete_L, !dom_insert_L, dom_singleton_L.
        set_solver.
      * by rewrite lookup_insert_eq.
      * by simplify_map_eq.
    + apply elem_of_cons in Hin' as [Heq|Hin']; [discriminate|].
      apply list_elem_of_singleton in Hin'. discriminate.
Qed.

(** X26. The exception that a line of the training set raises is the one of
    the parser, or [TypeError] when the line is JSON but not an object, or
    the [KeyError] of [sentence], or of [fes] when [sentence] is there. *)
Theorem train_row_exception (gaz : gazetteer) (st : state float extractor)
    (row : string) (e : exn) :
  train_row gaz st row = inl e ->
  json_loads row = inl e \/
  exists data,
    json_loads row = inr data /\
    (((forall members, data <> JObj members) /\ e = TypeError) \/
     exists members,
       data = JObj members /\
       ((assoc "sentence" members = None /\ e = KeyError "sentence") \/
        (is_Some (assoc "sentence" members) /\ assoc "fes" members = None /\
         e = KeyError "fes"))).
Proof.
  unfold Train.train_row.
  destruct (json_loads row) as [e0|data]; simpl; [intros [= ->]; by left|].
  intros H. right. exists data. split; [done|].
  destruct data as [| | | | |members]; simpl in H;
    try (inversion H; subst; left; split; [intros ?; discriminate | done]).
  right. exists members. split; [done|].
  destruct (assoc "sentence" members) as [sn|]; simpl in H.
  - right. destruct (assoc "fes" members) as [fes|]; simpl in H; [discriminate|].
    inversion H. eauto.
  - left. inversion H. done.
Qed.

End TrainingMore.

Section TrainingMoreExamples.
Import Py Train.
Local Open Scope py_scope.

Local Abbreviation sample_main :=
  (main Z Samples.sample_loads unit (list (json * json)) nat
        (gmap string (optval Z) * option nat)
        (fun _ => tt) tt (fun _ => [])
        (fun ext sentence fes _ _ => ext ++ [(sentence, fes)])
        (fun ext => inr (length ext))
        (fun kwargs => inr (kwargs, None))
        Samples.sample_fit
        (fun _ _ => inr tt)).

Local Abbreviation sample_train_row :=
  (train_row Z Samples.sample_loads unit (list (json * json))
             (fun ext sentence fes _ _ => ext ++ [(sentence, fes)])).

Lemma main_stops_at_first_bad_line_witness :
  exists e,
    sample_train_row tt
      (State Z (list (json * json))
         (feed unit (list (json * json))
            (fun ext sentence fes _ _ => ext ++ [(sentence, fes)]) tt []
            [(JStr "A b c", JObj [("Agent", JStr "b")])])
         (map (fed_event Z) [(JStr "A b c", JObj [("Agent", JStr "b")])]))
      "no json" = inl e /\
    sample_main (["line 1"] ++ "no json" :: ["line 2"]) "en" "model.pkl" None
                Samples.sample_options
    = (map (fed_event Z) [(JStr "A b c", JObj [("Agent", JStr "b")])], inl e).
Proof.
  apply (main_stops_at_first_bad_line Z Samples.sample_loads unit
           (list (json * json)) nat (gmap string (optval Z) * option nat)
           (fun _ => tt) tt (fun _ => [])
           (fun ext sentence fes _ _ => ext ++ [(sentence, fes)])
           (fun ext => inr (length ext))
           (fun kwargs => inr (kwargs, None))
           Samples.sample_fit
           (fun _ _ => inr tt)
           ["line 1"] ["line 2"] "no json"
           [(JStr "A b c", JObj [("Agent", JStr "b")])]
           "en" "model.pkl" None Samples.sample_options tt).
  - reflexivity.
  - constructor; [|constructor].
    eexists. split; [vm_compute; reflexivity|]. split; vm_compute; reflexivity.
  - intros sf (data & Hd & _). vm_compute in Hd. discriminate.
Defined.

Lemma LinearSVC_keyword_arguments_witness :
  dom (classifier_kwargs Z Samples.sample_options)
  = ({["C"; "loss"; "penalty"; "dual"; "tol"; "multi_class"; "verbose";
       "random_state"; "max_iter"]} : gset string) /\
  classifier_kwargs Z Samples.sample_options !! "C" = Some (OFloat Z 500%Z) /\
  classifier_kwargs Z Samples.sample_options !! "max_iter" = Some (OInt Z 1000%Z).
Proof.
  apply (LinearSVC_keyword_arguments Z Samples.sample_loads unit
           (list (json * json)) nat (gmap string (optval Z) * option nat)
           (fun _ => tt) tt (fun _ => [])
           (fun ext sentence fes _ _ => ext ++ [(sentence, fes)])
           (fun ext => inr (length ext))
           (fun kwargs => inr (kwargs, None))
           Samples.sample_fit
           (fun _ _ => inr tt)
           ["line 1"; "line 2"] "en" "model.pkl" None Samples.sample_options).
  apply list_elem_of_In. vm_compute. auto 10.
Defined.

Lemma train_row_exception_witness :
  Samples.sample_loads "no json" = inl ValueError \/
  exists data,
    Samples.sample_loads "no json" = inr data /\
    (((forall members, data <> JObj members) /\ ValueError = TypeError) \/
     exists members,
       data = JObj members /\
       ((assoc "sentence" members = None /\ ValueError = KeyError "sentence") \/
        (is_Some (assoc "sentence" members) /\ assoc "fes" members = None /\
         ValueError = KeyError "fes"))).
Proof.
  apply (train_row_exception Z Samples.sample_loads unit (list (json * json))
           (fun ext sentence fes _ _ => ext ++ [(sentence, fes)])
           tt (State Z (list (json * json)) [] []) "no json" ValueError).
  vm_compute. reflexivity.
Defined.

End TrainingMoreExamples.
